(** * Google Drive manager: a shallow embedding of [main.py]

    The client class [GoogleDriveManager] is a thin layer over the Drive v3
    API: every method builds a request, runs it inside [try: ... except
    Exception], prints what happened and returns a plain value.  The
    embedding keeps that shape:

    - Python values the code touches keep their Python form: metadata
      records are dictionaries from strings to strings ([gmap]), file
      contents are byte lists, optional arguments are [option string]
      with Python truthiness;
    - effects are explicit: a computation threads a [World] (remote
      state, local disk, printed lines, trace of remote requests) and
      ends in a value or in a raised exception;
    - the remote service is an interface ([Service]); the client is
      written against the interface, and [Sim] gives a reference
      implementation with fault injection.

    The six methods that talk to the service are embedded
    ([lister_fichiers], [trouver_dossier_par_nom], [telecharger_fichier],
    [uploader_fichier], [obtenir_formats_export], [creer_dossier]);
    [__init__], [authenticate] and [main] follow them, over an interface
    of the authorization library ([Authorizer]). *)

From Stdlib Require Import String Ascii ZArith List Lia.
From Stdlib.Strings Require Import Byte.
From stdpp Require Import base option list gmap strings pretty.

Open Scope string_scope.
Open Scope list_scope.

(** ** Python-level helpers *)

Module Py.

Definition bytes : Type := list byte.

(** Truthiness of an optional string argument: [None] and [''] are
    both false. *)
Definition truthy (o : option string) : bool :=
  match o with
  | Some s => negb (String.eqb s "")
  | None => false
  end.

(** The string a truthy optional argument holds. *)
Definition the (o : option string) : string := default "" o.

(** [str(x)] for an optional string ([None] prints as [None]). *)
Definition str_opt (o : option string) : string := default "None" o.

(** [str.lower()], on the ASCII letters. *)
Definition lower_ascii (c : ascii) : ascii :=
  let n := nat_of_ascii c in
  if (65 <=? n)%nat && (n <=? 90)%nat then ascii_of_nat (n + 32) else c.

Fixpoint lower (s : string) : string :=
  match s with
  | EmptyString => EmptyString
  | String c s' => String (lower_ascii c) (lower s')
  end.

(** [s.endswith(suf)]: [s] is [suf], or the tail of [s] ends with [suf]. *)
Fixpoint endswith (s suf : string) : bool :=
  String.eqb s suf ||
  match s with
  | EmptyString => false
  | String _ s' => endswith s' suf
  end.

(** [s.startswith(p)] *)
Fixpoint startswith (s p : string) {struct p} : bool :=
  match p with
  | EmptyString => true
  | String a p' =>
      match s with
      | EmptyString => false
      | String b s' => Ascii.eqb a b && startswith s' p'
      end
  end.

(** [os.path.basename]: what follows the last slash. *)
Fixpoint basename_from (p acc : string) : string :=
  match p with
  | EmptyString => acc
  | String c p' =>
      if Ascii.eqb c "/" then basename_from p' EmptyString
      else basename_from p' (acc +:+ String c EmptyString)
  end.

Definition basename (p : string) : string := basename_from p EmptyString.

(** The directory of a path, with its final slash: what comes before
    the base name (empty for a name in the working directory). *)
Fixpoint dir_part (p : string) : string :=
  match p with
  | EmptyString => EmptyString
  | String c p' =>
      match dir_part p' with
      | EmptyString => if Ascii.eqb c "/" then String c EmptyString else EmptyString
      | d => String c d
      end
  end.

(** [s * n] *)
Fixpoint str_repeat (s : string) (n : nat) : string :=
  match n with
  | O => EmptyString
  | S k => s +:+ str_repeat s k
  end.

(** [int(s)] on a string of ASCII characters; [None] stands for
    [ValueError].  The blanks around the literal are dropped, a sign
    may come first, and single underscores may stand between two
    digits.  (Python also reads the decimal digits and the blanks of
    other scripts, and from 3.11 on refuses a literal of more than 4300
    digits: neither is modelled, so [int] can answer [None] on a
    string with a character outside ASCII that Python reads, and
    [Some] on a literal that long.) *)
Definition digit_of (c : ascii) : option Z :=
  let n := Z.of_nat (nat_of_ascii c) in
  if (48 <=? n)%Z && (n <=? 57)%Z then Some (n - 48)%Z else None.

(** The blanks of [int]: the space, and the characters 9 to 13. *)
Definition is_space (c : ascii) : bool :=
  let n := nat_of_ascii c in
  (n =? 32)%nat || ((9 <=? n)%nat && (n <=? 13)%nat).

Fixpoint lstrip (s : string) : string :=
  match s with
  | EmptyString => s
  | String c s' => if is_space c then lstrip s' else s
  end.

Fixpoint blank (s : string) : bool :=
  match s with
  | EmptyString => true
  | String c s' => is_space c && blank s'
  end.

(** What follows a digit: digits, an underscore before a digit, or
    blanks up to the end. *)
Fixpoint digits_val (s : string) (acc : Z) : option Z :=
  match s with
  | EmptyString => Some acc
  | String c s' =>
      match digit_of c with
      | Some d => digits_val s' (10 * acc + d)%Z
      | None =>
          if Ascii.eqb c "_"
          then match s' with
               | String c' s'' =>
                   match digit_of c' with
                   | Some d => digits_val s'' (10 * acc + d)%Z
                   | None => None
                   end
               | EmptyString => None
               end
          else if blank s then Some acc else None
      end
  end.

(** A literal without its sign: it starts with a digit. *)
Definition unsigned (s : string) : option Z :=
  match s with
  | EmptyString => None
  | String c s' =>
      match digit_of c with
      | Some d => digits_val s' d
      | None => None
      end
  end.

Definition int (s : string) : option Z :=
  match lstrip s with
  | EmptyString => None
  | String c s' =>
      if Ascii.eqb c "-" then Z.opp <$> unsigned s'
      else if Ascii.eqb c "+" then unsigned s'
      else unsigned (String c s')
  end.

(** [f"{n:,}"]: decimal digits in groups of three. *)
Fixpoint commas (rev_digits : list ascii) : list ascii :=
  match rev_digits with
  | a :: b :: c :: ((_ :: _) as rest) => a :: b :: c :: ","%char :: commas rest
  | _ => rev_digits
  end.

Definition fmt_thousands (n : Z) : string :=
  let digits := list_ascii_of_string (pretty (Z.abs_N n)) in
  let body := string_of_list_ascii (rev (commas (rev digits))) in
  if (n <? 0)%Z then "-" +:+ body else body.

(** The exceptions the code can meet.  [HttpError] stands for whatever
    the API client raises for a request that failed (network, quota,
    permission, bad request). *)
Inductive exn : Type :=
| KeyError (key : string)
| ValueError (msg : string)
| FileNotFoundError (path : string)
| UnpicklingError (msg : string)
| HttpError (msg : string).

(** [str(e)] *)
Definition str_exn (e : exn) : string :=
  match e with
  | KeyError k => "'" +:+ k +:+ "'"
  | ValueError m => m
  | FileNotFoundError p => "[Errno 2] No such file or directory: '" +:+ p +:+ "'"
  | UnpicklingError m => m
  | HttpError m => m
  end.

(** Outcome of a statement block: a value or a raised exception. *)
Inductive res (A : Type) : Type :=
| Ok (a : A)
| Raise (e : exn).
Arguments Ok {A} a.
Arguments Raise {A} e.

End Py.
Export Py.

(** ** The remote service, as the client sees it *)

(** A metadata record as the API returns it: a JSON object whose values
    are strings ([id], [name], [mimeType], [size], [createdTime]). *)
Abbreviation item := (gmap string string).

(** The body of [files().create]: the dictionary literals the client
    builds have a name, sometimes a MIME type, sometimes one parent. *)
Record Body : Type := mkBody {
  body_name : string;
  body_mimeType : option string;
  body_parents : option (list string)
}.

(** [MediaFileUpload(path, resumable=True)] *)
Record Media : Type := mkMedia {
  media_filename : string;
  media_mimetype : string;
  media_resumable : bool;
  media_content : bytes
}.

(** The answer of [files().list(...).execute()]; [results.get('files', [])]
    reads it. *)
Record ListResponse : Type := mkListResponse {
  resp_files : option (list item)
}.

(** One answer of [MediaIoBaseDownload.next_chunk]: the bytes appended to
    the buffer and the progress shown, [int(status.progress() * 100)]. *)
Record Chunk : Type := mkChunk {
  chunk_data : bytes;
  chunk_percent : Z
}.

(** A remote request, for the trace. *)
Inductive call : Type :=
| FilesList (q fields : string)
| FilesGet (fileId : string)
| FilesExportMedia (fileId mimeType : string)
| FilesGetMedia (fileId : string)
| FilesCreate (body : Body) (media : option Media) (fields : string).

(** A request and, when it failed, the exception it raised. *)
Record event : Type := mkEvent {
  ev_call : call;
  ev_error : option exn
}.

(** The five requests the client sends, over a remote state [R].  Each
    answers with an exception or a result, and a new remote state.  A
    media download is a finite run of chunk requests: the loop
    [while done is False] asks for one chunk per element and the service
    marks the last one done; an element [inl e] is a request that
    raised. *)
Class Service (R : Type) : Type := mkService {
  files_list : string -> string -> R -> (exn + ListResponse) * R;
  files_get : string -> R -> (exn + item) * R;
  files_export_media : string -> string -> R -> (exn + bytes) * R;
  files_get_media : string -> R -> list (exn + Chunk) * R;
  files_create : Body -> option Media -> string -> R -> (exn + item) * R
}.

(** ** The world a method runs in *)

(** The local files are a flat map from paths to contents.  [dirs]
    lists directories that exist, each with its final slash and in the
    writing the paths use for it ([out/] and [./out/] are two
    writings); the directories above a listed one exist too, and so
    does the working directory.  No method creates or removes a
    directory. *)
Record World (R : Type) : Type := mkWorld {
  remote : R;
  disk : gmap string bytes;
  dirs : list string;
  stdout : list string;
  calls : list event
}.
Arguments mkWorld {R} _ _ _ _ _.
Arguments remote {R} _.
Arguments disk {R} _.
Arguments dirs {R} _.
Arguments stdout {R} _.
Arguments calls {R} _.

Definition set_remote {R} (r : R) (w : World R) : World R :=
  mkWorld r (disk w) (dirs w) (stdout w) (calls w).
Definition set_disk {R} (d : gmap string bytes) (w : World R) : World R :=
  mkWorld (remote w) d (dirs w) (stdout w) (calls w).
Definition add_stdout {R} (l : string) (w : World R) : World R :=
  mkWorld (remote w) (disk w) (dirs w) (stdout w ++ [l]) (calls w).
Definition add_call {R} (e : event) (w : World R) : World R :=
  mkWorld (remote w) (disk w) (dirs w) (stdout w) (calls w ++ [e]).

(** The directory [d], written with its final slash, exists: it is the
    working directory, or a listed directory or one above it. *)
Definition dir_exists {R} (w : World R) (d : string) : bool :=
  String.eqb d "" || existsb (fun listed => startswith listed d) (dirs w).

(** ** Statement blocks *)

Definition M (R A : Type) : Type := World R -> res A * World R.

Definition ret {R A} (a : A) : M R A := fun w => (Ok a, w).

Definition raise {R A} (e : exn) : M R A := fun w => (Raise e, w).

Definition bind {R A B} (m : M R A) (k : A -> M R B) : M R B :=
  fun w =>
    match m w with
    | (Ok a, w') => k a w'
    | (Raise e, w') => (Raise e, w')
    end.

(** [try: body except Exception as e: handler] *)
Definition try_except {R A} (body : M R A) (handler : exn -> M R A) : M R A :=
  fun w =>
    match body w with
    | (Ok a, w') => (Ok a, w')
    | (Raise e, w') => handler e w'
    end.

Declare Scope py_scope.
Delimit Scope py_scope with py.
Notation "x <- m ;; k" := (bind m (fun x => k))
  (at level 100, m at next level, right associativity) : py_scope.
Notation "m ;; k" := (bind m (fun _ => k))
  (at level 100, right associativity) : py_scope.
Open Scope py_scope.

Definition print {R} (l : string) : M R unit :=
  fun w => (Ok tt, add_stdout l w).

(** [d[key]] *)
Definition getitem {R} (d : item) (key : string) : M R string :=
  match d !! key with
  | Some v => ret v
  | None => raise (KeyError key)
  end.

(** [int(s)] *)
Definition int_of_str {R} (s : string) : M R Z :=
  match Py.int s with
  | Some n => ret n
  | None => raise (ValueError ("invalid literal for int() with base 10: '" +:+ s +:+ "'"))
  end.

(** [os.path.exists(path)]; the local disk is a flat map from paths to
    contents. *)
Definition path_exists {R} (path : string) : M R bool :=
  fun w => (Ok (bool_decide (is_Some (disk w !! path))), w).

(** [with open(path, 'wb') as f: f.write(content)]: the file is made in
    the directory of the path, which has to exist.  (The other ways
    [open] can fail, such as a path that names a directory or that the
    process may not write, are not modelled.) *)
Definition write_file {R} (path : string) (content : bytes) : M R unit :=
  fun w =>
    if String.eqb path "" || negb (dir_exists w (dir_part path))
    then (Raise (FileNotFoundError path), w)
    else (Ok tt, set_disk (<[path := content]> (disk w)) w).

(** [with open(path, 'rb') as f: f.read()] *)
Definition read_file {R} (path : string) : M R bytes :=
  fun w =>
    match disk w !! path with
    | Some c => (Ok c, w)
    | None => (Raise (FileNotFoundError path), w)
    end.

(** [os.remove(path)] *)
Definition remove_file {R} (path : string) : M R unit :=
  fun w =>
    match disk w !! path with
    | Some _ => (Ok tt, set_disk (delete path (disk w)) w)
    | None => (Raise (FileNotFoundError path), w)
    end.

(** ** The client: [class GoogleDriveManager] *)

Section Client.

Context {R : Type} `{Service R}.

(** [mimetypes.guess_type(filename)[0]], which [MediaFileUpload] asks
    for the content type of the file it uploads. *)
Variable guess_type : string -> option string.

(** *** Requests: [self.service.files().<request>(...).execute()] *)

Definition execute_list (q fields : string) : M R ListResponse :=
  fun w =>
    match files_list q fields (remote w) with
    | (inr r, s) => (Ok r, add_call (mkEvent (FilesList q fields) None) (set_remote s w))
    | (inl e, s) => (Raise e, add_call (mkEvent (FilesList q fields) (Some e)) (set_remote s w))
    end.

Definition execute_get (fileId : string) : M R item :=
  fun w =>
    match files_get fileId (remote w) with
    | (inr r, s) => (Ok r, add_call (mkEvent (FilesGet fileId) None) (set_remote s w))
    | (inl e, s) => (Raise e, add_call (mkEvent (FilesGet fileId) (Some e)) (set_remote s w))
    end.

Definition execute_export_media (fileId mimeType : string) : M R bytes :=
  fun w =>
    match files_export_media fileId mimeType (remote w) with
    | (inr r, s) =>
        (Ok r, add_call (mkEvent (FilesExportMedia fileId mimeType) None) (set_remote s w))
    | (inl e, s) =>
        (Raise e, add_call (mkEvent (FilesExportMedia fileId mimeType) (Some e)) (set_remote s w))
    end.

Definition execute_create (body : Body) (media : option Media) (fields : string) : M R item :=
  fun w =>
    match files_create body media fields (remote w) with
    | (inr r, s) =>
        (Ok r, add_call (mkEvent (FilesCreate body media fields) None) (set_remote s w))
    | (inl e, s) =>
        (Raise e, add_call (mkEvent (FilesCreate body media fields) (Some e)) (set_remote s w))
    end.

(** [request = self.service.files().get_media(fileId=...)]: the run of
    chunk answers the download will meet. *)
Definition get_media (fileId : string) : M R (list (exn + Chunk)) :=
  fun w =>
    let '(script, s) := files_get_media fileId (remote w) in
    (Ok script, set_remote s w).

(** One [downloader.next_chunk()] *)
Definition next_chunk (fileId : string) (answer : exn + Chunk) : M R Chunk :=
  fun w =>
    match answer with
    | inr c => (Ok c, add_call (mkEvent (FilesGetMedia fileId) None) w)
    | inl e => (Raise e, add_call (mkEvent (FilesGetMedia fileId) (Some e)) w)
    end.

(** [MediaFileUpload(path, resumable=True)]: opens the file and guesses
    its content type. *)
Definition MediaFileUpload (path : string) : M R Media :=
  content <- read_file path;;
  ret (mkMedia path (default "application/octet-stream" (guess_type path)) true content).

(** *** [trouver_dossier_par_nom] (lines 106-121) *)

(** The f-string of line 110 *)
Definition requete_dossier (nom_dossier : string) : string :=
  "name='" +:+ nom_dossier +:+
  "' and mimeType='application/vnd.google-apps.folder' and trashed=false".

Definition trouver_dossier_par_nom (nom_dossier : string) : M R (option string) :=
  try_except
    (results <- execute_list (requete_dossier nom_dossier) "files(id, name)";;
     let items := default [] (resp_files results) in
     match items with
     | first :: _ =>
         id <- getitem first "id";;
         ret (Some id)
     | [] => ret None
     end)
    (fun e =>
       print ("❌ Erreur lors de la recherche du dossier: " +:+ str_exn e);;
       ret None).

(** *** [lister_fichiers] (lines 48-104) *)

(** The body of [for item in items] (lines 89-98) *)
Definition afficher_item (it : item) : M R unit :=
  let taille := default "N/A" (it !! "size") in
  taille <- (if String.eqb taille "N/A" then ret taille
             else (n <- int_of_str taille;; ret (fmt_thousands n +:+ " octets")));;
  name <- getitem it "name";;
  print ("📄 " +:+ name);;
  id <- getitem it "id";;
  print ("   ID: " +:+ id);;
  mimeType <- getitem it "mimeType";;
  print ("   Type: " +:+ mimeType);;
  print ("   Taille: " +:+ taille);;
  print ("   Créé: " +:+ default "N/A" (it !! "createdTime"));;
  print (str_repeat "-" 80).

Fixpoint afficher_items (items : list item) : M R unit :=
  match items with
  | [] => ret tt
  | it :: rest => afficher_item it;; afficher_items rest
  end.

(** The f-string of line 69 and the [fields] of line 76 *)
Definition requete_parents (dossier_id : string) : string :=
  "'" +:+ dossier_id +:+ "' in parents and trashed=false".

Definition champs_liste : string :=
  "nextPageToken, files(id, name, mimeType, size, createdTime)".

Definition lister_fichiers (dossier_id nom_dossier : option string) : M R (list item) :=
  (* lines 67-100, once [dossier_id] is settled *)
  let suite (dossier_id : option string) : M R (list item) :=
    let query :=
      if truthy dossier_id
      then requete_parents (the dossier_id)
      else "trashed=false" in
    results <- execute_list query champs_liste;;
    let items := default [] (resp_files results) in
    match items with
    | [] =>
        print "📁 Aucun fichier trouvé.";;
        ret []
    | _ :: _ =>
        print ("📋 " +:+ pretty (length items) +:+ " fichiers trouvés:");;
        print (str_repeat "-" 80);;
        afficher_items items;;
        ret items
    end in
  try_except
    (if truthy nom_dossier && negb (truthy dossier_id)
     then
       dossier_id <- trouver_dossier_par_nom (the nom_dossier);;
       if negb (truthy dossier_id)
       then
         print ("❌ Dossier '" +:+ the nom_dossier +:+ "' non trouvé");;
         ret []
       else suite dossier_id
     else suite dossier_id)
    (fun e =>
       print ("❌ Erreur lors de la liste des fichiers: " +:+ str_exn e);;
       ret []).

(** *** [telecharger_fichier] (lines 123-215) *)

Definition google_docs_types : gmap string string :=
  <["application/vnd.google-apps.document" :=
      "application/vnd.openxmlformats-officedocument.wordprocessingml.document"]>
  (<["application/vnd.google-apps.spreadsheet" :=
      "application/vnd.openxmlformats-officedocument.spreadsheetml.sheet"]>
  (<["application/vnd.google-apps.presentation" :=
      "application/vnd.openxmlformats-officedocument.presentationml.presentation"]>
  (<["application/vnd.google-apps.drawing" := "image/png"]> ∅))).

Definition extensions : gmap string string :=
  <["application/vnd.openxmlformats-officedocument.wordprocessingml.document" := ".docx"]>
  (<["application/vnd.openxmlformats-officedocument.spreadsheetml.sheet" := ".xlsx"]>
  (<["application/vnd.openxmlformats-officedocument.presentationml.presentation" := ".pptx"]>
  (<["image/png" := ".png"]>
  (<["application/pdf" := ".pdf"]>
  (<["text/plain" := ".txt"]>
  (<["text/csv" := ".csv"]> ∅)))))).

(** The loop of lines 199-203 over the chunk answers; [fh] is the
    buffer.  ([status] is a progress object, which is always true, so
    the progress line is printed for every chunk.) *)
Fixpoint download_chunks (fileId : string) (script : list (exn + Chunk)) (fh : bytes)
  : M R bytes :=
  match script with
  | [] => ret fh
  | answer :: rest =>
      c <- next_chunk fileId answer;;
      print ("⏳ Téléchargement: " +:+ pretty (chunk_percent c) +:+ "%");;
      download_chunks fileId rest (fh ++ chunk_data c)
  end.

Definition telecharger_fichier (fichier_id : string)
    (nom_fichier_local format_export : option string) : M R bool :=
  try_except
    (file_metadata <- execute_get fichier_id;;
     mime_type <- getitem file_metadata "mimeType";;
     nom_fichier_local <-
       (if negb (truthy nom_fichier_local)
        then getitem file_metadata "name"
        else ret (the nom_fichier_local));;
     name <- getitem file_metadata "name";;
     print ("📥 Téléchargement de '" +:+ name +:+ "'...");;
     print ("🔍 Type MIME: " +:+ mime_type);;
     match google_docs_types !! mime_type with
     | Some default_export =>
         let export_mime_type :=
           if truthy format_export then the format_export else default_export in
         print ("📄 Fichier Google Docs détecté - Export en format: " +:+ export_mime_type);;
         let nom_fichier_local :=
           match extensions !! export_mime_type with
           | Some ext =>
               if negb (endswith (lower nom_fichier_local) (lower ext))
               then nom_fichier_local +:+ ext
               else nom_fichier_local
           | None => nom_fichier_local
           end in
         content <- execute_export_media fichier_id export_mime_type;;
         write_file nom_fichier_local content;;
         print ("✅ Fichier Google Docs exporté avec succès: " +:+ nom_fichier_local);;
         ret true
     | None =>
         print "📁 Fichier binaire détecté - Téléchargement direct";;
         request <- get_media fichier_id;;
         fh <- download_chunks fichier_id request [];;
         write_file nom_fichier_local fh;;
         print ("✅ Fichier téléchargé avec succès: " +:+ nom_fichier_local);;
         ret true
     end)
    (fun e =>
       print ("❌ Erreur lors du téléchargement: " +:+ str_exn e);;
       ret false).

(** *** [uploader_fichier] (lines 217-266) *)

Definition uploader_fichier (chemin_fichier_local : string)
    (dossier_id nom_dossier : option string) : M R (option string) :=
  (* lines 241-262, once [dossier_id] is settled *)
  let suite (dossier_id : option string) : M R (option string) :=
    let nom_fichier := basename chemin_fichier_local in
    let file_metadata :=
      mkBody nom_fichier None
        (if truthy dossier_id then Some [the dossier_id] else None) in
    media <- MediaFileUpload chemin_fichier_local;;
    print ("📤 Upload de '" +:+ nom_fichier +:+ "' en cours...");;
    file <- execute_create file_metadata (Some media) "id";;
    print ("✅ Fichier uploadé avec succès. ID: " +:+ str_opt (file !! "id"));;
    ret (file !! "id") in
  try_except
    (present <- path_exists chemin_fichier_local;;
     if negb present
     then
       print ("❌ Fichier local non trouvé: " +:+ chemin_fichier_local);;
       ret None
     else if truthy nom_dossier && negb (truthy dossier_id)
     then
       dossier_id <- trouver_dossier_par_nom (the nom_dossier);;
       if negb (truthy dossier_id)
       then
         print ("❌ Dossier '" +:+ the nom_dossier +:+ "' non trouvé");;
         ret None
       else suite dossier_id
     else suite dossier_id)
    (fun e =>
       print ("❌ Erreur lors de l'upload: " +:+ str_exn e);;
       ret None).

(** *** [obtenir_formats_export] (lines 268-323) *)

(** The inner dictionaries of [formats_disponibles], each as the list
    of its entries in the order of the literal ([.items()] walks them
    in that order). *)
Definition formats_document : list (string * string) :=
  [("application/vnd.openxmlformats-officedocument.wordprocessingml.document", ".docx (Word)");
   ("application/pdf", ".pdf");
   ("text/plain", ".txt");
   ("application/rtf", ".rtf");
   ("application/vnd.oasis.opendocument.text", ".odt")].

Definition formats_spreadsheet : list (string * string) :=
  [("application/vnd.openxmlformats-officedocument.spreadsheetml.sheet", ".xlsx (Excel)");
   ("application/pdf", ".pdf");
   ("text/csv", ".csv");
   ("application/vnd.oasis.opendocument.spreadsheet", ".ods")].

Definition formats_presentation : list (string * string) :=
  [("application/vnd.openxmlformats-officedocument.presentationml.presentation",
    ".pptx (PowerPoint)");
   ("application/pdf", ".pdf");
   ("image/jpeg", ".jpg");
   ("image/png", ".png");
   ("application/vnd.oasis.opendocument.presentation", ".odp")].

Definition formats_drawing : list (string * string) :=
  [("image/png", ".png");
   ("image/jpeg", ".jpg");
   ("image/svg+xml", ".svg");
   ("application/pdf", ".pdf")].

Definition formats_disponibles : gmap string (list (string * string)) :=
  <["application/vnd.google-apps.document" := formats_document]>
  (<["application/vnd.google-apps.spreadsheet" := formats_spreadsheet]>
  (<["application/vnd.google-apps.presentation" := formats_presentation]>
  (<["application/vnd.google-apps.drawing" := formats_drawing]> ∅))).

(** [for format_mime, description in formats.items(): print(...)] *)
Fixpoint afficher_formats (entries : list (string * string)) : M R unit :=
  match entries with
  | [] => ret tt
  | (format_mime, description) :: rest =>
      print ("   • " +:+ format_mime +:+ " → " +:+ description);;
      afficher_formats rest
  end.

Definition obtenir_formats_export (fichier_id : string) : M R (gmap string string) :=
  try_except
    (file_metadata <- execute_get fichier_id;;
     mime_type <- getitem file_metadata "mimeType";;
     match formats_disponibles !! mime_type with
     | Some formats =>
         name <- getitem file_metadata "name";;
         print ("📋 Formats d'export disponibles pour '" +:+ name +:+ "':");;
         afficher_formats formats;;
         ret (list_to_map formats)
     | None =>
         print ("📁 Fichier binaire - pas besoin d'export: " +:+ mime_type);;
         ret ∅
     end)
    (fun e =>
       print ("❌ Erreur lors de l'obtention des formats: " +:+ str_exn e);;
       ret ∅).

(** *** [creer_dossier] (lines 325-355) *)

Definition creer_dossier (nom_dossier : string) (dossier_parent_id : option string)
  : M R (option string) :=
  try_except
    (let file_metadata :=
       mkBody nom_dossier (Some "application/vnd.google-apps.folder")
         (if truthy dossier_parent_id then Some [the dossier_parent_id] else None) in
     file <- execute_create file_metadata None "id";;
     print ("✅ Dossier '" +:+ nom_dossier +:+ "' créé avec succès. ID: "
            +:+ str_opt (file !! "id"));;
     ret (file !! "id"))
    (fun e =>
       print ("❌ Erreur lors de la création du dossier: " +:+ str_exn e);;
       ret None).

End Client.

(** ** Reports: [uploader_report] and [load_report]

    [frontend.py] calls both on the manager it imports from the module
    [utils_drive]; that module is not among the sources, so the two
    methods are written from the specification, on top of
    [uploader_fichier] and [telecharger_fichier] above. *)

(** The process-wide serialization format ([pickle]): every value of [V]
    can be dumped, and loading a dump gives the value back. *)
Class Pickle (V : Type) : Type := mkPickle {
  dumps : V -> bytes;
  loads : bytes -> option V;
  loads_dumps : forall v, loads (dumps v) = Some v
}.

Section Reports.

Context {R : Type} `{Service R} {V : Type} `{Pickle V}.
Variable guess_type : string -> option string.

(** The temporary local location: the directory prefix (with its
    final slash, or empty for the working directory) under which a
    report is written before its upload and after its download. *)
Variable tmp_dir : string.

(** [try: body finally: cleanup] *)
Definition try_finally {A} (body : M R A) (cleanup : M R unit) : M R A :=
  fun w =>
    match body w with
    | (Ok a, w') =>
        match cleanup w' with
        | (Ok _, w'') => (Ok a, w'')
        | (Raise e, w'') => (Raise e, w'')
        end
    | (Raise e, w') =>
        match cleanup w' with
        | (Ok _, w'') => (Raise e, w'')
        | (Raise e', w'') => (Raise e', w'')
        end
    end.

(** Modelled from the spec: [uploader_report] (the spec's
    [save_report]) of the missing module [utils_drive].  "Serializes
    value to a binary blob using a process-wide serialization format,
    writes it to a temporary local location, and delegates to upload.
    The temporary artifact must be removed after the upload attempt
    regardless of outcome." *)
Definition uploader_report (objet_a_pickler : V) (nom_fichier dossier_id : string)
  : M R (option string) :=
  let chemin := tmp_dir +:+ nom_fichier in
  write_file chemin (dumps objet_a_pickler);;
  try_finally
    (uploader_fichier guess_type chemin (Some dossier_id) None)
    (remove_file chemin).

(** Modelled from the spec: [load_report] of the missing module
    [utils_drive].  "Delegates to download into a temporary local
    location, deserializes the blob back into an in-memory value using
    the same serialization format, removes the temporary artifact, and
    returns the value.  Fails if the blob is not a well-formed
    serialized value of the expected format." *)
Definition load_report (fichier_id : string) : M R V :=
  let chemin := tmp_dir +:+ fichier_id in
  telecharger_fichier fichier_id (Some chemin) None;;
  blob <- read_file chemin;;
  match loads blob with
  | Some objet =>
      remove_file chemin;;
      ret objet
  | None => raise (UnpicklingError "invalid load key")
  end.

End Reports.

(** ** A reference remote store

    A small Drive: a list of file records, the newest first, answering
    the five requests of [Service] the way the Drive API documents them,
    with a plan of injected faults so that any request can be made to
    fail. *)

Module Sim.

Record File : Type := mkFile {
  file_id : string;
  file_name : string;
  file_mimeType : string;
  file_size : option string;
  file_createdTime : string;
  file_parents : list string;
  file_trashed : bool;
  file_content : bytes
}.

(** [faults]: what happens to the coming requests, one entry per
    request ([Some e]: the request raises [e]); requests past the end
    of the plan run normally.  [chunksize]: bytes per chunk of a media
    download.  [now]: the creation time given to new records. *)
Record state : Type := mkState {
  files : list File;
  faults : list (option exn);
  chunksize : nat;
  now : string
}.

Definition set_files (fs : list File) (st : state) : state :=
  mkState fs (faults st) (chunksize st) (now st).
Definition set_faults (p : list (option exn)) (st : state) : state :=
  mkState (files st) p (chunksize st) (now st).

(** Consume the plan entry of one request. *)
Definition next_fault (st : state) : option exn * state :=
  match faults st with
  | [] => (None, st)
  | o :: rest => (o, set_faults rest st)
  end.

(** *** The query language of [files().list(q=...)]

    The fragment the client writes: terms joined by [ and ], string
    literals between single quotes.  A literal with a backslash
    (an escape sequence) or without its closing quote is rejected.
    Drive also reads [or], [not], [contains] and comparisons; the store
    refuses a query that uses them, so it says nothing of a query built
    from a name or an identifier that holds a quote. *)

Inductive term : Type :=
| Trashed (b : bool)
| InParents (id : string)
| NameIs (s : string)
| MimeTypeIs (s : string).

Definition quote : ascii := "'"%char.
Definition backslash : ascii := ascii_of_nat 92.

(** The literal that ends at the first quote of [s], and what follows
    the quote. *)
Fixpoint read_literal (s : string) : option (string * string) :=
  match s with
  | EmptyString => None
  | String c s' =>
      if Ascii.eqb c quote then Some (EmptyString, s')
      else if Ascii.eqb c backslash then None
      else
        match read_literal s' with
        | Some (lit, rest) => Some (String c lit, rest)
        | None => None
        end
  end.

Fixpoint strip_prefix (p s : string) : option string :=
  match p with
  | EmptyString => Some s
  | String a p' =>
      match s with
      | EmptyString => None
      | String b s' => if Ascii.eqb a b then strip_prefix p' s' else None
      end
  end.

Definition parse_term (q : string) : option (term * string) :=
  match strip_prefix "'" q with
  | Some r =>
      match read_literal r with
      | Some (lit, rest) =>
          match strip_prefix " in parents" rest with
          | Some rest' => Some (InParents lit, rest')
          | None => None
          end
      | None => None
      end
  | None =>
  match strip_prefix "name='" q with
  | Some r =>
      match read_literal r with
      | Some (lit, rest) => Some (NameIs lit, rest)
      | None => None
      end
  | None =>
  match strip_prefix "mimeType='" q with
  | Some r =>
      match read_literal r with
      | Some (lit, rest) => Some (MimeTypeIs lit, rest)
      | None => None
      end
  | None =>
  match strip_prefix "trashed=false" q with
  | Some rest => Some (Trashed false, rest)
  | None =>
  match strip_prefix "trashed=true" q with
  | Some rest => Some (Trashed true, rest)
  | None => None
  end end end end end.

(** A query is a conjunction of terms; [fuel] bounds their number. *)
Fixpoint parse_terms (fuel : nat) (q : string) : option (list term) :=
  match fuel with
  | O => None
  | S fuel' =>
      match parse_term q with
      | Some (t, rest) =>
          if String.eqb rest "" then Some [t]
          else
            match strip_prefix " and " rest with
            | Some q' =>
                match parse_terms fuel' q' with
                | Some ts => Some (t :: ts)
                | None => None
                end
            | None => None
            end
      | None => None
      end
  end.

Definition parse_query (q : string) : option (list term) :=
  parse_terms (String.length q) q.

Definition satisfies (f : File) (t : term) : bool :=
  match t with
  | Trashed b => Bool.eqb (file_trashed f) b
  | InParents id => existsb (String.eqb id) (file_parents f)
  | NameIs s => String.eqb (file_name f) s
  | MimeTypeIs s => String.eqb (file_mimeType f) s
  end.

Definition selected (ts : list term) (f : File) : bool :=
  forallb (satisfies f) ts.

(** *** Answers *)

(** [sub] occurs in [s]. *)
Fixpoint contains (s sub : string) : bool :=
  String.prefix sub s ||
  match s with
  | EmptyString => false
  | String _ s' => contains s' sub
  end.

(** The JSON object of a record under a [fields] mask: the keys the
    mask names ([size] only when the record has one). *)
Definition view (fields : string) (f : File) : item :=
  let entries :=
    [("id", file_id f); ("name", file_name f); ("mimeType", file_mimeType f);
     ("createdTime", file_createdTime f)] ++
    match file_size f with
    | Some n => [("size", n)]
    | None => []
    end in
  list_to_map (List.filter (fun kv => contains fields (fst kv)) entries).

(** The mask of a request that names none. *)
Definition default_fields : string := "id, name, mimeType".

Definition find_file (id : string) (fs : list File) : option File :=
  List.find (fun f => String.eqb (file_id f) id) fs.

(** The types of the Docs editors are exported, never downloaded. *)
Definition is_editor_type (mime : string) : bool :=
  String.prefix "application/vnd.google-apps." mime.

Definition is_folder (f : File) : bool :=
  String.eqb (file_mimeType f) "application/vnd.google-apps.folder".

Definition sim_list (q fields : string) (st : state) : (exn + ListResponse) * state :=
  match next_fault st with
  | (Some e, st') => (inl e, st')
  | (None, st') =>
      match parse_query q with
      | Some ts =>
          (inr (mkListResponse (Some (view fields <$> List.filter (selected ts) (files st')))),
           st')
      | None => (inl (HttpError ("Invalid Value: " +:+ q)), st')
      end
  end.

Definition sim_get (fileId : string) (st : state) : (exn + item) * state :=
  match next_fault st with
  | (Some e, st') => (inl e, st')
  | (None, st') =>
      match find_file fileId (files st') with
      | Some f => (inr (view default_fields f), st')
      | None => (inl (HttpError ("File not found: " +:+ fileId)), st')
      end
  end.

(** Conversions are not modelled: an export answers with the stored
    content. *)
Definition sim_export_media (fileId mimeType : string) (st : state)
  : (exn + bytes) * state :=
  match next_fault st with
  | (Some e, st') => (inl e, st')
  | (None, st') =>
      match find_file fileId (files st') with
      | Some f =>
          if is_editor_type (file_mimeType f)
          then (inr (file_content f), st')
          else (inl (HttpError "Export only supports Docs Editors files."), st')
      | None => (inl (HttpError ("File not found: " +:+ fileId)), st')
      end
  end.

(** The content cut in chunks of [size] bytes (one chunk for an empty
    content). *)
Fixpoint chunks_of (fuel size : nat) (content : bytes) : list bytes :=
  match fuel with
  | O => [content]
  | S fuel' =>
      if (length content <=? size)%nat then [content]
      else take size content :: chunks_of fuel' size (drop size content)
  end.

(** One request per chunk, each under the fault plan; the run stops at
    the first request that fails. *)
Fixpoint serve_chunks (cs : list bytes) (received total : nat) (st : state)
  : list (exn + Chunk) * state :=
  match cs with
  | [] => ([], st)
  | c :: rest =>
      match next_fault st with
      | (Some e, st') => ([inl e], st')
      | (None, st') =>
          let received' := (received + length c)%nat in
          let percent :=
            if (total =? 0)%nat then 0%Z
            else Z.of_nat (received' * 100 / total) in
          let '(script, st'') := serve_chunks rest received' total st' in
          (inr (mkChunk c percent) :: script, st'')
      end
  end.

Definition sim_get_media (fileId : string) (st : state) : list (exn + Chunk) * state :=
  match find_file fileId (files st) with
  | Some f =>
      if is_editor_type (file_mimeType f)
      then
        match next_fault st with
        | (Some e, st') => ([inl e], st')
        | (None, st') =>
            ([inl (HttpError "Only files with binary content can be downloaded.")], st')
        end
      else
        let content := file_content f in
        serve_chunks (chunks_of (length content) (Nat.max 1 (chunksize st)) content)
          0 (length content) st
  | None =>
      match next_fault st with
      | (Some e, st') => ([inl e], st')
      | (None, st') => ([inl (HttpError ("File not found: " +:+ fileId))], st')
      end
  end.

Definition folder_exists (fs : list File) (id : string) : bool :=
  match find_file id fs with
  | Some f => is_folder f
  | None => false
  end.

Definition new_id (fs : list File) : string := "id" +:+ pretty (length fs).

Definition sim_create (body : Body) (media : option Media) (fields : string) (st : state)
  : (exn + item) * state :=
  match next_fault st with
  | (Some e, st') => (inl e, st')
  | (None, st') =>
      let parents := default [] (body_parents body) in
      if forallb (folder_exists (files st')) parents
      then
        let f :=
          mkFile (new_id (files st')) (body_name body)
            (match body_mimeType body, media with
             | Some t, _ => t
             | None, Some m => media_mimetype m
             | None, None => "application/octet-stream"
             end)
            (match media with
             | Some m => Some (pretty (length (media_content m)))
             | None => None
             end)
            (now st') parents false
            (match media with
             | Some m => media_content m
             | None => []
             end) in
        (inr (view fields f), set_files (f :: files st') st')
      else (inl (HttpError "File not found: parent"), st')
  end.

#[export] Instance service : Service state := {|
  files_list := sim_list;
  files_get := sim_get;
  files_export_media := sim_export_media;
  files_get_media := sim_get_media;
  files_create := sim_create
|}.

(** A world over the store: nothing printed, no request sent yet;
    beside the working directory there are [/tmp/] and [out/]. *)
Definition world (st : state) (d : gmap string bytes) : World state :=
  mkWorld st d ["/tmp/"; "out/"] [] [].

End Sim.

(** ** Sample stores *)

Module Sample.
Import Sim.

Definition dossier : File :=
  mkFile "F1" "Rapports" "application/vnd.google-apps.folder" None
    "2024-01-01T00:00:00.000Z" [] false [].

Definition dossier_bis : File :=
  mkFile "F2" "Rapports" "application/vnd.google-apps.folder" None
    "2024-01-02T00:00:00.000Z" [] false [].

Definition corbeille : File :=
  mkFile "F3" "Archives" "application/vnd.google-apps.folder" None
    "2023-01-01T00:00:00.000Z" [] true [].

Definition document : File :=
  mkFile "d1" "R.DOCX" "application/vnd.google-apps.document" None
    "2024-02-01T00:00:00.000Z" ["F1"] false [x50; x4b].

Definition binaire : File :=
  mkFile "b1" "photo.png" "image/png" (Some "5")
    "2024-02-02T00:00:00.000Z" ["F1"] false [x89; x50; x4e; x47; x0a].

Definition efface : File :=
  mkFile "b2" "vieux.txt" "text/plain" (Some "0")
    "2022-02-02T00:00:00.000Z" ["F1"] true [].

Definition store : state :=
  mkState [document; binaire; efface; dossier; dossier_bis; corbeille] [] 2 
    "2024-03-01T00:00:00.000Z".

(** The same store with the coming requests planned. *)
Definition store_with (plan : list (option exn)) : state := set_faults plan store.

Definition monde : World state := world store ∅.

(** A disk with one local file. *)
Definition disque : gmap string bytes := {[ "out/notes.txt" := [x68; x69] ]}.

(** [mimetypes.guess_type] knowing two extensions. *)
Definition guess (path : string) : option string :=
  if endswith path ".txt" then Some "text/plain"
  else if endswith path ".png" then Some "image/png"
  else None.

(** A serialization of natural numbers: [n] is [n] zero bytes. *)
#[export] Instance pickle_nat : Pickle nat := {|
  dumps n := replicate n x00;
  loads b := Some (length b);
  loads_dumps n := f_equal Some (length_replicate n x00)
|}.

Definition tmp_dir : string := "/tmp/".

End Sample.

(** ** Vocabulary of the properties *)

Section Vocabulary.

Context {R : Type} `{Service R}.

(** A folder name cannot be resolved: the lookup answers [None]. *)
Definition unresolved (nom_dossier : string) (w : World R) : Prop :=
  (trouver_dossier_par_nom nom_dossier w).1 = Ok None.

(** The requests sent between two worlds. *)
Definition new_calls (w w' : World R) : list event :=
  drop (length (calls w)) (calls w').

End Vocabulary.

(** The request [c] failed with [e]. *)
Definition failure_of (c : call) (e : exn) : event := mkEvent c (Some e).

(** Some request of the trace failed. *)
Definition some_failure (evs : list event) : Prop :=
  exists c e, failure_of c e ∈ evs.

(** The line an [except] clause prints for [e]. *)
Definition error_line (l : string) (e : exn) : Prop :=
  exists what, l = "❌ Erreur lors " +:+ what +:+ ": " +:+ str_exn e.

(** The editable document kinds, each with its default export type and
    the extension of that type (lines 147-152 and 155-163). *)
Definition default_exports : list (string * (string * string)) :=
  [("application/vnd.google-apps.document",
    ("application/vnd.openxmlformats-officedocument.wordprocessingml.document", ".docx"));
   ("application/vnd.google-apps.spreadsheet",
    ("application/vnd.openxmlformats-officedocument.spreadsheetml.sheet", ".xlsx"));
   ("application/vnd.google-apps.presentation",
    ("application/vnd.openxmlformats-officedocument.presentationml.presentation", ".pptx"));
   ("application/vnd.google-apps.drawing", ("image/png", ".png"))].

(** The editable document kinds, each with its table of export formats
    (lines 283-310), written out apart from [formats_disponibles]. *)
Definition export_tables : list (string * list (string * string)) :=
  [("application/vnd.google-apps.document",
    [("application/vnd.openxmlformats-officedocument.wordprocessingml.document",
      ".docx (Word)");
     ("application/pdf", ".pdf");
     ("text/plain", ".txt");
     ("application/rtf", ".rtf");
     ("application/vnd.oasis.opendocument.text", ".odt")]);
   ("application/vnd.google-apps.spreadsheet",
    [("application/vnd.openxmlformats-officedocument.spreadsheetml.sheet",
      ".xlsx (Excel)");
     ("application/pdf", ".pdf");
     ("text/csv", ".csv");
     ("application/vnd.oasis.opendocument.spreadsheet", ".ods")]);
   ("application/vnd.google-apps.presentation",
    [("application/vnd.openxmlformats-officedocument.presentationml.presentation",
      ".pptx (PowerPoint)");
     ("application/pdf", ".pdf");
     ("image/jpeg", ".jpg");
     ("image/png", ".png");
     ("application/vnd.oasis.opendocument.presentation", ".odp")]);
   ("application/vnd.google-apps.drawing",
    [("image/png", ".png");
     ("image/jpeg", ".jpg");
     ("image/svg+xml", ".svg");
     ("application/pdf", ".pdf")])].

Definition editable_types : list string :=
  ["application/vnd.google-apps.document";
   "application/vnd.google-apps.spreadsheet";
   "application/vnd.google-apps.presentation";
   "application/vnd.google-apps.drawing"].

(** A path that [open(path, 'wb')] makes a file of: it holds no null
    character and fewer than 4096 bytes, its base name is a name (not
    empty, [.] or [..]) of at most 255 bytes, its directory exists, and
    it names no directory of the world. *)
Definition no_nul (s : string) : bool :=
  forallb (fun c => negb (Ascii.eqb c Ascii.zero)) (list_ascii_of_string s).

Definition can_open {R : Type} (w : World R) (path : string) : bool :=
  no_nul path
  && (String.length path <? 4096)%nat
  && negb (String.eqb (basename path) "")
  && negb (String.eqb (basename path) ".")
  && negb (String.eqb (basename path) "..")
  && (String.length (basename path) <=? 255)%nat
  && dir_exists w (dir_part path)
  && negb (dir_exists w (path +:+ "/")).

(** A string that can stand between single quotes as it is: no quote,
    no backslash. *)
Fixpoint plain (s : string) : bool :=
  match s with
  | EmptyString => true
  | String c s' =>
      negb (Ascii.eqb c Sim.quote) && negb (Ascii.eqb c Sim.backslash) && plain s'
  end.

(** A folder identifier: not empty, and plain. *)
Definition valid_id (f : string) : Prop := f <> "" /\ plain f = true.

(** ** Failure containment *)

Section Containment.

Context {R : Type}.

(** What a block added to the trace and to the output. *)
Definition extends (w w' : World R) (evs : list event) (lines : list string) : Prop :=
  calls w' = calls w ++ evs /\ stdout w' = stdout w ++ lines.

(** A block that raises the exception of any request that failed in
    it. *)
Definition propagates {A} (m : M R A) : Prop :=
  forall w, exists evs lines,
    extends w (m w).2 evs lines
    /\ forall c e, failure_of c e ∈ evs -> (m w).1 = Raise e.

(** A block in which a failed request is either raised, or already
    logged and turned into the value [failure]. *)
Definition safe {A} (failure : A) (m : M R A) : Prop :=
  forall w, exists evs lines,
    extends w (m w).2 evs lines
    /\ forall c e, failure_of c e ∈ evs ->
         (m w).1 = Raise e
         \/ ((m w).1 = Ok failure /\ exists l, l ∈ lines /\ error_line l e).

(** A method that contains failures: it always returns, and when one
    of its requests failed it returns [failure] after printing an
    error line for the exception. *)
Definition contains_failures {A} (failure : A) (m : M R A) : Prop :=
  forall w, exists a evs lines,
    (m w).1 = Ok a
    /\ extends w (m w).2 evs lines
    /\ forall c e, failure_of c e ∈ evs ->
         a = failure /\ exists l, l ∈ lines /\ error_line l e.

(** A block that leaves the local disk as it is. *)
Definition keeps_disk {A} (m : M R A) : Prop :=
  forall w, disk (m w).2 = disk w.

(** A block that returns [True] or raises with the disk untouched. *)
Definition all_or_nothing (m : M R bool) : Prop :=
  forall w,
    match (m w).1 with
    | Ok b => b = true
    | Raise _ => disk (m w).2 = disk w
    end.

End Containment.

(** No fault is planned for the coming requests of the store. *)
Definition calm (st : Sim.state) : Prop :=
  Forall (fun o => o = None) (Sim.faults st).

(** ** Authorization: [__init__] and [authenticate] (lines 17-46) *)

(** What the code reads of a credentials object: its two tokens and
    the properties [valid] and [expired]. *)
Record Credentials : Type := mkCredentials {
  cred_token : string;
  cred_refresh_token : option string;
  cred_valid : bool;
  cred_expired : bool
}.

(** The authorization library, over the remote state:
    [creds.refresh(Request())], which leaves new credentials in the
    object; [InstalledAppFlow.from_client_secrets_file(...)
    .run_local_server(port=0)] on the content of the secrets file and
    the scopes; [build(name, version, credentials=creds)], which answers
    with an exception or with the service. *)
Class Authorizer (R : Type) : Type := mkAuthorizer {
  creds_refresh : Credentials -> R -> (exn + Credentials) * R;
  run_local_server : bytes -> list string -> R -> (exn + Credentials) * R;
  build : string -> string -> Credentials -> R -> option exn * R
}.

(** The fields of the manager.  The service is told by the credentials
    it was built with; [None] is the [self.service = None] of line 20. *)
Record Manager : Type := mkManager {
  SCOPES : list string;
  service : option Credentials
}.

Section Authentication.

Context {R : Type} `{Authorizer R} `{Pickle Credentials}.

(** [pickle.load(token)] *)
Definition pickle_load (blob : bytes) : M R Credentials :=
  match loads blob with
  | Some creds => ret creds
  | None => raise (UnpicklingError "invalid load key")
  end.

(** [creds.refresh(Request())] *)
Definition refresh (creds : Credentials) : M R Credentials :=
  fun w =>
    match creds_refresh creds (remote w) with
    | (inr creds', s) => (Ok creds', set_remote s w)
    | (inl e, s) => (Raise e, set_remote s w)
    end.

(** Lines 37-39: the secrets file is read, then the local server runs. *)
Definition interactive_flow (scopes : list string) : M R Credentials :=
  secrets <- read_file "credentials.json";;
  fun w =>
    match run_local_server secrets scopes (remote w) with
    | (inr creds, s) => (Ok creds, set_remote s w)
    | (inl e, s) => (Raise e, set_remote s w)
    end.

(** [build('drive', 'v3', credentials=creds)] *)
Definition build_service (creds : Credentials) : M R unit :=
  fun w =>
    match build "drive" "v3" creds (remote w) with
    | (None, s) => (Ok tt, set_remote s w)
    | (Some e, s) => (Raise e, set_remote s w)
    end.

Definition authenticate (self : Manager) : M R Manager :=
  (* lines 34-43, for credentials that are missing or not valid *)
  let login (creds : option Credentials) : M R Credentials :=
    creds <-
      (match creds with
       | Some c =>
           if cred_expired c && truthy (cred_refresh_token c)
           then refresh c
           else interactive_flow (SCOPES self)
       | None => interactive_flow (SCOPES self)
       end);;
    write_file "token.pickle" (dumps creds);;
    ret creds in
  present <- path_exists "token.pickle";;
  creds <-
    (if present
     then blob <- read_file "token.pickle";; creds <- pickle_load blob;; ret (Some creds)
     else ret None);;
  creds <-
    (match creds with
     | None => login creds
     | Some c => if negb (cred_valid c) then login creds else ret c
     end);;
  build_service creds;;
  print "✅ Authentification réussie avec Google Drive";;
  ret (mkManager (SCOPES self) (Some creds)).

(** [GoogleDriveManager()]: [__init__] (lines 17-21) *)
Definition GoogleDriveManager : M R Manager :=
  authenticate (mkManager ["https://www.googleapis.com/auth/drive"] None).

End Authentication.

(** ** [main] (lines 358-398) *)

(** The line feed of ["\n"] *)
Definition nl : string := String (ascii_of_nat 10) EmptyString.

Section Main.

Context {R : Type} `{Service R} `{Authorizer R} `{Pickle Credentials}.

Definition main : M R unit :=
  drive_manager <- GoogleDriveManager;;
  print (nl +:+ str_repeat "=" 50);;
  print "🚀 GESTIONNAIRE GOOGLE DRIVE";;
  print (str_repeat "=" 50);;
  print (nl +:+ "1️⃣ Liste de tous les fichiers:");;
  fichiers <- lister_fichiers None None;;
  print (nl +:+ "2️⃣ Liste des fichiers dans un dossier (exemple: 'Mon Dossier'):");;
  print (nl +:+ "3️⃣ Téléchargement d'un fichier:");;
  print (nl +:+ "4️⃣ Upload d'un fichier:");;
  print (nl +:+ "5️⃣ Upload dans un dossier spécifique:");;
  print (nl +:+ "✨ Terminé!").

End Main.

(** ** Vocabulary of further properties *)

(** An item that the loop of lines 88-98 can print: its size, if any,
    is ['N/A'] or an integer literal, and it has a name, an identifier
    and a type. *)
Definition printable (it : item) : bool :=
  match it !! "size" with
  | None => true
  | Some size => String.eqb size "N/A" || bool_decide (is_Some (Py.int size))
  end
  && bool_decide (is_Some (it !! "name"))
  && bool_decide (is_Some (it !! "id"))
  && bool_decide (is_Some (it !! "mimeType")).

(** A string of ASCII characters. *)
Definition is_ascii (s : string) : bool :=
  forallb (fun c => (nat_of_ascii c <? 128)%nat) (list_ascii_of_string s).

(** An item that the loop of lines 88-98 stops on: it lacks a name, an
    identifier or a type, or its size is an ASCII string that is
    neither ['N/A'] nor an integer literal. *)
Definition unprintable (it : item) : bool :=
  negb (bool_decide (is_Some (it !! "name")))
  || negb (bool_decide (is_Some (it !! "id")))
  || negb (bool_decide (is_Some (it !! "mimeType")))
  || match it !! "size" with
     | None => false
     | Some size =>
         negb (String.eqb size "N/A") && is_ascii size
         && negb (bool_decide (is_Some (Py.int size)))
     end.

(** The exceptions of the printing loop: a missing key, a size that is
    no integer. *)
Definition is_item_error (e : exn) : bool :=
  match e with
  | KeyError _ | ValueError _ => true
  | _ => false
  end.

(** A request that reads the store: anything but [files().create]. *)
Definition is_read (c : call) : bool :=
  match c with
  | FilesCreate _ _ _ => false
  | _ => true
  end.

(** A block whose requests all satisfy [P]. *)
Definition sends_only {R A : Type} (P : call -> bool) (m : M R A) : Prop :=
  forall w, exists evs,
    calls (m w).2 = calls w ++ evs
    /\ Forall (fun ev => P (ev_call ev) = true) evs.

(** A block that sends exactly the request [c], whatever its outcome. *)
Definition sends_once {R A : Type} (c : call) (m : M R A) : Prop :=
  forall w, exists outcome, calls (m w).2 = calls w ++ [mkEvent c outcome].

(** A download block: it returns [True] after writing one file, or it
    raises with the local disk untouched. *)
Definition writes_or_fails {R : Type} (m : M R bool) : Prop :=
  forall w,
    match (m w).1 with
    | Ok b => b = true /\ exists path content,
                path <> "" /\ disk (m w).2 = <[path := content]> (disk w)
    | Raise _ => disk (m w).2 = disk w
    end.

(** The sizes recorded in the store are integer literals. *)
Definition sizes_readable (st : Sim.state) : Prop :=
  forall rec size,
    rec ∈ Sim.files st -> Sim.file_size rec = Some size -> is_Some (Py.int size).


(** A step that only talks to the authorization server. *)
Definition quiet {R : Type} (m : M R Credentials) : Prop :=
  forall w, disk (m w).2 = disk w /\ calls (m w).2 = calls w /\ stdout (m w).2 = stdout w.

(** ** Further samples *)

Module SampleMore.

(** A serialization of credentials: the two flags, then the token and,
    behind a presence byte, the refresh token; a string is written with
    [x01] before each of its bytes and [x00] at its end. *)
Fixpoint put_bytes (s k : bytes) : bytes :=
  match s with
  | [] => x00 :: k
  | b :: s => x01 :: b :: put_bytes s k
  end.

Fixpoint get_bytes (bs : bytes) : option (bytes * bytes) :=
  match bs with
  | [] => None
  | t :: rest =>
      if Byte.eqb t x00 then Some ([], rest)
      else match rest with
           | [] => None
           | b :: k =>
               match get_bytes k with
               | Some (s, r) => Some (b :: s, r)
               | None => None
               end
           end
  end.

Definition put_bool (b : bool) : byte := if b then x01 else x00.

Definition get_bool (b : byte) : bool := negb (Byte.eqb b x00).

Definition creds_dumps (c : Credentials) : bytes :=
  put_bool (cred_valid c) :: put_bool (cred_expired c)
  :: put_bytes (list_byte_of_string (cred_token c))
       match cred_refresh_token c with
       | Some r => x01 :: put_bytes (list_byte_of_string r) []
       | None => [x00]
       end.

Definition creds_loads (bs : bytes) : option Credentials :=
  match bs with
  | v :: e :: rest =>
      match get_bytes rest with
      | Some (tok, flag :: rest') =>
          if Byte.eqb flag x00
          then Some (mkCredentials (string_of_list_byte tok) None (get_bool v) (get_bool e))
          else match get_bytes rest' with
               | Some (r, _) =>
                   Some (mkCredentials (string_of_list_byte tok)
                           (Some (string_of_list_byte r)) (get_bool v) (get_bool e))
               | None => None
               end
      | _ => None
      end
  | _ => None
  end.

#[export] Instance pickle_creds : Pickle Credentials.
Proof.
  refine (mkPickle _ creds_dumps creds_loads _).
  assert (Hget : forall s k, get_bytes (put_bytes s k) = Some (s, k)).
  { induction s as [|b s IH]; intros k; [reflexivity |].
    cbn [put_bytes get_bytes]. change (Byte.eqb x01 x00) with false. cbn iota.
    rewrite IH. reflexivity. }
  intros [tok r v e]. unfold creds_dumps, creds_loads.
  cbn [cred_token cred_refresh_token cred_valid cred_expired].
  rewrite Hget. destruct r as [r|].
  - change (Byte.eqb x01 x00) with false. cbn iota. rewrite Hget.
    rewrite !string_of_list_byte_of_string. destruct v, e; reflexivity.
  - change (Byte.eqb x00 x00) with true. cbn iota.
    rewrite !string_of_list_byte_of_string. destruct v, e; reflexivity.
Defined.

(** An authorization server over the reference store: it accepts any
    secrets but empty ones, refreshes any credentials, and builds the
    service for any credentials. *)
#[export] Instance authorizer : Authorizer Sim.state := {|
  creds_refresh c st :=
    (inr (mkCredentials (cred_token c +:+ "+") (cred_refresh_token c) true false), st);
  run_local_server secrets scopes st :=
    match secrets with
    | [] => (inl (ValueError "Client secrets must be for a web or installed app."), st)
    | _ :: _ => (inr (mkCredentials "ya29.a0" (Some "1//04") true false), st)
    end;
  build name version creds st := (None, st)
|}.

(** Credentials that have expired and can be refreshed. *)
Definition perimes : Credentials := mkCredentials "ya29.old" (Some "1//04") false true.

(** Credentials that are valid. *)
Definition valides : Credentials := mkCredentials "ya29.a0" (Some "1//04") true false.

(** Local disks: with the secrets of the application only, with a token
    that has expired, with a token that is valid, with a token file
    that is no serialization. *)
Definition disque_secrets : gmap string bytes :=
  {["credentials.json" := [x7b; x7d]]}.

Definition disque_perime : gmap string bytes :=
  {["token.pickle" := creds_dumps perimes]}.

Definition disque_valide : gmap string bytes :=
  {["token.pickle" := creds_dumps valides]}.

Definition disque_corrompu : gmap string bytes :=
  {["token.pickle" := []]}.

Definition self : Manager := mkManager ["https://www.googleapis.com/auth/drive"] None.

(** A store with one record whose size is no integer literal. *)
Definition illisible : Sim.File :=
  Sim.mkFile "x1" "brouillon.txt" "text/plain" (Some "12 Ko")
    "2024-02-03T00:00:00.000Z" [] false [].

Definition store_illisible : Sim.state :=
  Sim.mkState [illisible] [] 0 "2024-03-01T00:00:00.000Z".

(** The sample store beside a disk with one local file. *)
Definition monde_local : World Sim.state := Sim.world Sample.store Sample.disque.

End SampleMore.
(** * Properties *)

(** ** Strings *)

Section StringFacts.

Lemma endswith_refl s : endswith s s = true.
Proof. destruct s; cbn [endswith]; rewrite String.eqb_refl; reflexivity. Qed.

Lemma endswith_app x suf : endswith (x +:+ suf) suf = true.
Proof.
  induction x as [|c x IH]; simpl.
  - apply endswith_refl.
  - rewrite IH. apply orb_true_r.
Qed.

Lemma lower_app a b : lower (a +:+ b) = lower a +:+ lower b.
Proof. induction a as [|c a IH]; simpl; [reflexivity | now rewrite IH]. Qed.

Lemma endswith_nonempty s suf : endswith s suf = true -> suf <> "" -> s <> "".
Proof. intros He Hs ->. simpl in He. destruct suf; [contradiction | discriminate]. Qed.

Lemma lower_empty s : lower s = "" -> s = "".
Proof. destruct s; [reflexivity | discriminate]. Qed.

Lemma truthy_Some s : s <> "" -> truthy (Some s) = true.
Proof.
  intros Hs. unfold truthy. destruct (String.eqb_spec s ""); [contradiction | reflexivity].
Qed.

End StringFacts.

(** ** Facts on local paths *)

Section PathFacts.

Context {R : Type}.

Lemma startswith_refl (s : string) : startswith s s = true.
Proof. induction s as [|c s IH]; [reflexivity |]. cbn. rewrite Ascii.eqb_refl. exact IH. Qed.

Lemma startswith_trans (a b c : string) :
  startswith b a = true -> startswith c b = true -> startswith c a = true.
Proof.
  revert b c. induction a as [|x a IH]; intros b c Hab Hbc; [reflexivity |].
  destruct b as [|y b]; [discriminate |]. destruct c as [|z c]; [discriminate |].
  cbn in *. apply andb_true_iff in Hab as [Hxy Hab]. apply andb_true_iff in Hbc as [Hyz Hbc].
  apply Ascii.eqb_eq in Hxy as ->. rewrite Hyz. exact (IH _ _ Hab Hbc).
Qed.

(** A base name added to a path leaves its directory. *)
Lemma dir_part_base (t s : string) : dir_part s = "" -> dir_part (t +:+ s) = dir_part t.
Proof.
  intros Hs. induction t as [|c t IH]; [exact Hs |].
  change (String c t +:+ s) with (String c (t +:+ s)). cbn [dir_part]. rewrite IH. reflexivity.
Qed.

(** Whatever is added to a path, its directory stays above. *)
Lemma dir_part_above (t s : string) :
  startswith (dir_part (t +:+ s)) (dir_part t) = true.
Proof.
  induction t as [|c t IH]; [reflexivity |].
  change (String c t +:+ s) with (String c (t +:+ s)). cbn [dir_part].
  destruct (dir_part t) as [|a d].
  - destruct (dir_part (t +:+ s)); destruct (Ascii.eqb c "/") eqn:Hc; cbn;
      rewrite ?Ascii.eqb_refl; reflexivity.
  - destruct (dir_part (t +:+ s)) as [|a' d']; [discriminate |].
    cbn. rewrite Ascii.eqb_refl. exact IH.
Qed.

(** The directories above one that exists exist. *)
Lemma dir_exists_above (w : World R) (a b : string) :
  startswith b a = true -> dir_exists w b = true -> dir_exists w a = true.
Proof.
  unfold dir_exists. intros Hab Hb.
  apply orb_true_iff in Hb as [Hb | Hb].
  - apply String.eqb_eq in Hb as ->. destruct a; [reflexivity | discriminate].
  - apply orb_true_iff. right.
    apply existsb_exists in Hb as (d & Hin & Hd).
    apply existsb_exists. exists d. split; [exact Hin |].
    exact (startswith_trans _ _ _ Hab Hd).
Qed.

(** The decimal writing of a number holds no slash. *)
Lemma pretty_N_char_slash (d : N) :
  (d < 10)%N -> Ascii.eqb (pretty_N_char d) "/" = false.
Proof.
  intros Hd.
  assert (Hcases : d = 0%N \/ d = 1%N \/ d = 2%N \/ d = 3%N \/ d = 4%N \/ d = 5%N
                   \/ d = 6%N \/ d = 7%N \/ d = 8%N \/ d = 9%N) by lia.
  repeat (destruct Hcases as [-> | Hcases]; [reflexivity |]). subst d. reflexivity.
Qed.

Lemma dir_part_pretty_N_go (x : N) (s : string) :
  dir_part s = "" -> dir_part (pretty_N_go x s) = "".
Proof.
  revert s. induction (N.lt_wf_0 x) as [x _ IH]. intros s Hs.
  destruct (N.eq_dec x 0%N) as [-> | Hx].
  - rewrite pretty_N_go_0. exact Hs.
  - rewrite pretty_N_go_step by lia.
    apply IH; [apply N.div_lt; lia |].
    cbn [dir_part]. rewrite Hs, pretty_N_char_slash by (apply N.mod_lt; lia).
    reflexivity.
Qed.

Lemma dir_part_pretty (n : nat) : dir_part (pretty n) = "".
Proof.
  unfold pretty, pretty_nat, pretty, pretty_N.
  destruct (decide (N.of_nat n = 0%N)); [reflexivity |].
  apply dir_part_pretty_N_go. reflexivity.
Qed.

(** A path that can be opened is written, in any world with the same
    directories. *)
Lemma can_open_write (w w0 : World R) (path : string) (content : bytes) :
  dirs w0 = dirs w ->
  can_open w path = true ->
  write_file path content w0 = (Ok tt, set_disk (<[path := content]> (disk w0)) w0).
Proof.
  unfold can_open, write_file, dir_exists. intros -> Hopen.
  repeat (apply andb_true_iff in Hopen as [Hopen ?]).
  destruct (String.eqb_spec path "") as [-> | _]; [discriminate |].
  cbn [orb]. match goal with Hd : _ || _ = true |- _ => rewrite Hd end. reflexivity.
Qed.

Lemma can_open_nonempty (w : World R) (path : string) :
  can_open w path = true -> path <> "".
Proof.
  unfold can_open. intros Hopen ->. discriminate.
Qed.

Lemma can_open_dir (w : World R) (path : string) :
  can_open w path = true -> dir_exists w (dir_part path) = true.
Proof.
  unfold can_open. intros Hopen.
  repeat (apply andb_true_iff in Hopen as [Hopen ?]). assumption.
Qed.

End PathFacts.

(** ** The client, over any service *)

Section ClientFacts.

Context {R : Type} `{Service R}.
Variable guess_type : string -> option string.


(** C6.  When the request of the lookup answers, the lookup returns
    [None] for an empty answer, without printing anything, and the
    identifier of the first record of the answer otherwise, whatever
    records follow it. *)
Theorem trouver_dossier_par_nom_first_match
    (nom_dossier : string) (w : World R) (results : ListResponse) (s : R) :
  files_list (requete_dossier nom_dossier) "files(id, name)" (remote w) = (inr results, s) ->
  let w' :=
    add_call (mkEvent (FilesList (requete_dossier nom_dossier) "files(id, name)") None)
      (set_remote s w) in
  match default [] (resp_files results) with
  | [] => trouver_dossier_par_nom nom_dossier w = (Ok None, w')
  | first :: _ =>
      forall id, first !! "id" = Some id ->
        trouver_dossier_par_nom nom_dossier w = (Ok (Some id), w')
  end.
Proof.
  intros Hlist w'.
  unfold trouver_dossier_par_nom, try_except, bind, execute_list.
  rewrite Hlist.
  destruct (default [] (resp_files results)) as [|first rest]; [reflexivity |].
  intros id Hid. unfold getitem. rewrite Hid. reflexivity.
Qed.

(** C5 (amended).  For a non-empty folder name that cannot be
    resolved, listing by name returns the empty list and prints
    "Dossier ... non trouvé"; nothing is raised. *)
Theorem lister_fichiers_unresolved_name (nom_dossier : string) (w : World R) :
  nom_dossier <> "" ->
  unresolved nom_dossier w ->
  lister_fichiers None (Some nom_dossier) w
  = (Ok [], add_stdout ("❌ Dossier '" +:+ nom_dossier +:+ "' non trouvé")
              (trouver_dossier_par_nom nom_dossier w).2).
Proof.
  intros Hne Hun. unfold unresolved in Hun.
  unfold lister_fichiers, try_except.
  rewrite (truthy_Some _ Hne). simpl.
  unfold bind at 1.
  destruct (trouver_dossier_par_nom nom_dossier w) as [r w1].
  simpl in Hun. subst r. reflexivity.
Qed.

(** [afficher_formats] only prints. *)
Lemma afficher_formats_ok (entries : list (string * string)) (w : World R) :
  exists w', afficher_formats entries w = (Ok tt, w').
Proof.
  revert w. induction entries as [|[format_mime description] rest IH]; intros w.
  - eexists. reflexivity.
  - simpl. unfold bind, print. apply IH.
Qed.

Lemma formats_disponibles_other (mime : string) :
  mime ∉ editable_types -> formats_disponibles !! mime = None.
Proof.
  unfold editable_types, export_tables. simpl. intros Hout.
  repeat (apply not_elem_of_cons in Hout as [? Hout]).
  unfold formats_disponibles.
  repeat (rewrite lookup_insert_ne by congruence).
  apply lookup_empty.
Qed.

Lemma formats_disponibles_table (mime : string) (formats : list (string * string)) :
  (mime, formats) ∈ export_tables -> formats_disponibles !! mime = Some formats.
Proof.
  unfold export_tables. intros Hin.
  repeat (apply elem_of_cons in Hin as [Hin|Hin]; [injection Hin as -> ->; reflexivity |]).
  apply elem_of_nil in Hin. contradiction.
Qed.

(** C9.  Given the metadata of the record: for a type that is none of
    the four editable kinds the result is the empty mapping, returned
    normally; for an editable kind it is the table of that kind. *)
Theorem obtenir_formats_export_by_kind
    (fichier_id : string) (w : World R) (file_metadata : item) (s : R) (mime_type : string) :
  files_get fichier_id (remote w) = (inr file_metadata, s) ->
  file_metadata !! "mimeType" = Some mime_type ->
  (mime_type ∉ editable_types ->
     (obtenir_formats_export fichier_id w).1 = Ok ∅)
  /\ (forall formats, (mime_type, formats) ∈ export_tables ->
        is_Some (file_metadata !! "name") ->
        (obtenir_formats_export fichier_id w).1 = Ok (list_to_map formats)).
Proof.
  intros Hget Hmime. split.
  - intros Hout.
    unfold obtenir_formats_export, try_except, bind, execute_get, getitem.
    rewrite Hget, Hmime. simpl.
    rewrite (formats_disponibles_other _ Hout). reflexivity.
  - intros formats Hin [name Hname].
    unfold obtenir_formats_export, try_except, bind, execute_get, getitem.
    rewrite Hget, Hmime. simpl.
    rewrite (formats_disponibles_table _ _ Hin), Hname. simpl.
    match goal with
    | |- context [afficher_formats formats ?w0] =>
        destruct (afficher_formats_ok formats w0) as [w1 ->]
    end.
    reflexivity.
Qed.

Lemma default_exports_tables (kind dflt ext : string) :
  (kind, (dflt, ext)) ∈ default_exports ->
  google_docs_types !! kind = Some dflt
  /\ extensions !! dflt = Some ext
  /\ lower ext = ext
  /\ ext <> "".
Proof.
  unfold default_exports. intros Hin.
  repeat (apply elem_of_cons in Hin as [Hin|Hin];
          [injection Hin as -> -> ->; repeat split; try reflexivity; discriminate |]).
  apply elem_of_nil in Hin. contradiction.
Qed.

Lemma new_calls_app (w w' : World R) (evs : list event) :
  calls w' = calls w ++ evs -> new_calls w w' = evs.
Proof. unfold new_calls. intros ->. apply drop_app_length. Qed.

(** C4 (amended).  An editable record downloaded without an export
    type is exported in the default type of its kind.  The local name
    is the name given (or else the record's name), unchanged when it
    already ends with the extension of that type up to letter case and
    followed by the extension otherwise; so it ends with the extension
    up to letter case.  When the export answers and a file can be
    opened under that name, the content is written under it. *)
Theorem telecharger_fichier_default_export
    (fichier_id : string) (nom_fichier_local format_export : option string)
    (w : World R) (file_metadata : item) (s : R) (kind name dflt ext : string) :
  files_get fichier_id (remote w) = (inr file_metadata, s) ->
  file_metadata !! "mimeType" = Some kind ->
  file_metadata !! "name" = Some name ->
  (kind, (dflt, ext)) ∈ default_exports ->
  truthy format_export = false ->
  let base := if truthy nom_fichier_local then the nom_fichier_local else name in
  let local :=
    if negb (endswith (lower base) (lower ext)) then base +:+ ext else base in
  let run := telecharger_fichier fichier_id nom_fichier_local format_export w in
  endswith (lower local) (lower ext) = true
  /\ (exists outcome,
        new_calls w run.2 =
          [mkEvent (FilesGet fichier_id) None;
           mkEvent (FilesExportMedia fichier_id dflt) outcome])
  /\ (forall content s',
        files_export_media fichier_id dflt s = (inr content, s') ->
        can_open w local = true ->
        run.1 = Ok true /\ disk run.2 = <[local := content]> (disk w)).
Proof.
  intros Hget Hkind Hname Hin Hfmt base local run.
  destruct (default_exports_tables _ _ _ Hin) as (Htype & Hext & Hlow & Hne).
  assert (Hends : endswith (lower local) (lower ext) = true).
  { subst local. destruct (endswith (lower base) (lower ext)) eqn:E; simpl; [exact E |].
    rewrite lower_app. apply endswith_app. }
  assert (Hbase : forall w0 : World R,
    (if negb (truthy nom_fichier_local)
     then getitem file_metadata "name"
     else ret (the nom_fichier_local)) w0 = (Ok base, w0)).
  { intros w0. subst base. destruct (truthy nom_fichier_local); simpl.
    - reflexivity.
    - unfold getitem. rewrite Hname. reflexivity. }
  assert (Hrun : exists outcome r w',
    run = (Ok r, w')
    /\ calls w' = calls w ++ [mkEvent (FilesGet fichier_id) None;
                              mkEvent (FilesExportMedia fichier_id dflt) outcome]
    /\ forall content s',
         files_export_media fichier_id dflt s = (inr content, s') ->
         can_open w local = true ->
         r = true /\ disk w' = <[local := content]> (disk w)).
  { subst run.
    unfold telecharger_fichier, try_except.
    unfold bind at 1. unfold execute_get at 1. rewrite Hget.
    unfold bind at 1. unfold getitem at 1. rewrite Hkind. unfold ret at 1.
    unfold bind at 1. rewrite Hbase.
    unfold bind at 1. unfold getitem at 1. rewrite Hname. unfold ret at 1.
    rewrite Htype, Hfmt, Hext.
    fold local.
    unfold bind at 1. unfold print at 1.
    unfold bind at 1. unfold print at 1.
    unfold bind at 1. unfold print at 1.
    unfold bind at 1. unfold execute_export_media.
    cbn [remote add_stdout add_call set_remote].
    destruct (files_export_media fichier_id dflt s) as [[e|content] s'] eqn:Hexp.
    - exists (Some e). do 2 eexists. split; [reflexivity |]. split.
      + cbn [calls add_call add_stdout set_remote]. rewrite <- app_assoc. reflexivity.
      + intros ? ? [=].
    - unfold bind at 1.
      match goal with
      | |- context [write_file local content ?w0] =>
          pose proof (can_open_write w w0 local content eq_refl) as Hwrite;
          destruct (write_file local content w0) as [[[]|e] w1] eqn:Hw
      end.
      + exists None. do 2 eexists. split; [reflexivity |]. split.
        * assert (Hc : calls w1 = calls w ++ [mkEvent (FilesGet fichier_id) None]
                                    ++ [mkEvent (FilesExportMedia fichier_id dflt) None]).
          { unfold write_file in Hw.
            match type of Hw with
            | (if ?c then _ else _) = _ => destruct c; [discriminate |]
            end.
            injection Hw as <-. cbn [calls add_call add_stdout set_remote set_disk].
            rewrite <- app_assoc. reflexivity. }
          unfold bind, print, ret. cbn [calls add_stdout]. exact Hc.
        * intros ? ? [= <- <-] Hopen. specialize (Hwrite Hopen).
          injection Hwrite as ->. split; reflexivity.
      + exists None. do 2 eexists. split; [reflexivity |]. split.
        * unfold write_file in Hw.
          match type of Hw with
          | (if ?c then _ else _) = _ => destruct c; [| discriminate]
          end.
          injection Hw as <- <-. unfold bind, print, ret.
          cbn [calls add_call add_stdout set_remote set_disk].
          rewrite <- app_assoc. reflexivity.
        * intros ? ? _ Hopen. specialize (Hwrite Hopen). discriminate. }
  destruct Hrun as (outcome & r & w' & -> & Hcalls & Hdisk).
  split; [exact Hends |]. split.
  - exists outcome. apply new_calls_app. exact Hcalls.
  - intros content s' Hexp Hopen. destruct (Hdisk _ _ Hexp Hopen) as [-> Hd].
    split; [reflexivity | exact Hd].
Qed.

End ClientFacts.

(** ** Failure containment *)

Section ContainmentFacts.

Context {R : Type} `{Service R}.

Lemma extends_nil (w : World R) : extends w w [] [].
Proof. split; symmetry; apply app_nil_r. Qed.

Lemma extends_trans (w w1 w2 : World R) evs1 lines1 evs2 lines2 :
  extends w w1 evs1 lines1 -> extends w1 w2 evs2 lines2 ->
  extends w w2 (evs1 ++ evs2) (lines1 ++ lines2).
Proof.
  intros [Hc1 Hs1] [Hc2 Hs2]. split.
  - rewrite Hc2, Hc1. symmetry. apply app_assoc.
  - rewrite Hs2, Hs1. symmetry. apply app_assoc.
Qed.

(** *** Blocks that raise what failed *)

Lemma propagates_ret {A} (a : A) : propagates (ret (R:=R) a).
Proof. intros w. exists [], []. split; [apply extends_nil | intros c e Hin; inversion Hin]. Qed.

Lemma propagates_raise {A} (e : exn) : propagates (raise (R:=R) (A:=A) e).
Proof. intros w. exists [], []. split; [apply extends_nil | intros c e' Hin; inversion Hin]. Qed.

Lemma propagates_print (l : string) : propagates (print (R:=R) l).
Proof.
  intros w. exists [], [l]. split.
  - split; simpl; [symmetry; apply app_nil_r | reflexivity].
  - intros c e Hin; inversion Hin.
Qed.

(** A block that sends nothing and prints nothing. *)
Lemma propagates_silent {A} (m : M R A) :
  (forall w, calls (m w).2 = calls w /\ stdout (m w).2 = stdout w) -> propagates m.
Proof.
  intros Hm w. destruct (Hm w) as [Hc Hs]. exists [], []. split.
  - split; rewrite ?Hc, ?Hs; symmetry; apply app_nil_r.
  - intros c e Hin; inversion Hin.
Qed.

Lemma propagates_getitem (d : item) (key : string) : propagates (getitem (R:=R) d key).
Proof. unfold getitem. destruct (d !! key); [apply propagates_ret | apply propagates_raise]. Qed.

Lemma propagates_int_of_str (s : string) : propagates (int_of_str (R:=R) s).
Proof. unfold int_of_str. destruct (Py.int s); [apply propagates_ret | apply propagates_raise]. Qed.

Lemma propagates_path_exists (p : string) : propagates (path_exists (R:=R) p).
Proof. apply propagates_silent. intros w. split; reflexivity. Qed.

Lemma propagates_write_file (p : string) (c : bytes) : propagates (write_file (R:=R) p c).
Proof.
  apply propagates_silent. intros w. unfold write_file.
  destruct (String.eqb p "" || negb (dir_exists w (dir_part p))); split; reflexivity.
Qed.

Lemma propagates_read_file (p : string) : propagates (read_file (R:=R) p).
Proof.
  apply propagates_silent. intros w. unfold read_file.
  destruct (disk w !! p); split; reflexivity.
Qed.

Lemma propagates_get_media (fileId : string) : propagates (get_media fileId).
Proof.
  apply propagates_silent. intros w. unfold get_media.
  destruct (files_get_media fileId (remote w)); split; reflexivity.
Qed.

Lemma propagates_bind {A B} (m : M R A) (k : A -> M R B) :
  propagates m -> (forall a, propagates (k a)) -> propagates (bind m k).
Proof.
  intros Hm Hk w. destruct (Hm w) as (evs1 & lines1 & Hext1 & Hfail1).
  unfold bind. destruct (m w) as [[a|e] w1]; simpl in *.
  - destruct (Hk a w1) as (evs2 & lines2 & Hext2 & Hfail2).
    exists (evs1 ++ evs2), (lines1 ++ lines2). split.
    + eapply extends_trans; eassumption.
    + intros c e Hin. apply elem_of_app in Hin as [Hin|Hin].
      * specialize (Hfail1 _ _ Hin). discriminate.
      * apply (Hfail2 _ _ Hin).
  - exists evs1, lines1. split; [assumption |].
    intros c e' Hin. specialize (Hfail1 _ _ Hin). injection Hfail1 as ->. reflexivity.
Qed.

(** One request: its event is the only one added. *)
Lemma propagates_request {A} (m : M R A) (c : call) :
  (forall w,
     (exists a, (m w).1 = Ok a /\ extends w (m w).2 [mkEvent c None] [])
     \/ (exists e, (m w).1 = Raise e /\ extends w (m w).2 [failure_of c e] [])) ->
  propagates m.
Proof.
  intros Hm w. destruct (Hm w) as [(a & Hr & Hext)|(e & Hr & Hext)].
  - exists [mkEvent c None], []. split; [assumption |].
    intros c' e' Hin. apply list_elem_of_singleton in Hin. discriminate.
  - exists [failure_of c e], []. split; [assumption |].
    intros c' e' Hin. apply list_elem_of_singleton in Hin.
    injection Hin as -> ->. assumption.
Qed.

Ltac request unfolding :=
  eapply propagates_request; intros w; unfolding;
  match goal with
  | |- context [match ?x with _ => _ end] => destruct x as [[?|?] ?]
  end;
  [right | left]; eexists; (split; [reflexivity |]);
  split; simpl; rewrite ?app_nil_r; reflexivity.

Lemma propagates_execute_list (q fields : string) : propagates (execute_list q fields).
Proof. request ltac:(unfold execute_list). Qed.

Lemma propagates_execute_get (fileId : string) : propagates (execute_get fileId).
Proof. request ltac:(unfold execute_get). Qed.

Lemma propagates_execute_export_media (fileId mimeType : string) :
  propagates (execute_export_media fileId mimeType).
Proof. request ltac:(unfold execute_export_media). Qed.

Lemma propagates_execute_create (body : Body) (media : option Media) (fields : string) :
  propagates (execute_create body media fields).
Proof. request ltac:(unfold execute_create). Qed.

Lemma propagates_next_chunk (fileId : string) (answer : exn + Chunk) :
  propagates (next_chunk (R:=R) fileId answer).
Proof.
  eapply propagates_request. intros w. unfold next_chunk.
  destruct answer; [right | left]; eexists; (split; [reflexivity |]);
    split; simpl; rewrite ?app_nil_r; reflexivity.
Qed.

Create HintDb contain.

#[local] Hint Resolve propagates_ret propagates_raise propagates_print
  propagates_getitem propagates_int_of_str propagates_path_exists
  propagates_write_file propagates_read_file propagates_get_media
  propagates_execute_list propagates_execute_get propagates_execute_export_media
  propagates_execute_create propagates_next_chunk : contain.

(** Peel a block: binds first, then the conditionals it branches on. *)
Ltac propagation :=
  repeat first
    [ apply propagates_bind; [| intros ?]
    | solve [auto with contain]
    | progress cbv beta zeta
    | match goal with
      | |- propagates (if ?b then _ else _) => destruct b
      | |- propagates (match ?x with _ => _ end) => destruct x
      end ].

Lemma propagates_afficher_item (it : item) : propagates (afficher_item (R:=R) it).
Proof. unfold afficher_item. propagation. Qed.

Lemma propagates_afficher_items (items : list item) :
  propagates (afficher_items (R:=R) items).
Proof.
  induction items as [|it rest IH]; simpl.
  - apply propagates_ret.
  - apply propagates_bind; [apply propagates_afficher_item | intros _; exact IH].
Qed.

Lemma propagates_afficher_formats (entries : list (string * string)) :
  propagates (afficher_formats (R:=R) entries).
Proof.
  induction entries as [|[format_mime description] rest IH]; simpl.
  - apply propagates_ret.
  - apply propagates_bind; [apply propagates_print | intros _; exact IH].
Qed.

Lemma propagates_download_chunks (fileId : string) (script : list (exn + Chunk)) (fh : bytes) :
  propagates (download_chunks (R:=R) fileId script fh).
Proof.
  revert fh. induction script as [|answer rest IH]; intros fh; simpl.
  - apply propagates_ret.
  - apply propagates_bind; [apply propagates_next_chunk | intros c].
    apply propagates_bind; [apply propagates_print | intros _; apply IH].
Qed.

Lemma propagates_MediaFileUpload (guess_type : string -> option string) (path : string) :
  propagates (MediaFileUpload (R:=R) guess_type path).
Proof. unfold MediaFileUpload. propagation. Qed.

#[local] Hint Resolve propagates_afficher_items propagates_afficher_formats
  propagates_download_chunks propagates_MediaFileUpload : contain.

(** *** Blocks that raise or have logged what failed *)

Lemma propagates_safe {A} (failure : A) (m : M R A) : propagates m -> safe failure m.
Proof.
  intros Hm w. destruct (Hm w) as (evs & lines & Hext & Hfail).
  exists evs, lines. split; [assumption |].
  intros c e Hin. left. apply (Hfail _ _ Hin).
Qed.

Lemma safe_bind {A B} (failure : B) (m : M R A) (k : A -> M R B) :
  propagates m -> (forall a, safe failure (k a)) -> safe failure (bind m k).
Proof.
  intros Hm Hk w. destruct (Hm w) as (evs1 & lines1 & Hext1 & Hfail1).
  unfold bind. destruct (m w) as [[a|e] w1]; simpl in *.
  - destruct (Hk a w1) as (evs2 & lines2 & Hext2 & Hfail2).
    exists (evs1 ++ evs2), (lines1 ++ lines2). split.
    + eapply extends_trans; eassumption.
    + intros c e Hin. apply elem_of_app in Hin as [Hin|Hin].
      * specialize (Hfail1 _ _ Hin). discriminate.
      * destruct (Hfail2 _ _ Hin) as [Hr|(Hr & l & Hl & Herr)]; [left; assumption |].
        right. split; [assumption |]. exists l. split; [| assumption].
        apply elem_of_app. right. assumption.
  - exists evs1, lines1. split; [assumption |].
    intros c e' Hin. left. specialize (Hfail1 _ _ Hin). injection Hfail1 as ->. reflexivity.
Qed.

(** After a method that contains its failures, when the block that
    follows turns the failure value of the method into its own without
    sending anything. *)
Lemma safe_bind_contained {A B} (fa : A) (failure : B) (m : M R A) (k : A -> M R B) :
  contains_failures fa m ->
  (forall a, safe failure (k a)) ->
  (forall w, (k fa w).1 = Ok failure) ->
  safe failure (bind m k).
Proof.
  intros Hm Hk Hfa w.
  destruct (Hm w) as (a & evs1 & lines1 & Hr & Hext1 & Hfail1).
  unfold bind. destruct (m w) as [r w1]; simpl in *. subst r.
  destruct (Hk a w1) as (evs2 & lines2 & Hext2 & Hfail2).
  exists (evs1 ++ evs2), (lines1 ++ lines2). split.
  - eapply extends_trans; eassumption.
  - intros c e Hin. apply elem_of_app in Hin as [Hin|Hin].
    + destruct (Hfail1 _ _ Hin) as (-> & l & Hl & Herr).
      right. split; [apply Hfa |]. exists l. split; [| assumption].
      apply elem_of_app. left. assumption.
    + destruct (Hfail2 _ _ Hin) as [Hr|(Hr & l & Hl & Herr)]; [left; assumption |].
      right. split; [assumption |]. exists l. split; [| assumption].
      apply elem_of_app. right. assumption.
Qed.

(** [try: body except Exception as e: print(f"... {str(e)}"); return failure] *)
Lemma contains_try_except {A} (failure : A) (body : M R A) (what : string) :
  safe failure body ->
  contains_failures failure
    (try_except body
       (fun e => print ("❌ Erreur lors " +:+ what +:+ ": " +:+ str_exn e);; ret failure)).
Proof.
  intros Hbody w. destruct (Hbody w) as (evs & lines & Hext & Hfail).
  unfold try_except. destruct (body w) as [[a|e] w1]; simpl in *.
  - exists a, evs, lines. split; [reflexivity |]. split; [assumption |].
    intros c e Hin. destruct (Hfail _ _ Hin) as [Hr|(Hr & l & Hl & Herr)]; [discriminate |].
    injection Hr as ->. split; [reflexivity |]. exists l. split; assumption.
  - exists failure, evs, (lines ++ ["❌ Erreur lors " +:+ what +:+ ": " +:+ str_exn e]).
    split; [reflexivity |]. split.
    + destruct Hext as [Hc Hs]. split; simpl; [assumption |].
      rewrite Hs. symmetry. apply app_assoc.
    + intros c e' Hin. split; [reflexivity |].
      destruct (Hfail _ _ Hin) as [Hr|(Hr & _)]; [| discriminate].
      injection Hr as <-.
      eexists. split; [apply elem_of_app; right; apply list_elem_of_singleton; reflexivity |].
      exists what. reflexivity.
Qed.

(** *** The six methods *)

Lemma trouver_dossier_par_nom_contains (nom_dossier : string) :
  contains_failures None (trouver_dossier_par_nom nom_dossier).
Proof.
  apply (contains_try_except None _ "de la recherche du dossier").
  apply propagates_safe. propagation.
Qed.

Lemma suite_lister_propagates (dossier_id : option string) :
  propagates
    (results <- execute_list
       (if truthy dossier_id then requete_parents (the dossier_id) else "trashed=false")
       champs_liste;;
     match default [] (resp_files results) with
     | [] => print "📁 Aucun fichier trouvé.";; ret []
     | _ :: _ =>
         print ("📋 " +:+ pretty (length (default [] (resp_files results)))
                +:+ " fichiers trouvés:");;
         print (str_repeat "-" 80);;
         afficher_items (default [] (resp_files results));;
         ret (default [] (resp_files results))
     end).
Proof. propagation. Qed.

Lemma lister_fichiers_contains (dossier_id nom_dossier : option string) :
  contains_failures [] (lister_fichiers dossier_id nom_dossier).
Proof.
  apply (contains_try_except [] _ "de la liste des fichiers").
  destruct (truthy nom_dossier && negb (truthy dossier_id)).
  - apply (safe_bind_contained None).
    + apply trouver_dossier_par_nom_contains.
    + intros d. destruct (negb (truthy d)).
      * apply propagates_safe. propagation.
      * apply propagates_safe, suite_lister_propagates.
    + intros w. reflexivity.
  - apply propagates_safe, suite_lister_propagates.
Qed.

Lemma telecharger_fichier_contains
    (fichier_id : string) (nom_fichier_local format_export : option string) :
  contains_failures false (telecharger_fichier fichier_id nom_fichier_local format_export).
Proof.
  apply (contains_try_except false _ "du téléchargement").
  apply propagates_safe. propagation.
Qed.

Lemma suite_uploader_propagates (guess_type : string -> option string)
    (chemin : string) (dossier_id : option string) :
  propagates
    (media <- MediaFileUpload guess_type chemin;;
     print ("📤 Upload de '" +:+ basename chemin +:+ "' en cours...");;
     file <- execute_create
       (mkBody (basename chemin) None
          (if truthy dossier_id then Some [the dossier_id] else None))
       (Some media) "id";;
     print ("✅ Fichier uploadé avec succès. ID: " +:+ str_opt (file !! "id"));;
     ret (file !! "id")).
Proof. propagation. Qed.

Lemma uploader_fichier_contains (guess_type : string -> option string)
    (chemin : string) (dossier_id nom_dossier : option string) :
  contains_failures None (uploader_fichier guess_type chemin dossier_id nom_dossier).
Proof.
  apply (contains_try_except None _ "de l'upload").
  apply safe_bind; [apply propagates_path_exists | intros present].
  destruct (negb present).
  { apply propagates_safe. propagation. }
  destruct (truthy nom_dossier && negb (truthy dossier_id)).
  - apply (safe_bind_contained None).
    + apply trouver_dossier_par_nom_contains.
    + intros d. destruct (negb (truthy d)).
      * apply propagates_safe. propagation.
      * apply propagates_safe, suite_uploader_propagates.
    + intros w. reflexivity.
  - apply propagates_safe, suite_uploader_propagates.
Qed.

Lemma obtenir_formats_export_contains (fichier_id : string) :
  contains_failures ∅ (obtenir_formats_export fichier_id).
Proof.
  apply (contains_try_except ∅ _ "de l'obtention des formats").
  apply propagates_safe. propagation.
Qed.

Lemma creer_dossier_contains (nom_dossier : string) (dossier_parent_id : option string) :
  contains_failures None (creer_dossier nom_dossier dossier_parent_id).
Proof.
  apply (contains_try_except None _ "de la création du dossier").
  apply propagates_safe. propagation.
Qed.

(** C8.  Each of the six methods always returns a value, and when one
    of the requests it sent failed, the value is the failure value of
    the method (empty list, [None], [False] or empty mapping) and the
    output holds an error line made of a description and the text of
    the exception. *)
Theorem remote_failures_are_contained
    (guess_type : string -> option string)
    (dossier_id nom_dossier nom_fichier_local format_export : option string)
    (nom fichier_id chemin : string) :
  contains_failures [] (lister_fichiers dossier_id nom_dossier)
  /\ contains_failures None (trouver_dossier_par_nom nom)
  /\ contains_failures false (telecharger_fichier fichier_id nom_fichier_local format_export)
  /\ contains_failures None (uploader_fichier guess_type chemin dossier_id nom_dossier)
  /\ contains_failures ∅ (obtenir_formats_export fichier_id)
  /\ contains_failures None (creer_dossier nom dossier_id).
Proof.
  repeat split.
  - apply lister_fichiers_contains.
  - apply trouver_dossier_par_nom_contains.
  - apply telecharger_fichier_contains.
  - apply uploader_fichier_contains.
  - apply obtenir_formats_export_contains.
  - apply creer_dossier_contains.
Qed.

(** *** The local disk during a download *)

Lemma keeps_disk_ret {A} (a : A) : keeps_disk (ret (R:=R) a).
Proof. intros w. reflexivity. Qed.

Lemma keeps_disk_raise {A} (e : exn) : keeps_disk (raise (R:=R) (A:=A) e).
Proof. intros w. reflexivity. Qed.

Lemma keeps_disk_print (l : string) : keeps_disk (print (R:=R) l).
Proof. intros w. reflexivity. Qed.

Lemma keeps_disk_getitem (d : item) (key : string) : keeps_disk (getitem (R:=R) d key).
Proof. intros w. unfold getitem. destruct (d !! key); reflexivity. Qed.

Lemma keeps_disk_execute_get (fileId : string) : keeps_disk (execute_get fileId).
Proof.
  intros w. unfold execute_get.
  destruct (files_get fileId (remote w)) as [[?|?] ?]; reflexivity.
Qed.

Lemma keeps_disk_execute_export_media (fileId mimeType : string) :
  keeps_disk (execute_export_media fileId mimeType).
Proof.
  intros w. unfold execute_export_media.
  destruct (files_export_media fileId mimeType (remote w)) as [[?|?] ?]; reflexivity.
Qed.

Lemma keeps_disk_get_media (fileId : string) : keeps_disk (get_media fileId).
Proof.
  intros w. unfold get_media.
  destruct (files_get_media fileId (remote w)); reflexivity.
Qed.

Lemma keeps_disk_next_chunk (fileId : string) (answer : exn + Chunk) :
  keeps_disk (next_chunk (R:=R) fileId answer).
Proof. intros w. unfold next_chunk. destruct answer; reflexivity. Qed.

Lemma keeps_disk_bind {A B} (m : M R A) (k : A -> M R B) :
  keeps_disk m -> (forall a, keeps_disk (k a)) -> keeps_disk (bind m k).
Proof.
  intros Hm Hk w. specialize (Hm w). unfold bind.
  destruct (m w) as [[a|e] w1]; simpl in *; [| assumption].
  rewrite (Hk a w1). assumption.
Qed.

Lemma keeps_disk_download_chunks (fileId : string) (script : list (exn + Chunk)) (fh : bytes) :
  keeps_disk (download_chunks (R:=R) fileId script fh).
Proof.
  revert fh. induction script as [|answer rest IH]; intros fh; simpl.
  - apply keeps_disk_ret.
  - apply keeps_disk_bind; [apply keeps_disk_next_chunk | intros c].
    apply keeps_disk_bind; [apply keeps_disk_print | intros _; apply IH].
Qed.

Lemma all_or_nothing_bind {A} (m : M R A) (k : A -> M R bool) :
  keeps_disk m -> (forall a, all_or_nothing (k a)) -> all_or_nothing (bind m k).
Proof.
  intros Hm Hk w. specialize (Hm w). unfold bind.
  destruct (m w) as [[a|e] w1]; simpl in *; [| assumption].
  specialize (Hk a w1). destruct (k a w1) as [[b|e] w2]; simpl in *; [assumption |].
  rewrite Hk. assumption.
Qed.

Lemma all_or_nothing_raise (e : exn) : all_or_nothing (raise (R:=R) e).
Proof. intros w. reflexivity. Qed.

(** The end of both branches: open, write, print, [return True]. *)
Lemma all_or_nothing_write (path : string) (content : bytes) (l : string) :
  all_or_nothing (write_file (R:=R) path content;; print l;; ret true).
Proof.
  intros w. unfold bind, write_file.
  destruct (String.eqb path "" || negb (dir_exists w (dir_part path))); reflexivity.
Qed.

Lemma telecharger_fichier_body_all_or_nothing
    (fichier_id : string) (nom_fichier_local format_export : option string) :
  all_or_nothing
    (file_metadata <- execute_get fichier_id;;
     mime_type <- getitem file_metadata "mimeType";;
     nom_fichier_local <-
       (if negb (truthy nom_fichier_local)
        then getitem file_metadata "name"
        else ret (the nom_fichier_local));;
     name <- getitem file_metadata "name";;
     print ("📥 Téléchargement de '" +:+ name +:+ "'...");;
     print ("🔍 Type MIME: " +:+ mime_type);;
     match google_docs_types !! mime_type with
     | Some default_export =>
         let export_mime_type :=
           if truthy format_export then the format_export else default_export in
         print ("📄 Fichier Google Docs détecté - Export en format: " +:+ export_mime_type);;
         let nom_fichier_local :=
           match extensions !! export_mime_type with
           | Some ext =>
               if negb (endswith (lower nom_fichier_local) (lower ext))
               then nom_fichier_local +:+ ext
               else nom_fichier_local
           | None => nom_fichier_local
           end in
         content <- execute_export_media fichier_id export_mime_type;;
         write_file nom_fichier_local content;;
         print ("✅ Fichier Google Docs exporté avec succès: " +:+ nom_fichier_local);;
         ret true
     | None =>
         print "📁 Fichier binaire détecté - Téléchargement direct";;
         request <- get_media fichier_id;;
         fh <- download_chunks fichier_id request [];;
         write_file nom_fichier_local fh;;
         print ("✅ Fichier téléchargé avec succès: " +:+ nom_fichier_local);;
         ret true
     end).
Proof.
  apply all_or_nothing_bind; [apply keeps_disk_execute_get | intros file_metadata].
  apply all_or_nothing_bind; [apply keeps_disk_getitem | intros mime_type].
  apply all_or_nothing_bind.
  { destruct (negb (truthy nom_fichier_local));
      [apply keeps_disk_getitem | apply keeps_disk_ret]. }
  intros nom.
  apply all_or_nothing_bind; [apply keeps_disk_getitem | intros name].
  apply all_or_nothing_bind; [apply keeps_disk_print | intros _].
  apply all_or_nothing_bind; [apply keeps_disk_print | intros _].
  destruct (google_docs_types !! mime_type) as [default_export|].
  - cbv zeta.
    apply all_or_nothing_bind; [apply keeps_disk_print | intros _].
    apply all_or_nothing_bind; [apply keeps_disk_execute_export_media | intros content].
    apply all_or_nothing_write.
  - apply all_or_nothing_bind; [apply keeps_disk_print | intros _].
    apply all_or_nothing_bind; [apply keeps_disk_get_media | intros request].
    apply all_or_nothing_bind; [apply keeps_disk_download_chunks | intros fh].
    apply all_or_nothing_write.
Qed.

(** A download that returns [False] has left the disk as it was. *)
Lemma telecharger_fichier_false_disk
    (fichier_id : string) (nom_fichier_local format_export : option string) (w : World R) :
  (telecharger_fichier fichier_id nom_fichier_local format_export w).1 = Ok false ->
  disk (telecharger_fichier fichier_id nom_fichier_local format_export w).2 = disk w.
Proof.
  unfold telecharger_fichier, try_except.
  pose proof (telecharger_fichier_body_all_or_nothing
                fichier_id nom_fichier_local format_export w) as Hbody.
  cbv zeta in Hbody.
  match type of Hbody with
  | match (?body w).1 with _ => _ end => destruct (body w) as [[b|e] w1]
  end; simpl in *.
  - intros [= ->]. discriminate.
  - intros _. assumption.
Qed.

(** C7.  When a request of the download failed (the metadata, the
    export or any chunk of the media), the download returns [False]
    and the local disk is what it was before the call: no file has
    been created, empty or not. *)
Theorem telecharger_fichier_no_partial_file
    (fichier_id : string) (nom_fichier_local format_export : option string) (w : World R) :
  let run := telecharger_fichier fichier_id nom_fichier_local format_export w in
  some_failure (new_calls w run.2) ->
  run.1 = Ok false /\ disk run.2 = disk w.
Proof.
  intros run (c & e & Hin).
  destruct (telecharger_fichier_contains fichier_id nom_fichier_local format_export w)
    as (a & evs & lines & Hr & [Hcalls _] & Hfail).
  fold run in Hr, Hcalls.
  rewrite (new_calls_app _ _ _ Hcalls) in Hin.
  destruct (Hfail _ _ Hin) as [-> _].
  split; [assumption |].
  apply telecharger_fichier_false_disk. assumption.
Qed.

End ContainmentFacts.

(** ** The client over the reference store *)

Module SimFacts.
Import Sim.

(** *** Reading queries *)

Lemma strip_prefix_app (p s : string) : strip_prefix p (p +:+ s) = Some s.
Proof.
  induction p as [|a p IH]; simpl; [reflexivity |].
  rewrite Ascii.eqb_refl. exact IH.
Qed.

Lemma read_literal_plain (x rest : string) :
  plain x = true -> read_literal (x +:+ String quote rest) = Some (x, rest).
Proof.
  induction x as [|c x IH]; simpl; [reflexivity |].
  intros Hp. apply andb_true_iff in Hp as [Hp Hx].
  apply andb_true_iff in Hp as [Hq Hb].
  apply negb_true_iff in Hq, Hb. fold quote. rewrite Hq, Hb, (IH Hx). reflexivity.
Qed.

Lemma append_nil_l (s : string) : "" +:+ s = s.
Proof. reflexivity. Qed.

Lemma append_cons (c : ascii) (a b : string) : String c a +:+ b = String c (a +:+ b).
Proof. reflexivity. Qed.

Lemma length_append (a b : string) :
  String.length (a +:+ b) = (String.length a + String.length b)%nat.
Proof. induction a as [|c a IH]; simpl; [reflexivity | now rewrite IH]. Qed.

Lemma parse_term_parents (y : string) :
  parse_term (String quote y)
  = match read_literal y with
    | Some (lit, rest) =>
        match strip_prefix " in parents" rest with
        | Some rest' => Some (InParents lit, rest')
        | None => None
        end
    | None => None
    end.
Proof. reflexivity. Qed.

Lemma parse_term_name (y : string) :
  parse_term ("name='" +:+ y)
  = match read_literal y with
    | Some (lit, rest) => Some (NameIs lit, rest)
    | None => None
    end.
Proof. reflexivity. Qed.

Lemma parse_term_mimeType (y : string) :
  parse_term ("mimeType='" +:+ y)
  = match read_literal y with
    | Some (lit, rest) => Some (MimeTypeIs lit, rest)
    | None => None
    end.
Proof. reflexivity. Qed.

(** The query of [lister_fichiers] for a plain identifier reads as
    "in this folder and not trashed". *)
Lemma parse_requete_parents (f : string) :
  plain f = true ->
  parse_query (requete_parents f) = Some [InParents f; Trashed false].
Proof.
  intros Hp. unfold parse_query, requete_parents.
  change ("'" +:+ f +:+ "' in parents and trashed=false")
    with (String quote (f +:+ String quote " in parents and trashed=false")).
  cbn [String.length]. rewrite length_append. cbn [String.length].
  rewrite Nat.add_succ_r.
  cbn [parse_terms].
  rewrite parse_term_parents, (read_literal_plain _ _ Hp).
  reflexivity.
Qed.

(** The query of [trouver_dossier_par_nom] for a plain name reads as
    "has this name, is a folder and is not trashed". *)
Lemma parse_requete_dossier (name : string) :
  plain name = true ->
  parse_query (requete_dossier name)
  = Some [NameIs name; MimeTypeIs "application/vnd.google-apps.folder"; Trashed false].
Proof.
  intros Hp. unfold parse_query, requete_dossier.
  change ("name='" +:+ name +:+
          "' and mimeType='application/vnd.google-apps.folder' and trashed=false")
    with ("name='" +:+ (name +:+ String quote
            " and mimeType='application/vnd.google-apps.folder' and trashed=false")).
  rewrite length_append, length_append. cbn [String.length].
  rewrite !Nat.add_succ_r. cbn [Nat.add].
  cbn [parse_terms].
  rewrite parse_term_name, (read_literal_plain _ _ Hp).
  reflexivity.
Qed.

(** *** Answers of the store *)

Lemma next_fault_files (st st' : state) (o : option exn) :
  next_fault st = (o, st') -> files st' = files st.
Proof.
  unfold next_fault. destruct (faults st); intros [= <- <-]; reflexivity.
Qed.

Lemma view_id (fields : string) (f : File) :
  contains fields "id" = true -> view fields f !! "id" = Some (file_id f).
Proof.
  intros Hc. unfold view. cbn [app List.filter fst]. rewrite Hc.
  cbn [list_to_map foldr]. unfold curry. cbn [fst snd]. apply lookup_insert_eq.
Qed.

Lemma sim_list_selected (q fields : string) (st st' : state) (results : ListResponse) :
  sim_list q fields st = (inr results, st') ->
  exists ts,
    parse_query q = Some ts
    /\ resp_files results = Some (view fields <$> List.filter (selected ts) (files st)).
Proof.
  unfold sim_list. destruct (next_fault st) as [[e|] st1] eqn:Hf; [discriminate |].
  apply next_fault_files in Hf.
  destruct (parse_query q) as [ts|]; [| discriminate].
  intros [= <- <-]. exists ts. rewrite Hf. split; reflexivity.
Qed.

Lemma selected_filter (ts : list term) (fs : list File) (rec : File) :
  rec ∈ List.filter (selected ts) fs ->
  rec ∈ fs /\ forall t, t ∈ ts -> satisfies rec t = true.
Proof.
  intros Hin. apply list_elem_of_In, filter_In in Hin as [Hin Hsel].
  split; [apply list_elem_of_In; assumption |].
  intros t Ht. unfold selected in Hsel.
  rewrite forallb_forall in Hsel. apply Hsel, list_elem_of_In. assumption.
Qed.

(** X24.  For a name without quote or backslash, an identifier
    returned by the lookup is that of a record of the store that is a
    folder, is not trashed and bears the name. *)
Theorem trouver_dossier_par_nom_plain_name
    (nom_dossier : string) (w : World state) (id : string) :
  plain nom_dossier = true ->
  (trouver_dossier_par_nom nom_dossier w).1 = Ok (Some id) ->
  exists rec,
    rec ∈ files (remote w)
    /\ file_id rec = id
    /\ is_folder rec = true
    /\ file_trashed rec = false
    /\ file_name rec = nom_dossier.
Proof.
  intros Hplain.
  unfold trouver_dossier_par_nom, try_except, bind, execute_list.
  cbn [files_list service].
  destruct (sim_list (requete_dossier nom_dossier) "files(id, name)" (remote w))
    as [[e|results] st'] eqn:Hlist; [discriminate |].
  apply sim_list_selected in Hlist as (ts & Hparse & Hfiles).
  rewrite (parse_requete_dossier _ Hplain) in Hparse. injection Hparse as <-.
  rewrite Hfiles. cbn [default from_option Datatypes.id].
  match goal with
  | |- context [List.filter ?p ?l] => destruct (List.filter p l) as [|rec rest] eqn:Hfilt
  end; [discriminate |].
  rewrite fmap_cons. unfold getitem.
  rewrite (view_id "files(id, name)" rec) by reflexivity.
  intros [= <-].
  assert (Hrec : rec ∈ List.filter
                   (selected [NameIs nom_dossier;
                              MimeTypeIs "application/vnd.google-apps.folder";
                              Trashed false])
                   (files (remote w))).
  { rewrite Hfilt. apply elem_of_cons. left. reflexivity. }
  apply selected_filter in Hrec as [Hin Hsat].
  exists rec. split; [assumption |]. split; [reflexivity |].
  split; [| split].
  - apply (Hsat (MimeTypeIs "application/vnd.google-apps.folder")).
    apply elem_of_cons. right. apply elem_of_cons. left. reflexivity.
  - assert (Ht : satisfies rec (Trashed false) = true).
    { apply Hsat. do 2 (apply elem_of_cons; right). apply elem_of_cons. left. reflexivity. }
    cbn [satisfies] in Ht. destruct (file_trashed rec); [discriminate | reflexivity].
  - assert (Hname : satisfies rec (NameIs nom_dossier) = true).
    { apply Hsat, elem_of_cons. left. reflexivity. }
    apply String.eqb_eq. exact Hname.
Qed.

End SimFacts.

Section ListingFacts.

Context {R : Type} `{Service R}.

(** Listing by identifier returns nothing, or the records of the
    answer to the query for the children of that folder. *)
Lemma lister_fichiers_by_id (f : string) (nom_dossier : option string)
    (w : World R) (items : list item) :
  f <> "" ->
  (lister_fichiers (Some f) nom_dossier w).1 = Ok items ->
  items = []
  \/ exists results s,
       files_list (requete_parents f) champs_liste (remote w) = (inr results, s)
       /\ items = default [] (resp_files results).
Proof.
  intros Hf. unfold lister_fichiers, try_except.
  rewrite (truthy_Some _ Hf), andb_false_r. change (the (Some f)) with f.
  unfold bind at 1. unfold execute_list.
  destruct (files_list (requete_parents f) champs_liste (remote w))
    as [[e|results] s] eqn:Hlist.
  { simpl. intros [= <-]. left. reflexivity. }
  destruct (default [] (resp_files results)) as [|it rest] eqn:Hitems.
  { simpl. intros [= <-]. left. reflexivity. }
  unfold bind, print.
  match goal with
  | |- context [afficher_items ?l ?w0] => destruct (afficher_items l w0) as [[[]|e] w1]
  end; simpl.
  - intros [= <-]. right. exists results, s. split; [reflexivity | symmetry; assumption].
  - intros [= <-]. left. reflexivity.
Qed.

End ListingFacts.

Module SimListing.
Import Sim.

(** C2.  Listing by a valid folder identifier returns a list, and each
    of its elements is the view of a record of the store that has the
    folder among its parents and is not trashed. *)
Theorem lister_fichiers_only_children
    (f : string) (nom_dossier : option string) (w : World state) :
  valid_id f ->
  exists items,
    (lister_fichiers (Some f) nom_dossier w).1 = Ok items
    /\ forall it, it ∈ items ->
         exists rec,
           rec ∈ files (remote w)
           /\ it = view champs_liste rec
           /\ f ∈ file_parents rec
           /\ file_trashed rec = false.
Proof.
  intros [Hne Hplain].
  destruct (lister_fichiers_contains (Some f) nom_dossier w) as (items & _ & _ & Hr & _).
  exists items. split; [assumption |].
  intros it Hit.
  apply lister_fichiers_by_id in Hr as [-> | (results & s & Hlist & ->)]; [| | assumption].
  { inversion Hit. }
  cbn [files_list service] in Hlist.
  apply SimFacts.sim_list_selected in Hlist as (ts & Hparse & Hfiles).
  rewrite (SimFacts.parse_requete_parents _ Hplain) in Hparse. injection Hparse as <-.
  rewrite Hfiles in Hit. cbn [default from_option Datatypes.id] in Hit.
  apply list_elem_of_fmap in Hit as (rec & -> & Hrec).
  apply SimFacts.selected_filter in Hrec as [Hin Hsat].
  exists rec. split; [assumption |]. split; [reflexivity |]. split.
  - assert (Hp : satisfies rec (InParents f) = true).
    { apply Hsat, elem_of_cons. left. reflexivity. }
    cbn [satisfies] in Hp. apply existsb_exists in Hp as (x & Hx & Heq).
    apply String.eqb_eq in Heq. subst x. apply list_elem_of_In. assumption.
  - assert (Ht : satisfies rec (Trashed false) = true).
    { apply Hsat, elem_of_cons. right. apply elem_of_cons. left. reflexivity. }
    cbn [satisfies] in Ht. destruct (file_trashed rec); [discriminate | reflexivity].
Qed.

End SimListing.

(** ** Reports over the reference store *)

Module SimReports.
Import Sim.

Lemma next_fault_calm (st : state) :
  calm st ->
  exists st', next_fault st = (None, st')
              /\ calm st' /\ files st' = files st /\ chunksize st' = chunksize st.
Proof.
  unfold calm, next_fault. intros Hc.
  destruct (faults st) as [|o rest] eqn:Hf.
  - exists st. rewrite Hf. repeat split; constructor.
  - inversion Hc as [|? ? -> Hrest]; subst.
    eexists. split; [reflexivity |]. repeat split; assumption.
Qed.

Lemma chunks_of_concat (fuel size : nat) (content : bytes) :
  concat (chunks_of fuel size content) = content.
Proof.
  revert content. induction fuel as [|fuel IH]; intros content; simpl.
  - apply app_nil_r.
  - destruct (length content <=? size)%nat; simpl.
    + apply app_nil_r.
    + rewrite IH. apply take_drop.
Qed.

(** Without faults, every chunk is served. *)
Lemma serve_chunks_calm (cs : list bytes) (received total : nat) (st : state) :
  calm st ->
  exists served st',
    serve_chunks cs received total st = (inr <$> served, st')
    /\ chunk_data <$> served = cs
    /\ calm st' /\ files st' = files st.
Proof.
  revert received st. induction cs as [|c cs IH]; intros received st Hc; simpl.
  - exists [], st. repeat split; assumption.
  - destruct (next_fault_calm st Hc) as (st1 & -> & Hc1 & Hf1 & _).
    destruct (IH (received + length c)%nat st1 Hc1) as (served & st2 & -> & Hd & Hc2 & Hf2).
    eexists (_ :: served), st2. split; [reflexivity |].
    split; [rewrite fmap_cons, Hd; reflexivity |].
    split; [assumption | congruence].
Qed.

Lemma download_chunks_served {R : Type} (fileId : string) (served : list Chunk)
    (fh : bytes) (w : World R) :
  exists w',
    download_chunks fileId (inr <$> served) fh w
    = (Ok (fh ++ concat (chunk_data <$> served)), w')
    /\ remote w' = remote w /\ disk w' = disk w /\ dirs w' = dirs w.
Proof.
  revert fh w. induction served as [|c served IH]; intros fh w.
  - exists w. simpl. rewrite app_nil_r. repeat split.
  - rewrite !fmap_cons. cbn [download_chunks concat].
    unfold bind, next_chunk, print.
    match goal with
    | |- context [download_chunks fileId _ ?fh' ?w0] =>
        destruct (IH fh' w0) as (w' & -> & Hr & Hd & Hdi)
    end.
    exists w'. rewrite <- app_assoc. repeat split; assumption.
Qed.

Lemma google_docs_types_editor (mime dflt : string) :
  google_docs_types !! mime = Some dflt -> is_editor_type mime = true.
Proof.
  unfold google_docs_types. intros Hl.
  repeat (apply lookup_insert_Some in Hl as [[<- _]|[_ Hl]]; [reflexivity |]).
  rewrite lookup_empty in Hl. discriminate.
Qed.

Lemma view_default (f : File) :
  view default_fields f
  = <["id" := file_id f]> (<["name" := file_name f]> (<["mimeType" := file_mimeType f]> ∅)).
Proof. unfold view. destruct (file_size f); reflexivity. Qed.

(** A record with binary content, downloaded from a calm store under
    a given local name whose directory exists: the download succeeds
    and the file holds the content of the record. *)
Lemma telecharger_fichier_binary (fichier_id chemin : string) (f : File) (w : World state) :
  calm (remote w) ->
  find_file fichier_id (files (remote w)) = Some f ->
  is_editor_type (file_mimeType f) = false ->
  chemin <> "" ->
  dir_exists w (dir_part chemin) = true ->
  exists w',
    telecharger_fichier fichier_id (Some chemin) None w = (Ok true, w')
    /\ disk w' = <[chemin := file_content f]> (disk w).
Proof.
  intros Hcalm Hfind Hbin Hne Hdir.
  destruct (next_fault_calm _ Hcalm) as (st1 & Hnext & Hcalm1 & Hfiles1 & _).
  assert (Hget : sim_get fichier_id (remote w) = (inr (view default_fields f), st1)).
  { unfold sim_get. rewrite Hnext, Hfiles1, Hfind. reflexivity. }
  assert (Hnone : google_docs_types !! file_mimeType f = None).
  { destruct (google_docs_types !! file_mimeType f) as [d|] eqn:E; [| reflexivity].
    apply google_docs_types_editor in E. congruence. }
  destruct (serve_chunks_calm
              (chunks_of (length (file_content f)) (Nat.max 1 (chunksize st1)) (file_content f))
              0 (length (file_content f)) st1 Hcalm1)
    as (served & st2 & Hserve & Hdata & _ & _).
  assert (Hmedia : sim_get_media fichier_id st1 = (inr <$> served, st2)).
  { unfold sim_get_media. rewrite Hfiles1, Hfind, Hbin. exact Hserve. }
  unfold telecharger_fichier, try_except.
  unfold bind at 1. unfold execute_get at 1. cbn [files_get service]. rewrite Hget.
  unfold bind at 1. unfold getitem at 1. rewrite view_default.
  rewrite lookup_insert_ne, lookup_insert_ne, lookup_insert_eq by discriminate.
  unfold ret at 1.
  rewrite (truthy_Some _ Hne). cbn [negb].
  unfold bind at 1. unfold ret at 1.
  unfold bind at 1. unfold getitem at 1.
  rewrite lookup_insert_ne, lookup_insert_eq by discriminate.
  unfold ret at 1.
  rewrite Hnone.
  unfold bind at 1. unfold print at 1.
  unfold bind at 1. unfold print at 1.
  unfold bind at 1. unfold print at 1.
  unfold bind at 1. unfold get_media at 1. cbn [files_get_media service remote add_stdout
    add_call set_remote]. rewrite Hmedia.
  unfold bind at 1.
  match goal with
  | |- context [download_chunks fichier_id _ [] ?w0] =>
      destruct (download_chunks_served fichier_id served [] w0)
        as (w1 & -> & _ & Hdisk & Hdirs1)
  end.
  rewrite Hdata, chunks_of_concat. cbn [app].
  assert (Hdirs : dirs w1 = dirs w).
  { match type of Hdirs1 with dirs w1 = dirs ?w0 => transitivity (dirs w0) end;
      [exact Hdirs1 | reflexivity]. }
  unfold bind, write_file, dir_exists, print, ret, the.
  cbn [default from_option Datatypes.id].
  destruct (String.eqb_spec chemin ""); [contradiction |].
  unfold dir_exists in Hdir. rewrite Hdirs, Hdir. cbn [orb negb].
  eexists. split; [reflexivity |]. cbn [disk set_disk add_stdout]. rewrite Hdisk. reflexivity.
Qed.

Section RoundTrip.

Context {V : Type} `{Pickle V}.
Variable guess_type : string -> option string.
Variable tmp_dir : string.

(** [mimetypes] knows no extension for the types of the Docs
    editors. *)
Hypothesis guess_type_binary :
  forall path t, guess_type path = Some t -> is_editor_type t = false.

(** A report that has been saved is a record of the store with the
    dump as content. *)
Lemma uploader_report_saved (objet : V) (nom_fichier dossier_id : string)
    (w w1 : World state) (id : string) :
  uploader_report guess_type tmp_dir objet nom_fichier dossier_id w = (Ok (Some id), w1) ->
  id <> ""
  /\ dir_part id = ""
  /\ dir_exists w1 (dir_part (tmp_dir +:+ nom_fichier)) = true
  /\ exists f,
    find_file id (files (remote w1)) = Some f
    /\ file_content f = dumps objet
    /\ is_editor_type (file_mimeType f) = false.
Proof.
  unfold uploader_report, bind at 1, write_file.
  destruct (String.eqb (tmp_dir +:+ nom_fichier) ""
            || negb (dir_exists w (dir_part (tmp_dir +:+ nom_fichier)))) eqn:Hopen;
    [discriminate |].
  apply orb_false_iff in Hopen as [_ Hdir]. apply negb_false_iff in Hdir.
  unfold try_finally, uploader_fichier, try_except.
  unfold bind at 1. unfold path_exists. cbn [disk set_disk].
  rewrite lookup_insert_eq, bool_decide_eq_true_2 by eauto. cbn [negb truthy andb].
  unfold bind at 1. unfold MediaFileUpload, bind at 1, read_file. cbn [disk set_disk].
  rewrite lookup_insert_eq. unfold ret at 1.
  unfold bind at 1. unfold print at 1.
  unfold bind at 1. unfold execute_create.
  cbn [files_create service remote add_stdout set_disk].
  unfold sim_create.
  destruct (next_fault (remote w)) as [[e|] st1].
  { unfold remove_file. simpl. rewrite lookup_insert_eq. discriminate. }
  cbn [body_parents body_mimeType body_name default from_option Datatypes.id].
  match goal with
  | |- context [if forallb ?p ?l then _ else _] => destruct (forallb p l)
  end.
  2:{ unfold remove_file. simpl. rewrite lookup_insert_eq. discriminate. }
  unfold bind, print, ret, remove_file.
  cbn [disk set_disk add_stdout add_call set_remote remote].
  rewrite lookup_insert_eq.
  rewrite SimFacts.view_id by reflexivity.
  intros [= <- <-].
  cbn [remote set_remote set_disk files set_files file_id].
  split; [discriminate |].
  split; [apply (dir_part_base "id"), dir_part_pretty |].
  split; [exact Hdir |].
  eexists. split.
  - unfold find_file.
    cbn [remote set_remote set_disk add_stdout add_call files set_files List.find file_id].
    rewrite String.eqb_refl. reflexivity.
  - split; [reflexivity |]. cbn [file_mimeType media_mimetype].
    destruct (guess_type (tmp_dir +:+ nom_fichier)) as [t|] eqn:Hg; [| reflexivity].
    apply (guess_type_binary _ _ Hg).
Qed.

(** C1.  When [uploader_report] has returned an identifier, and the
    requests of the download that follows do not fail,
    [load_report] on that identifier returns the value that was
    saved: for every value, report name, folder identifier and
    state of the store and of the disk. *)
Theorem load_report_uploader_report (objet : V) (nom_fichier dossier_id : string)
    (w : World state) (id : string) :
  let saved := uploader_report guess_type tmp_dir objet nom_fichier dossier_id w in
  saved.1 = Ok (Some id) ->
  calm (remote saved.2) ->
  (load_report tmp_dir id saved.2).1 = Ok objet.
Proof.
  intros saved Hsaved Hcalm.
  assert (Hrun : uploader_report guess_type tmp_dir objet nom_fichier dossier_id w
                 = (Ok (Some id), saved.2)).
  { rewrite <- Hsaved. apply surjective_pairing. }
  destruct (uploader_report_saved objet nom_fichier dossier_id w saved.2 id Hrun)
    as (Hid & Hbase & Hdir & f & Hfind & Hcontent & Hbin).
  assert (Htmp : tmp_dir +:+ id <> "").
  { destruct tmp_dir; [exact Hid | discriminate]. }
  assert (Hdir' : dir_exists saved.2 (dir_part (tmp_dir +:+ id)) = true).
  { rewrite (dir_part_base _ _ Hbase).
    exact (dir_exists_above _ _ _ (dir_part_above tmp_dir nom_fichier) Hdir). }
  destruct (telecharger_fichier_binary id (tmp_dir +:+ id) f saved.2 Hcalm Hfind Hbin Htmp Hdir')
    as (w' & Hload & Hdisk).
  unfold load_report. unfold bind at 1. rewrite Hload.
  unfold bind at 1. unfold read_file. rewrite Hdisk, lookup_insert_eq.
  rewrite Hcontent, loads_dumps.
  unfold bind, remove_file, ret. rewrite Hdisk, lookup_insert_eq. reflexivity.
Qed.

End RoundTrip.

End SimReports.

(** ** Worked examples on the sample store *)

Section WorkedExamples.

Import Sim Sample.

(** Close an equation between closed terms by evaluating its left
    side. *)
Ltac evaluate :=
  unfold unresolved;
  lazymatch goal with
  | |- _ = ?b => vm_cast_no_check (eq_refl b)
  end.

(** C1 on the sample store: the number 3 saved as "sauvegarde" in the
    folder F1 gets the identifier id6 and is loaded back. *)
Lemma load_report_uploader_report_witness :
  (load_report Sample.tmp_dir "id6"
     (uploader_report Sample.guess Sample.tmp_dir 3%nat "sauvegarde" "F1" Sample.monde).2).1
  = Ok 3%nat.
Proof.
  apply (SimReports.load_report_uploader_report Sample.guess Sample.tmp_dir).
  - intros path t. unfold Sample.guess.
    destruct (endswith path ".txt"); [intros [= <-]; reflexivity |].
    destruct (endswith path ".png"); [intros [= <-]; reflexivity | discriminate].
  - evaluate.
  - vm_compute. constructor.
Defined.

(** C2 on the sample store: the children of F1. *)
Lemma lister_fichiers_only_children_witness :
  exists items,
    (lister_fichiers (Some "F1") None Sample.monde).1 = Ok items
    /\ forall it, it ∈ items ->
         exists rec,
           rec ∈ files Sample.store
           /\ it = view champs_liste rec
           /\ "F1" ∈ file_parents rec
           /\ file_trashed rec = false.
Proof.
  apply (SimListing.lister_fichiers_only_children "F1" None Sample.monde).
  split; [discriminate | reflexivity].
Defined.


(** C4 as stated fails: the document named "R.DOCX" is written under
    that name, which does not end with ".docx". *)
Lemma telecharger_fichier_uppercase_counterexample :
  (telecharger_fichier "d1" None None Sample.monde).1 = Ok true
  /\ disk (telecharger_fichier "d1" None None Sample.monde).2 = {[ "R.DOCX" := [x50; x4b] ]}
  /\ endswith "R.DOCX" ".docx" = false.
Proof. repeat split; evaluate. Qed.

(** C4 (amended) on the sample store: the document downloaded as
    "rapport" is exported as a Word document into "rapport.docx", a
    name of the working directory. *)
Lemma telecharger_fichier_default_export_witness :
  can_open Sample.monde "rapport.docx" = true
  /\ endswith (lower "rapport.docx") (lower ".docx") = true
  /\ (exists outcome,
        new_calls Sample.monde (telecharger_fichier "d1" (Some "rapport") None Sample.monde).2
        = [mkEvent (FilesGet "d1") None;
           mkEvent
             (FilesExportMedia "d1"
                "application/vnd.openxmlformats-officedocument.wordprocessingml.document")
             outcome])
  /\ (forall content s',
        files_export_media "d1"
          "application/vnd.openxmlformats-officedocument.wordprocessingml.document"
          Sample.store = (inr content, s') ->
        can_open Sample.monde "rapport.docx" = true ->
        (telecharger_fichier "d1" (Some "rapport") None Sample.monde).1 = Ok true
        /\ disk (telecharger_fichier "d1" (Some "rapport") None Sample.monde).2
           = <["rapport.docx" := content]> ∅).
Proof.
  split; [reflexivity |].
  apply (telecharger_fichier_default_export "d1" (Some "rapport") None Sample.monde
           (view default_fields Sample.document) Sample.store
           "application/vnd.google-apps.document" "R.DOCX"
           "application/vnd.openxmlformats-officedocument.wordprocessingml.document" ".docx").
  - evaluate.
  - evaluate.
  - evaluate.
  - apply elem_of_cons. left. reflexivity.
  - reflexivity.
Defined.

(** C5 as stated fails: the empty name cannot be resolved, yet listing
    with it returns the four live records of the store. *)
Lemma lister_fichiers_empty_name_counterexample :
  unresolved "" Sample.monde
  /\ (lister_fichiers None (Some "") Sample.monde).1
     = Ok (view champs_liste <$>
             [Sample.document; Sample.binaire; Sample.dossier; Sample.dossier_bis]).
Proof. split; evaluate. Qed.

(** C5 (amended) on the sample store: no folder is named "Inconnu". *)
Lemma lister_fichiers_unresolved_name_witness :
  lister_fichiers None (Some "Inconnu") Sample.monde
  = (Ok [], add_stdout "❌ Dossier 'Inconnu' non trouvé"
              (trouver_dossier_par_nom "Inconnu" Sample.monde).2).
Proof.
  apply (lister_fichiers_unresolved_name "Inconnu" Sample.monde).
  - discriminate.
  - evaluate.
Defined.

(** C6 on the sample store: two folders are named "Rapports" and the
    lookup returns the first of the answer, F1; no folder is named
    "Inconnu" and the lookup returns [None]. *)
Lemma trouver_dossier_par_nom_first_match_witness :
  trouver_dossier_par_nom "Rapports" Sample.monde
  = (Ok (Some "F1"),
     add_call (mkEvent (FilesList (requete_dossier "Rapports") "files(id, name)") None)
       (set_remote Sample.store Sample.monde))
  /\ trouver_dossier_par_nom "Inconnu" Sample.monde
     = (Ok None,
        add_call (mkEvent (FilesList (requete_dossier "Inconnu") "files(id, name)") None)
          (set_remote Sample.store Sample.monde)).
Proof.
  split.
  - apply (trouver_dossier_par_nom_first_match "Rapports" Sample.monde
             (mkListResponse
                (Some [view "files(id, name)" Sample.dossier;
                       view "files(id, name)" Sample.dossier_bis]))
             Sample.store).
    + evaluate.
    + evaluate.
  - apply (trouver_dossier_par_nom_first_match "Inconnu" Sample.monde
             (mkListResponse (Some [])) Sample.store).
    evaluate.
Defined.

(** C7 on the sample store: the first chunk of the picture fails. *)
Lemma telecharger_fichier_no_partial_file_witness :
  (telecharger_fichier "b1" None None
     (world (Sample.store_with [None; Some (HttpError "timeout")]) ∅)).1 = Ok false
  /\ disk (telecharger_fichier "b1" None None
             (world (Sample.store_with [None; Some (HttpError "timeout")]) ∅)).2 = ∅.
Proof.
  apply (telecharger_fichier_no_partial_file "b1" None None
           (world (Sample.store_with [None; Some (HttpError "timeout")]) ∅)).
  exists (FilesGetMedia "b1"), (HttpError "timeout").
  vm_compute. apply elem_of_cons. right. apply elem_of_cons. left. reflexivity.
Defined.

(** C9 on the sample store: a picture has no export format, a
    document has the five of its kind. *)
Lemma obtenir_formats_export_by_kind_witness :
  (obtenir_formats_export "b1" Sample.monde).1 = Ok ∅
  /\ (obtenir_formats_export "d1" Sample.monde).1
     = Ok (list_to_map
             [("application/vnd.openxmlformats-officedocument.wordprocessingml.document",
               ".docx (Word)");
              ("application/pdf", ".pdf");
              ("text/plain", ".txt");
              ("application/rtf", ".rtf");
              ("application/vnd.oasis.opendocument.text", ".odt")]).
Proof.
  split.
  - apply (obtenir_formats_export_by_kind "b1" Sample.monde
             (view default_fields Sample.binaire) Sample.store "image/png").
    + evaluate.
    + evaluate.
    + unfold editable_types, export_tables. cbn [fmap list_fmap fst].
      intros Hin. repeat (apply elem_of_cons in Hin as [Hin|Hin]; [discriminate |]).
      inversion Hin.
  - apply (obtenir_formats_export_by_kind "d1" Sample.monde
             (view default_fields Sample.document) Sample.store
             "application/vnd.google-apps.document").
    + evaluate.
    + evaluate.
    + apply elem_of_cons. left. reflexivity.
    + vm_compute. eauto.
Defined.

(** X24 on the sample store: the folder returned for "Rapports". *)
Lemma trouver_dossier_par_nom_plain_name_witness :
  exists rec,
    rec ∈ files Sample.store
    /\ file_id rec = "F1"
    /\ is_folder rec = true
    /\ file_trashed rec = false
    /\ file_name rec = "Rapports".
Proof.
  apply (SimFacts.trouver_dossier_par_nom_plain_name "Rapports" Sample.monde "F1").
  - reflexivity.
  - evaluate.
Defined.

End WorkedExamples.

(** * Further properties *)

(** ** Listing *)

Section ListingMore.

Context {R : Type} `{Service R}.

(** The query [lister_fichiers] sends once the folder is settled. *)
#[local] Abbreviation requete d :=
  (if truthy d then requete_parents (the d) else "trashed=false").

Lemma afficher_item_printable (it : item) (w : World R) :
  printable it = true ->
  exists w', afficher_item it w = (Ok tt, w')
             /\ remote w' = remote w /\ disk w' = disk w /\ calls w' = calls w.
Proof.
  unfold printable. intros Hp.
  repeat (apply andb_true_iff in Hp as [Hp ?]).
  repeat match goal with
         | Hk : bool_decide (is_Some _) = true |- _ =>
             apply bool_decide_eq_true_1 in Hk as [? Hk]
         end.
  unfold afficher_item, bind, getitem, print, int_of_str.
  destruct (it !! "size") as [size|] eqn:Hsize; cbn [default from_option Datatypes.id].
  - destruct (String.eqb size "N/A") eqn:Hna.
    + repeat match goal with Hk : it !! _ = Some _ |- _ => rewrite Hk; clear Hk end.
      eexists. split; [reflexivity |]. repeat split.
    + cbn [orb] in Hp. apply bool_decide_eq_true_1 in Hp as [n Hn]. rewrite Hn.
      repeat match goal with Hk : it !! _ = Some _ |- _ => rewrite Hk; clear Hk end.
      eexists. split; [reflexivity |]. repeat split.
  - change (String.eqb "N/A" "N/A") with true. cbv iota.
    repeat match goal with Hk : it !! _ = Some _ |- _ => rewrite Hk; clear Hk end.
    eexists. split; [reflexivity |]. repeat split.
Qed.

Lemma afficher_items_printable (items : list item) (w : World R) :
  forallb printable items = true ->
  exists w', afficher_items items w = (Ok tt, w')
             /\ remote w' = remote w /\ disk w' = disk w /\ calls w' = calls w.
Proof.
  revert w. induction items as [|it rest IH]; intros w Hall.
  - exists w. repeat split.
  - cbn [forallb] in Hall. apply andb_true_iff in Hall as [Hit Hrest].
    destruct (afficher_item_printable it w Hit) as (w1 & Hrun & Hr1 & Hd1 & Hc1).
    destruct (IH w1 Hrest) as (w2 & Hrun2 & Hr2 & Hd2 & Hc2).
    exists w2. cbn [afficher_items]. unfold bind. rewrite Hrun, Hrun2.
    repeat split; congruence.
Qed.

Lemma afficher_item_unprintable (it : item) (w : World R) :
  printable it = false ->
  exists e w', afficher_item it w = (Raise e, w')
               /\ is_item_error e = true
               /\ remote w' = remote w /\ disk w' = disk w /\ calls w' = calls w.
Proof.
  unfold printable, afficher_item, bind, getitem, print, int_of_str. intros Hp.
  destruct (it !! "size") as [size|] eqn:Hsize; cbn [default from_option Datatypes.id].
  - destruct (String.eqb size "N/A") eqn:Hna; cbn [orb andb] in Hp.
    + destruct (it !! "name"); [| do 2 eexists; split; [reflexivity | repeat split]].
      destruct (it !! "id"); [| do 2 eexists; split; [reflexivity | repeat split]].
      destruct (it !! "mimeType"); [| do 2 eexists; split; [reflexivity | repeat split]].
      rewrite !bool_decide_eq_true_2 in Hp by eauto. discriminate.
    + destruct (Py.int size) as [n|]; [| do 2 eexists; split; [reflexivity | repeat split]].
      destruct (it !! "name"); [| do 2 eexists; split; [reflexivity | repeat split]].
      destruct (it !! "id"); [| do 2 eexists; split; [reflexivity | repeat split]].
      destruct (it !! "mimeType"); [| do 2 eexists; split; [reflexivity | repeat split]].
      rewrite !bool_decide_eq_true_2 in Hp by eauto. discriminate.
  - change (String.eqb "N/A" "N/A") with true. cbv iota. cbn [andb] in Hp.
    destruct (it !! "name"); [| do 2 eexists; split; [reflexivity | repeat split]].
    destruct (it !! "id"); [| do 2 eexists; split; [reflexivity | repeat split]].
    destruct (it !! "mimeType"); [| do 2 eexists; split; [reflexivity | repeat split]].
    rewrite !bool_decide_eq_true_2 in Hp by eauto. discriminate.
Qed.

Lemma afficher_items_unprintable (items : list item) (w : World R) :
  forallb printable items = false ->
  exists e w', afficher_items items w = (Raise e, w')
               /\ is_item_error e = true
               /\ remote w' = remote w /\ disk w' = disk w /\ calls w' = calls w.
Proof.
  revert w. induction items as [|it rest IH]; intros w Hall; [discriminate |].
  cbn [forallb] in Hall. cbn [afficher_items]. unfold bind.
  destruct (printable it) eqn:Hit.
  - destruct (afficher_item_printable it w Hit) as (w1 & -> & Hr1 & Hd1 & Hc1).
    destruct (IH w1 Hall) as (e & w2 & -> & He & Hr2 & Hd2 & Hc2).
    exists e, w2. repeat split; congruence.
  - destruct (afficher_item_unprintable it w Hit) as (e & w1 & -> & He & Hr1 & Hd1 & Hc1).
    exists e, w1. repeat split; assumption.
Qed.

(** The run of [lister_fichiers] without a folder name, in terms of the
    answer to its request. *)
Lemma lister_fichiers_sans_nom (d : option string) (w : World R) :
  lister_fichiers d None w
  = try_except
      (results <- execute_list (requete d) champs_liste;;
       match default [] (resp_files results) with
       | [] => print "📁 Aucun fichier trouvé.";; ret []
       | _ :: _ =>
           print ("📋 " +:+ pretty (length (default [] (resp_files results)))
                  +:+ " fichiers trouvés:");;
           print (str_repeat "-" 80);;
           afficher_items (default [] (resp_files results));;
           ret (default [] (resp_files results))
       end)
      (fun e => print ("❌ Erreur lors de la liste des fichiers: " +:+ str_exn e);; ret [])
      w.
Proof. reflexivity. Qed.

Lemma lister_fichiers_answer
    (d : option string) (w : World R) (results : ListResponse) (s : R) :
  files_list (requete d) champs_liste (remote w) = (inr results, s) ->
  forallb printable (default [] (resp_files results)) = true ->
  (lister_fichiers d None w).1 = Ok (default [] (resp_files results))
  /\ remote (lister_fichiers d None w).2 = s.
Proof.
  intros Hlist Hall.
  assert (Hrun : exists w', lister_fichiers d None w = (Ok (default [] (resp_files results)), w')
                            /\ remote w' = s).
  { rewrite lister_fichiers_sans_nom.
    unfold try_except, bind at 1, execute_list. rewrite Hlist.
    destruct (default [] (resp_files results)) as [|it rest] eqn:Hitems.
    - eexists. split; reflexivity.
    - unfold bind, print.
      match goal with
      | |- context [afficher_items ?l ?w0] =>
          destruct (afficher_items_printable l w0 Hall) as (w1 & -> & Hr & _)
      end.
      eexists. split; [reflexivity | exact Hr]. }
  destruct Hrun as (w' & -> & Hr). split; [reflexivity | exact Hr].
Qed.

(** X1.  When the request of a listing answers with records that can
    all be printed, the listing returns exactly the records of the
    answer, in the order of the answer. *)
Theorem lister_fichiers_complete
    (d : option string) (w : World R) (results : ListResponse) (s : R) :
  files_list (requete d) champs_liste (remote w) = (inr results, s) ->
  forallb printable (default [] (resp_files results)) = true ->
  (lister_fichiers d None w).1 = Ok (default [] (resp_files results))
  /\ remote (lister_fichiers d None w).2 = s.
Proof. apply lister_fichiers_answer. Qed.

Lemma unprintable_not_printable (it : item) : unprintable it = true -> printable it = false.
Proof.
  unfold unprintable, printable. intros Hu.
  destruct (bool_decide (is_Some (it !! "name"))); [| apply andb_false_iff; left;
    apply andb_false_iff; left; apply andb_false_r].
  destruct (bool_decide (is_Some (it !! "id"))); [| apply andb_false_iff; left;
    apply andb_false_r].
  destruct (bool_decide (is_Some (it !! "mimeType"))); [| apply andb_false_r].
  cbn [negb orb] in Hu. rewrite !andb_true_r.
  destruct (it !! "size") as [size|]; [| discriminate].
  apply andb_true_iff in Hu as [Hu Hint]. apply andb_true_iff in Hu as [Hna _].
  apply negb_true_iff in Hna, Hint. rewrite Hna, Hint. reflexivity.
Qed.

Lemma some_unprintable (items : list item) :
  existsb unprintable items = true -> forallb printable items = false.
Proof.
  induction items as [|it rest IH]; [discriminate |].
  cbn [existsb forallb]. intros Hex. apply orb_true_iff in Hex as [Hit | Hrest].
  - rewrite (unprintable_not_printable _ Hit). reflexivity.
  - rewrite (IH Hrest). apply andb_false_r.
Qed.

(** X2.  When one record of the answer lacks a name, an identifier or a
    type, or has a size that is an ASCII string other than ['N/A']
    which [int] refuses, the whole listing is lost: the result is the
    empty list, and the last line printed is the error line of a
    [KeyError] or [ValueError]. *)
Theorem lister_fichiers_unprintable
    (d : option string) (w : World R) (results : ListResponse) (s : R) :
  files_list (requete d) champs_liste (remote w) = (inr results, s) ->
  existsb unprintable (default [] (resp_files results)) = true ->
  exists e,
    is_item_error e = true
    /\ (lister_fichiers d None w).1 = Ok []
    /\ last (stdout (lister_fichiers d None w).2)
       = Some ("❌ Erreur lors de la liste des fichiers: " +:+ str_exn e).
Proof.
  intros Hlist Hall. apply some_unprintable in Hall.
  assert (Hrun : exists e w',
    is_item_error e = true
    /\ lister_fichiers d None w
       = (Ok [], add_stdout ("❌ Erreur lors de la liste des fichiers: " +:+ str_exn e) w')).
  { rewrite lister_fichiers_sans_nom.
    unfold try_except, bind at 1, execute_list. rewrite Hlist.
    destruct (default [] (resp_files results)) as [|it rest] eqn:Hitems; [discriminate |].
    unfold bind, print.
    match goal with
    | |- context [afficher_items ?l ?w0] =>
        destruct (afficher_items_unprintable l w0 Hall) as (e & w1 & -> & He & _)
    end.
    exists e. eexists. split; [exact He | reflexivity]. }
  destruct Hrun as (e & w' & He & ->).
  exists e. split; [exact He |]. split; [reflexivity |].
  cbn [snd stdout add_stdout]. apply last_snoc.
Qed.

(** X3.  Listing by a name that resolves is the lookup followed by the
    listing by the identifier found. *)
Theorem lister_fichiers_by_name (nom_dossier d : string) (w : World R) :
  nom_dossier <> "" ->
  d <> "" ->
  (trouver_dossier_par_nom nom_dossier w).1 = Ok (Some d) ->
  lister_fichiers None (Some nom_dossier) w
  = lister_fichiers (Some d) None (trouver_dossier_par_nom nom_dossier w).2.
Proof.
  intros Hn Hd Hfound.
  unfold lister_fichiers, try_except.
  rewrite (truthy_Some _ Hn). change (truthy None) with false. cbn [negb andb].
  unfold bind at 1. change (the (Some nom_dossier)) with nom_dossier.
  destruct (trouver_dossier_par_nom nom_dossier w) as [r w1]. cbn [fst snd] in *. subst r.
  rewrite !(truthy_Some _ Hd). reflexivity.
Qed.

End ListingMore.

(** ** Requests and local disk of each method *)

Section ProfileFacts.

Context {R : Type} `{Service R}.

(** *** Read-only methods *)

Lemma sends_only_silent {A} (P : call -> bool) (m : M R A) :
  (forall w, calls (m w).2 = calls w) -> sends_only P m.
Proof.
  intros Hm w. exists []. rewrite Hm, app_nil_r. split; [reflexivity | constructor].
Qed.

Lemma sends_only_ret {A} (P : call -> bool) (a : A) : sends_only P (ret (R:=R) a).
Proof. apply sends_only_silent. reflexivity. Qed.

Lemma sends_only_raise {A} (P : call -> bool) (e : exn) :
  sends_only P (raise (R:=R) (A:=A) e).
Proof. apply sends_only_silent. reflexivity. Qed.

Lemma sends_only_print (P : call -> bool) (l : string) : sends_only P (print (R:=R) l).
Proof. apply sends_only_silent. reflexivity. Qed.

Lemma sends_only_getitem (P : call -> bool) (d : item) (key : string) :
  sends_only P (getitem (R:=R) d key).
Proof.
  unfold getitem. destruct (d !! key); [apply sends_only_ret | apply sends_only_raise].
Qed.

Lemma sends_only_int_of_str (P : call -> bool) (s : string) :
  sends_only P (int_of_str (R:=R) s).
Proof.
  unfold int_of_str. destruct (Py.int s); [apply sends_only_ret | apply sends_only_raise].
Qed.

Lemma sends_only_write_file (P : call -> bool) (p : string) (c : bytes) :
  sends_only P (write_file (R:=R) p c).
Proof.
  apply sends_only_silent. intros w. unfold write_file.
  destruct (String.eqb p "" || negb (dir_exists w (dir_part p))); reflexivity.
Qed.

Lemma sends_only_get_media (P : call -> bool) (fileId : string) :
  sends_only P (get_media fileId).
Proof.
  apply sends_only_silent. intros w. unfold get_media.
  destruct (files_get_media fileId (remote w)); reflexivity.
Qed.

Lemma sends_only_bind {A B} (P : call -> bool) (m : M R A) (k : A -> M R B) :
  sends_only P m -> (forall a, sends_only P (k a)) -> sends_only P (bind m k).
Proof.
  intros Hm Hk w. destruct (Hm w) as (evs1 & Hc1 & Hp1).
  unfold bind. destruct (m w) as [[a|e] w1]; cbn [snd] in *.
  - destruct (Hk a w1) as (evs2 & Hc2 & Hp2).
    exists (evs1 ++ evs2). split; [rewrite Hc2, Hc1; symmetry; apply app_assoc |].
    apply Forall_app. split; assumption.
  - exists evs1. split; assumption.
Qed.

Lemma sends_only_try_except {A} (P : call -> bool) (body : M R A) (handler : exn -> M R A) :
  sends_only P body -> (forall e, sends_only P (handler e)) ->
  sends_only P (try_except body handler).
Proof.
  intros Hb Hh w. destruct (Hb w) as (evs1 & Hc1 & Hp1).
  unfold try_except. destruct (body w) as [[a|e] w1]; cbn [snd] in *.
  - exists evs1. split; assumption.
  - destruct (Hh e w1) as (evs2 & Hc2 & Hp2).
    exists (evs1 ++ evs2). split; [rewrite Hc2, Hc1; symmetry; apply app_assoc |].
    apply Forall_app. split; assumption.
Qed.

(** One request that satisfies [P]. *)
Lemma sends_only_request {A} (P : call -> bool) (c : call) (m : M R A) :
  P c = true ->
  (forall w, exists outcome, calls (m w).2 = calls w ++ [mkEvent c outcome]) ->
  sends_only P m.
Proof.
  intros Hp Hm w. destruct (Hm w) as (outcome & Hc).
  eexists. split; [exact Hc |]. constructor; [exact Hp | constructor].
Qed.

Lemma sends_only_execute_list (q fields : string) :
  sends_only is_read (execute_list q fields).
Proof.
  apply (sends_only_request _ (FilesList q fields)); [reflexivity |].
  intros w. unfold execute_list.
  destruct (files_list q fields (remote w)) as [[e|r] s]; eexists; reflexivity.
Qed.

Lemma sends_only_execute_get (fileId : string) : sends_only is_read (execute_get fileId).
Proof.
  apply (sends_only_request _ (FilesGet fileId)); [reflexivity |].
  intros w. unfold execute_get.
  destruct (files_get fileId (remote w)) as [[e|r] s]; eexists; reflexivity.
Qed.

Lemma sends_only_execute_export_media (fileId mimeType : string) :
  sends_only is_read (execute_export_media fileId mimeType).
Proof.
  apply (sends_only_request _ (FilesExportMedia fileId mimeType)); [reflexivity |].
  intros w. unfold execute_export_media.
  destruct (files_export_media fileId mimeType (remote w)) as [[e|r] s]; eexists; reflexivity.
Qed.

Lemma sends_only_next_chunk (fileId : string) (answer : exn + Chunk) :
  sends_only is_read (next_chunk (R:=R) fileId answer).
Proof.
  apply (sends_only_request _ (FilesGetMedia fileId)); [reflexivity |].
  intros w. unfold next_chunk. destruct answer; eexists; reflexivity.
Qed.

Create HintDb reads.

#[local] Hint Resolve sends_only_ret sends_only_raise sends_only_print sends_only_getitem
  sends_only_int_of_str sends_only_write_file sends_only_get_media
  sends_only_execute_list sends_only_execute_get sends_only_execute_export_media
  sends_only_next_chunk : reads.

Ltac reading :=
  repeat first
    [ apply sends_only_bind; [| intros ?]
    | apply sends_only_try_except; [| intros ?]
    | solve [auto with reads]
    | progress cbv beta zeta
    | match goal with
      | |- sends_only _ (if ?b then _ else _) => destruct b
      | |- sends_only _ (match ?x with _ => _ end) => destruct x
      end ].

Lemma sends_only_afficher_items (P : call -> bool) (items : list item) :
  sends_only P (afficher_items (R:=R) items).
Proof.
  induction items as [|it rest IH]; cbn [afficher_items].
  - apply sends_only_ret.
  - apply sends_only_bind; [unfold afficher_item; reading | intros _; exact IH].
Qed.

Lemma sends_only_afficher_formats (P : call -> bool) (entries : list (string * string)) :
  sends_only P (afficher_formats (R:=R) entries).
Proof.
  induction entries as [|[format_mime description] rest IH]; cbn [afficher_formats].
  - apply sends_only_ret.
  - apply sends_only_bind; [apply sends_only_print | intros _; exact IH].
Qed.

Lemma sends_only_download_chunks (fileId : string) (script : list (exn + Chunk)) (fh : bytes) :
  sends_only is_read (download_chunks (R:=R) fileId script fh).
Proof.
  revert fh. induction script as [|answer rest IH]; intros fh; cbn [download_chunks].
  - apply sends_only_ret.
  - apply sends_only_bind; [apply sends_only_next_chunk | intros c].
    apply sends_only_bind; [apply sends_only_print | intros _; apply IH].
Qed.

#[local] Hint Resolve sends_only_afficher_items sends_only_afficher_formats
  sends_only_download_chunks : reads.

Lemma sends_only_trouver_dossier_par_nom (nom_dossier : string) :
  sends_only is_read (trouver_dossier_par_nom nom_dossier).
Proof. unfold trouver_dossier_par_nom. reading. Qed.

#[local] Hint Resolve sends_only_trouver_dossier_par_nom : reads.

(** X4.  Listing, looking a folder up, downloading and asking for the
    export formats only read the store: none of their requests is a
    [files().create]. *)
Theorem read_methods_send_no_create
    (dossier_id nom_dossier nom_fichier_local format_export : option string)
    (nom fichier_id : string) :
  sends_only is_read (lister_fichiers dossier_id nom_dossier)
  /\ sends_only is_read (trouver_dossier_par_nom nom)
  /\ sends_only is_read (telecharger_fichier fichier_id nom_fichier_local format_export)
  /\ sends_only is_read (obtenir_formats_export fichier_id).
Proof.
  repeat split.
  - unfold lister_fichiers. reading.
  - apply sends_only_trouver_dossier_par_nom.
  - unfold telecharger_fichier. reading.
  - unfold obtenir_formats_export. reading.
Qed.

(** *** Methods of one request *)

(** A block all of whose requests satisfy "false" sends nothing. *)
Lemma sends_nothing {A} (m : M R A) (w : World R) :
  sends_only (fun _ => false) m -> calls (m w).2 = calls w.
Proof.
  intros Hm. destruct (Hm w) as (evs & Hc & Hp).
  destruct evs as [|ev evs]; [rewrite Hc; apply app_nil_r |].
  inversion Hp; discriminate.
Qed.

Lemma sends_once_bind {A B} (c : call) (m : M R A) (k : A -> M R B) :
  sends_once c m -> (forall a, sends_only (fun _ => false) (k a)) -> sends_once c (bind m k).
Proof.
  intros Hm Hk w. destruct (Hm w) as (outcome & Hc).
  exists outcome. unfold bind. destruct (m w) as [[a|e] w1]; cbn [snd] in *; [| exact Hc].
  rewrite (sends_nothing (k a) w1 (Hk a)). exact Hc.
Qed.

Lemma sends_once_try_except {A} (c : call) (body : M R A) (handler : exn -> M R A) :
  sends_once c body -> (forall e, sends_only (fun _ => false) (handler e)) ->
  sends_once c (try_except body handler).
Proof.
  intros Hb Hh w. destruct (Hb w) as (outcome & Hc).
  exists outcome. unfold try_except. destruct (body w) as [[a|e] w1]; cbn [snd] in *;
    [exact Hc |].
  rewrite (sends_nothing (handler e) w1 (Hh e)). exact Hc.
Qed.

Lemma sends_once_execute_list (q fields : string) :
  sends_once (FilesList q fields) (execute_list q fields).
Proof.
  intros w. unfold execute_list.
  destruct (files_list q fields (remote w)) as [[e|r] s]; eexists; reflexivity.
Qed.

Lemma sends_once_execute_get (fileId : string) :
  sends_once (FilesGet fileId) (execute_get fileId).
Proof.
  intros w. unfold execute_get.
  destruct (files_get fileId (remote w)) as [[e|r] s]; eexists; reflexivity.
Qed.

Lemma sends_once_execute_create (body : Body) (media : option Media) (fields : string) :
  sends_once (FilesCreate body media fields) (execute_create body media fields).
Proof.
  intros w. unfold execute_create.
  destruct (files_create body media fields (remote w)) as [[e|r] s]; eexists; reflexivity.
Qed.

Lemma trouver_dossier_par_nom_sends_once (nom : string) :
  sends_once (FilesList (requete_dossier nom) "files(id, name)")
    (trouver_dossier_par_nom nom).
Proof.
  unfold trouver_dossier_par_nom.
  apply sends_once_try_except; [| intros e; reading].
  apply sends_once_bind; [apply sends_once_execute_list | intros results; reading].
Qed.

Lemma lister_fichiers_sends_once (dossier_id : option string) :
  sends_once
    (FilesList
       (if truthy dossier_id then requete_parents (the dossier_id) else "trashed=false")
       champs_liste)
    (lister_fichiers dossier_id None).
Proof.
  intros w. rewrite lister_fichiers_sans_nom. revert w.
  apply sends_once_try_except; [| intros e; reading].
  apply sends_once_bind; [apply sends_once_execute_list | intros results; reading].
Qed.

(** X5.  A lookup, a listing without folder name, a request for the
    export formats and a folder creation each send exactly one request,
    fixed by their arguments, whatever the service answers: there is no
    second page and no second try. *)
Theorem methods_of_one_request
    (dossier_id : option string) (nom fichier_id : string) :
  sends_once (FilesList (requete_dossier nom) "files(id, name)")
    (trouver_dossier_par_nom nom)
  /\ sends_once
       (FilesList
          (if truthy dossier_id then requete_parents (the dossier_id) else "trashed=false")
          champs_liste)
       (lister_fichiers dossier_id None)
  /\ sends_once (FilesGet fichier_id) (obtenir_formats_export fichier_id)
  /\ sends_once
       (FilesCreate
          (mkBody nom (Some "application/vnd.google-apps.folder")
             (if truthy dossier_id then Some [the dossier_id] else None))
          None "id")
       (creer_dossier nom dossier_id).
Proof.
  repeat split.
  - apply trouver_dossier_par_nom_sends_once.
  - apply lister_fichiers_sends_once.
  - unfold obtenir_formats_export.
    apply sends_once_try_except; [| intros e; reading].
    apply sends_once_bind; [apply sends_once_execute_get | intros md; reading].
  - unfold creer_dossier.
    apply sends_once_try_except; [| intros e; reading].
    apply sends_once_bind; [apply sends_once_execute_create | intros file; reading].
Qed.

(** *** The local disk *)

Lemma keeps_disk_silent {A} (m : M R A) :
  (forall w, disk (m w).2 = disk w) -> keeps_disk m.
Proof. intros Hm w. apply Hm. Qed.

Lemma keeps_disk_int_of_str (s : string) : keeps_disk (int_of_str (R:=R) s).
Proof. intros w. unfold int_of_str. destruct (Py.int s); reflexivity. Qed.

Lemma keeps_disk_path_exists (p : string) : keeps_disk (path_exists (R:=R) p).
Proof. intros w. reflexivity. Qed.

Lemma keeps_disk_read_file (p : string) : keeps_disk (read_file (R:=R) p).
Proof. intros w. unfold read_file. destruct (disk w !! p); reflexivity. Qed.

Lemma keeps_disk_execute_list (q fields : string) : keeps_disk (execute_list q fields).
Proof.
  intros w. unfold execute_list.
  destruct (files_list q fields (remote w)) as [[?|?] ?]; reflexivity.
Qed.

Lemma keeps_disk_execute_create (body : Body) (media : option Media) (fields : string) :
  keeps_disk (execute_create body media fields).
Proof.
  intros w. unfold execute_create.
  destruct (files_create body media fields (remote w)) as [[?|?] ?]; reflexivity.
Qed.

Lemma keeps_disk_try_except {A} (body : M R A) (handler : exn -> M R A) :
  keeps_disk body -> (forall e, keeps_disk (handler e)) -> keeps_disk (try_except body handler).
Proof.
  intros Hb Hh w. specialize (Hb w). unfold try_except.
  destruct (body w) as [[a|e] w1]; cbn [snd] in *; [assumption |].
  rewrite (Hh e w1). assumption.
Qed.

Create HintDb disk.

#[local] Hint Resolve keeps_disk_ret keeps_disk_raise keeps_disk_print keeps_disk_getitem
  keeps_disk_int_of_str keeps_disk_path_exists keeps_disk_read_file
  keeps_disk_execute_list keeps_disk_execute_get keeps_disk_execute_create : disk.

Ltac keeping :=
  repeat first
    [ apply keeps_disk_bind; [| intros ?]
    | apply keeps_disk_try_except; [| intros ?]
    | solve [auto with disk]
    | progress cbv beta zeta
    | match goal with
      | |- keeps_disk (if ?b then _ else _) => destruct b
      | |- keeps_disk (match ?x with _ => _ end) => destruct x
      end ].

Lemma keeps_disk_afficher_items (items : list item) :
  keeps_disk (afficher_items (R:=R) items).
Proof.
  induction items as [|it rest IH]; cbn [afficher_items].
  - apply keeps_disk_ret.
  - apply keeps_disk_bind; [unfold afficher_item; keeping | intros _; exact IH].
Qed.

Lemma keeps_disk_afficher_formats (entries : list (string * string)) :
  keeps_disk (afficher_formats (R:=R) entries).
Proof.
  induction entries as [|[format_mime description] rest IH]; cbn [afficher_formats].
  - apply keeps_disk_ret.
  - apply keeps_disk_bind; [apply keeps_disk_print | intros _; exact IH].
Qed.

Lemma keeps_disk_trouver_dossier_par_nom (nom_dossier : string) :
  keeps_disk (trouver_dossier_par_nom nom_dossier).
Proof. unfold trouver_dossier_par_nom. keeping. Qed.

#[local] Hint Resolve keeps_disk_afficher_items keeps_disk_afficher_formats
  keeps_disk_trouver_dossier_par_nom : disk.

Lemma keeps_disk_lister_fichiers (dossier_id nom_dossier : option string) :
  keeps_disk (lister_fichiers dossier_id nom_dossier).
Proof. unfold lister_fichiers. keeping. Qed.

Lemma keeps_disk_uploader_fichier (guess_type : string -> option string)
    (chemin : string) (dossier_id nom_dossier : option string) :
  keeps_disk (uploader_fichier guess_type chemin dossier_id nom_dossier).
Proof. unfold uploader_fichier, MediaFileUpload. keeping. Qed.

(** X6.  Of the six methods, only the download writes to the local
    disk: listing, lookup, upload, export formats and folder creation
    leave every local file as it was (an upload neither removes nor
    changes the file it sends). *)
Theorem only_download_writes_locally
    (guess_type : string -> option string)
    (dossier_id nom_dossier : option string) (nom chemin fichier_id : string) :
  keeps_disk (lister_fichiers dossier_id nom_dossier)
  /\ keeps_disk (trouver_dossier_par_nom nom)
  /\ keeps_disk (uploader_fichier guess_type chemin dossier_id nom_dossier)
  /\ keeps_disk (obtenir_formats_export fichier_id)
  /\ keeps_disk (creer_dossier nom dossier_id).
Proof.
  repeat split.
  - apply keeps_disk_lister_fichiers.
  - apply keeps_disk_trouver_dossier_par_nom.
  - apply keeps_disk_uploader_fichier.
  - unfold obtenir_formats_export. keeping.
  - unfold creer_dossier. keeping.
Qed.

End ProfileFacts.

(** ** Uploading *)

Section UploadMore.

Context {R : Type} `{Service R}.
Variable guess_type : string -> option string.

(** X7.  An upload of a file that is on the disk, into a folder given
    by identifier or into no folder, sends one creation request: the
    name is the base name of the path, the parent is the folder when
    one is given, the content is the content of the local file and the
    type is the guessed one or [application/octet-stream].  The result
    is the identifier of the answer. *)
Theorem uploader_fichier_sends_file
    (chemin : string) (dossier_id : option string) (w : World R)
    (content : bytes) (file : item) (s : R) :
  let body :=
    mkBody (basename chemin) None
      (if truthy dossier_id then Some [the dossier_id] else None) in
  let media :=
    mkMedia chemin (default "application/octet-stream" (guess_type chemin)) true content in
  let run := uploader_fichier guess_type chemin dossier_id None w in
  disk w !! chemin = Some content ->
  files_create body (Some media) "id" (remote w) = (inr file, s) ->
  run.1 = Ok (file !! "id")
  /\ remote run.2 = s
  /\ new_calls w run.2 = [mkEvent (FilesCreate body (Some media) "id") None].
Proof.
  intros body media run Hdisk Hcreate.
  assert (Hrun : exists w', run = (Ok (file !! "id"), w')
                            /\ remote w' = s
                            /\ calls w' = calls w
                                            ++ [mkEvent (FilesCreate body (Some media) "id") None]).
  { subst run. unfold uploader_fichier, try_except.
    unfold bind at 1. unfold path_exists. rewrite Hdisk.
    rewrite bool_decide_eq_true_2 by eauto.
    cbn [negb andb truthy].
    unfold bind at 1. unfold MediaFileUpload, bind at 1, read_file. rewrite Hdisk.
    unfold ret at 1. unfold bind at 1. unfold print at 1.
    unfold bind at 1. unfold execute_create.
    cbn [remote add_stdout]. fold body. fold media. rewrite Hcreate.
    unfold bind, print, ret. eexists. split; [reflexivity |]. split; reflexivity. }
  destruct Hrun as (w' & -> & Hr & Hc). cbn [fst snd].
  split; [reflexivity |]. split; [exact Hr |]. apply new_calls_app. exact Hc.
Qed.

(** X8.  An upload into a folder given by a name that cannot be
    resolved returns [None] after the lookup alone: nothing is created,
    in particular not at the root of the drive. *)
Theorem uploader_fichier_unresolved_name
    (chemin nom_dossier : string) (w : World R) :
  let run := uploader_fichier guess_type chemin None (Some nom_dossier) w in
  is_Some (disk w !! chemin) ->
  nom_dossier <> "" ->
  unresolved nom_dossier w ->
  run = (Ok None, add_stdout ("❌ Dossier '" +:+ nom_dossier +:+ "' non trouvé")
                    (trouver_dossier_par_nom nom_dossier w).2)
  /\ exists outcome,
       new_calls w run.2
       = [mkEvent (FilesList (requete_dossier nom_dossier) "files(id, name)") outcome].
Proof.
  intros run Hdisk Hn Hun. unfold unresolved in Hun.
  assert (Hrun : run = (Ok None, add_stdout ("❌ Dossier '" +:+ nom_dossier +:+ "' non trouvé")
                                   (trouver_dossier_par_nom nom_dossier w).2)).
  { subst run. unfold uploader_fichier, try_except.
    unfold bind at 1. unfold path_exists.
    rewrite bool_decide_eq_true_2 by assumption.
    rewrite (truthy_Some _ Hn). change (truthy None) with false. cbn [negb andb].
    unfold bind at 1. change (the (Some nom_dossier)) with nom_dossier.
    destruct (trouver_dossier_par_nom nom_dossier w) as [r w1]. cbn [fst snd] in *. subst r.
    reflexivity. }
  split; [exact Hrun |].
  rewrite Hrun. cbn [snd].
  destruct (trouver_dossier_par_nom_sends_once nom_dossier w) as (outcome & Hc).
  exists outcome. apply new_calls_app. exact Hc.
Qed.

(** When a folder identifier is given, a folder name given with it is
    ignored by the listing and by the upload: no lookup is made. *)
Lemma dossier_id_wins (f chemin : string) (nom_dossier : option string) (w : World R) :
  f <> "" ->
  lister_fichiers (Some f) nom_dossier w = lister_fichiers (Some f) None w
  /\ uploader_fichier guess_type chemin (Some f) nom_dossier w
     = uploader_fichier guess_type chemin (Some f) None w.
Proof.
  intros Hf. unfold lister_fichiers, uploader_fichier.
  rewrite !(truthy_Some _ Hf), !andb_false_r. split; reflexivity.
Qed.

End UploadMore.

(** ** Downloading *)

Section DownloadMore.

Context {R : Type} `{Service R}.

(** X9.  A record that is not editable is downloaded chunk by chunk:
    when every chunk arrives and a file can be opened under the name
    given (or else the name of the record), that file holds the chunks
    in the order of their arrival; no extension is added to the name,
    and an export type given with the call plays no part. *)
Theorem telecharger_fichier_binary_chunks
    (fichier_id : string) (nom_fichier_local format_export : option string)
    (w : World R) (file_metadata : item) (s s' : R) (mime_type name : string)
    (chunks : list Chunk) :
  let local := if truthy nom_fichier_local then the nom_fichier_local else name in
  let run := telecharger_fichier fichier_id nom_fichier_local format_export w in
  files_get fichier_id (remote w) = (inr file_metadata, s) ->
  file_metadata !! "mimeType" = Some mime_type ->
  file_metadata !! "name" = Some name ->
  google_docs_types !! mime_type = None ->
  files_get_media fichier_id s = (inr <$> chunks, s') ->
  can_open w local = true ->
  run.1 = Ok true
  /\ disk run.2 = <[local := concat (chunk_data <$> chunks)]> (disk w)
  /\ remote run.2 = s'.
Proof.
  intros local run Hget Hmime Hname Hbin Hmedia Hlocal.
  assert (Hbase : forall w0 : World R,
    (if negb (truthy nom_fichier_local)
     then getitem file_metadata "name"
     else ret (the nom_fichier_local)) w0 = (Ok local, w0)).
  { intros w0. subst local. destruct (truthy nom_fichier_local); cbn [negb].
    - reflexivity.
    - unfold getitem. rewrite Hname. reflexivity. }
  assert (Hrun : exists w', run = (Ok true, w')
                            /\ disk w' = <[local := concat (chunk_data <$> chunks)]> (disk w)
                            /\ remote w' = s').
  { subst run. unfold telecharger_fichier, try_except.
    unfold bind at 1. unfold execute_get at 1. rewrite Hget.
    unfold bind at 1. unfold getitem at 1. rewrite Hmime. unfold ret at 1.
    unfold bind at 1. rewrite Hbase.
    unfold bind at 1. unfold getitem at 1. rewrite Hname. unfold ret at 1.
    rewrite Hbin.
    unfold bind at 1. unfold print at 1.
    unfold bind at 1. unfold print at 1.
    unfold bind at 1. unfold print at 1.
    unfold bind at 1. unfold get_media at 1.
    cbn [remote add_stdout add_call set_remote]. rewrite Hmedia.
    unfold bind at 1.
    match goal with
    | |- context [download_chunks fichier_id _ [] ?w0] =>
        destruct (SimReports.download_chunks_served fichier_id chunks [] w0)
          as (w1 & -> & Hr & Hd & Hdi)
    end.
    cbn [app]. unfold bind at 1.
    rewrite (can_open_write w w1 local _ Hdi Hlocal).
    unfold bind, print, ret.
    eexists. split; [reflexivity |].
    cbn [disk remote set_disk add_stdout]. rewrite Hd, Hr. split; reflexivity. }
  destruct Hrun as (w' & -> & Hd & Hr). repeat split; assumption.
Qed.

(** X10.  An editable record downloaded with an export type is asked
    for in that type, not in the default one, whatever the type.  The
    local name is the name given (or else the name of the record),
    followed by the extension of the type when the table has one and
    the name does not end with it yet up to letter case; it is left as
    it is when the table has none (RTF, OpenDocument, JPEG, SVG).
    When the export answers and a file can be opened under that name,
    the content is written under it. *)
Theorem telecharger_fichier_export_format
    (fichier_id format_export : string) (nom_fichier_local : option string)
    (w : World R) (file_metadata : item) (s : R) (kind name dflt : string) :
  let base := if truthy nom_fichier_local then the nom_fichier_local else name in
  let local :=
    match extensions !! format_export with
    | Some ext => if negb (endswith (lower base) (lower ext)) then base +:+ ext else base
    | None => base
    end in
  let run := telecharger_fichier fichier_id nom_fichier_local (Some format_export) w in
  files_get fichier_id (remote w) = (inr file_metadata, s) ->
  file_metadata !! "mimeType" = Some kind ->
  file_metadata !! "name" = Some name ->
  google_docs_types !! kind = Some dflt ->
  format_export <> "" ->
  (exists outcome,
     new_calls w run.2
     = [mkEvent (FilesGet fichier_id) None;
        mkEvent (FilesExportMedia fichier_id format_export) outcome])
  /\ (forall content s',
        files_export_media fichier_id format_export s = (inr content, s') ->
        can_open w local = true ->
        run.1 = Ok true /\ disk run.2 = <[local := content]> (disk w)).
Proof.
  intros base local run Hget Hkind Hname Htype Hfmt.
  assert (Hbase : forall w0 : World R,
    (if negb (truthy nom_fichier_local)
     then getitem file_metadata "name"
     else ret (the nom_fichier_local)) w0 = (Ok base, w0)).
  { intros w0. subst base. destruct (truthy nom_fichier_local); cbn [negb].
    - reflexivity.
    - unfold getitem. rewrite Hname. reflexivity. }
  assert (Hrun : exists outcome r w',
    run = (Ok r, w')
    /\ calls w' = calls w ++ [mkEvent (FilesGet fichier_id) None;
                              mkEvent (FilesExportMedia fichier_id format_export) outcome]
    /\ forall content s',
         files_export_media fichier_id format_export s = (inr content, s') ->
         can_open w local = true ->
         r = true /\ disk w' = <[local := content]> (disk w)).
  { subst run. unfold telecharger_fichier, try_except.
    unfold bind at 1. unfold execute_get at 1. rewrite Hget.
    unfold bind at 1. unfold getitem at 1. rewrite Hkind. unfold ret at 1.
    unfold bind at 1. rewrite Hbase.
    unfold bind at 1. unfold getitem at 1. rewrite Hname. unfold ret at 1.
    rewrite Htype, (truthy_Some _ Hfmt). change (the (Some format_export)) with format_export.
    fold local.
    unfold bind at 1. unfold print at 1.
    unfold bind at 1. unfold print at 1.
    unfold bind at 1. unfold print at 1.
    unfold bind at 1. unfold execute_export_media.
    cbn [remote add_stdout add_call set_remote].
    destruct (files_export_media fichier_id format_export s) as [[e|content] s'] eqn:Hexp.
    - exists (Some e). do 2 eexists. split; [reflexivity |]. split.
      + cbn [calls add_call add_stdout set_remote]. rewrite <- app_assoc. reflexivity.
      + intros ? ? [=].
    - unfold bind at 1.
      match goal with
      | |- context [write_file local content ?w0] =>
          pose proof (can_open_write w w0 local content eq_refl) as Hwrite;
          destruct (write_file local content w0) as [[[]|e] w1] eqn:Hw
      end.
      + exists None. do 2 eexists. split; [reflexivity |]. split.
        * unfold write_file in Hw.
          match type of Hw with
          | (if ?c then _ else _) = _ => destruct c; [discriminate |]
          end.
          injection Hw as <-. unfold bind, print, ret.
          cbn [calls add_call add_stdout set_remote set_disk].
          rewrite <- app_assoc. reflexivity.
        * intros ? ? [= <- <-] Hopen. specialize (Hwrite Hopen).
          injection Hwrite as ->. split; reflexivity.
      + exists None. do 2 eexists. split; [reflexivity |]. split.
        * unfold write_file in Hw.
          match type of Hw with
          | (if ?c then _ else _) = _ => destruct c; [| discriminate]
          end.
          injection Hw as <- <-. unfold bind, print, ret.
          cbn [calls add_call add_stdout set_remote set_disk].
          rewrite <- app_assoc. reflexivity.
        * intros ? ? _ Hopen. specialize (Hwrite Hopen). discriminate. }
  destruct Hrun as (outcome & r & w' & -> & Hcalls & Hdisk). cbn [fst snd]. split.
  - exists outcome. apply new_calls_app. exact Hcalls.
  - intros content s' Hexp Hopen. destruct (Hdisk _ _ Hexp Hopen) as [-> Hd].
    split; [reflexivity | exact Hd].
Qed.

(** *** A download writes one file or none *)

Lemma writes_or_fails_bind {A} (m : M R A) (k : A -> M R bool) :
  keeps_disk m -> (forall a, writes_or_fails (k a)) -> writes_or_fails (bind m k).
Proof.
  intros Hm Hk w. specialize (Hm w). unfold bind.
  destruct (m w) as [[a|e] w1]; cbn [fst snd] in *; [| assumption].
  specialize (Hk a w1). destruct (k a w1) as [[b|e] w2]; cbn [fst snd] in *.
  - rewrite <- Hm. exact Hk.
  - rewrite Hk. exact Hm.
Qed.

Lemma writes_or_fails_write (path : string) (content : bytes) (l : string) :
  writes_or_fails (write_file (R:=R) path content;; print l;; ret true).
Proof.
  intros w. unfold bind, write_file.
  destruct (String.eqb_spec path ""); cbn [orb fst snd]; [reflexivity |].
  destruct (dir_exists w (dir_part path)); cbn [negb fst snd]; [| reflexivity].
  split; [reflexivity |]. exists path, content. split; [assumption | reflexivity].
Qed.

Lemma telecharger_fichier_writes_or_fails
    (fichier_id : string) (nom_fichier_local format_export : option string) (w : World R) :
  match (telecharger_fichier fichier_id nom_fichier_local format_export w).1 with
  | Ok true =>
      exists path content,
        path <> ""
        /\ disk (telecharger_fichier fichier_id nom_fichier_local format_export w).2
           = <[path := content]> (disk w)
  | Ok false =>
      disk (telecharger_fichier fichier_id nom_fichier_local format_export w).2 = disk w
  | Raise _ => False
  end.
Proof.
  unfold telecharger_fichier, try_except.
  match goal with
  | |- context [let (r, w') := ?body w in _] =>
      assert (Hbody : writes_or_fails body)
  end.
  { apply writes_or_fails_bind; [apply keeps_disk_execute_get | intros file_metadata].
    apply writes_or_fails_bind; [apply keeps_disk_getitem | intros mime_type].
    apply writes_or_fails_bind.
    { destruct (negb (truthy nom_fichier_local));
        [apply keeps_disk_getitem | apply keeps_disk_ret]. }
    intros nom.
    apply writes_or_fails_bind; [apply keeps_disk_getitem | intros name].
    apply writes_or_fails_bind; [apply keeps_disk_print | intros _].
    apply writes_or_fails_bind; [apply keeps_disk_print | intros _].
    destruct (google_docs_types !! mime_type) as [default_export|].
    - cbv zeta.
      apply writes_or_fails_bind; [apply keeps_disk_print | intros _].
      apply writes_or_fails_bind; [apply keeps_disk_execute_export_media | intros content].
      apply writes_or_fails_write.
    - apply writes_or_fails_bind; [apply keeps_disk_print | intros _].
      apply writes_or_fails_bind; [apply keeps_disk_get_media | intros request].
      apply writes_or_fails_bind; [apply keeps_disk_download_chunks | intros fh].
      apply writes_or_fails_write. }
  specialize (Hbody w).
  match type of Hbody with
  | match (?body w).1 with _ => _ end => destruct (body w) as [[b|e] w1]
  end; cbn [fst snd] in *.
  - destruct Hbody as [-> Hw]. exact Hw.
  - exact Hbody.
Qed.

(** X11.  A download answers [True] exactly when it has written one
    local file, and [False] exactly when it has left the local disk as
    it was; it never raises. *)
Theorem telecharger_fichier_true_iff_written
    (fichier_id : string) (nom_fichier_local format_export : option string) (w : World R) :
  let run := telecharger_fichier fichier_id nom_fichier_local format_export w in
  (run.1 = Ok true
   /\ exists path content, path <> "" /\ disk run.2 = <[path := content]> (disk w))
  \/ (run.1 = Ok false /\ disk run.2 = disk w).
Proof.
  intros run.
  pose proof (telecharger_fichier_writes_or_fails
                fichier_id nom_fichier_local format_export w) as Hrun.
  fold run in Hrun. destruct run.1 as [[|]|e].
  - left. split; [reflexivity | exact Hrun].
  - right. split; [reflexivity | exact Hrun].
  - contradiction.
Qed.

End DownloadMore.

(** ** The tables of the two export methods *)

(** X12.  For each editable kind, the default export type of the
    download is the first format that [obtenir_formats_export] lists
    for the kind, it has an extension, and the label listed for it
    starts with that extension. *)
Theorem default_export_is_first_format (kind dflt : string) :
  google_docs_types !! kind = Some dflt ->
  exists ext label rest,
    extensions !! dflt = Some ext
    /\ formats_disponibles !! kind = Some ((dflt, label) :: rest)
    /\ String.prefix ext label = true.
Proof.
  unfold google_docs_types. intros Hl.
  repeat (apply lookup_insert_Some in Hl as [[<- <-]|[_ Hl]];
          [do 3 eexists; split; [reflexivity |]; split; reflexivity |]).
  rewrite lookup_empty in Hl. discriminate.
Qed.

(** ** Compositions over the reference store *)

Module SimMore.
Import Sim.

(** *** Sizes: [int] reads what the store writes *)

Lemma digit_of_pretty_N_char (d : N) :
  (d < 10)%N -> digit_of (pretty_N_char d) = Some (Z.of_N d).
Proof.
  intros Hd.
  assert (Hcases : d = 0%N \/ d = 1%N \/ d = 2%N \/ d = 3%N \/ d = 4%N \/ d = 5%N
                   \/ d = 6%N \/ d = 7%N \/ d = 8%N \/ d = 9%N) by lia.
  repeat (destruct Hcases as [-> | Hcases]; [reflexivity |]). subst d. reflexivity.
Qed.

Lemma digits_val_pretty_N_go (x : N) (s : string) :
  digits_val (pretty_N_go x s) 0 = digits_val s (Z.of_N x).
Proof.
  revert s. induction (N.lt_wf_0 x) as [x _ IH]. intros s.
  destruct (N.eq_dec x 0%N) as [-> | Hx].
  - rewrite pretty_N_go_0. reflexivity.
  - rewrite pretty_N_go_step by lia.
    rewrite IH by (apply N.div_lt; lia).
    cbn [digits_val]. rewrite digit_of_pretty_N_char by (apply N.mod_lt; lia).
    f_equal. rewrite (N.div_mod x 10) at 3 by lia. lia.
Qed.

Lemma digit_not_blank (c : ascii) (d : Z) :
  digit_of c = Some d ->
  is_space c = false /\ Ascii.eqb c "-" = false /\ Ascii.eqb c "+" = false.
Proof.
  intros Hc. split; [| split].
  - unfold digit_of in Hc. unfold is_space.
    destruct ((48 <=? Z.of_nat (nat_of_ascii c))%Z && (Z.of_nat (nat_of_ascii c) <=? 57)%Z)
      eqn:Hr; [| discriminate].
    apply andb_true_iff in Hr as [Hlo Hhi]. apply Z.leb_le in Hlo.
    apply orb_false_iff. split.
    + apply Nat.eqb_neq. lia.
    + apply andb_false_iff. right. apply Nat.leb_gt. lia.
  - destruct (Ascii.eqb_spec c "-") as [-> |]; [discriminate | reflexivity].
  - destruct (Ascii.eqb_spec c "+") as [-> |]; [discriminate | reflexivity].
Qed.

Lemma int_of_digits (c : ascii) (s : string) (d n : Z) :
  digit_of c = Some d -> digits_val (String c s) 0 = Some n -> Py.int (String c s) = Some n.
Proof.
  intros Hc Hd. destruct (digit_not_blank _ _ Hc) as (Hsp & Hm & Hp).
  unfold Py.int. cbn [lstrip]. rewrite Hsp, Hm, Hp. unfold unsigned. rewrite Hc.
  cbn [digits_val] in Hd. rewrite Hc in Hd.
  replace (10 * 0 + d)%Z with d in Hd by lia. exact Hd.
Qed.

(** A number written before a digit starts with a digit. *)
Lemma pretty_N_go_head (x : N) (c : ascii) (s : string) :
  digit_of c <> None ->
  exists c' s', pretty_N_go x (String c s) = String c' s' /\ digit_of c' <> None.
Proof.
  revert c s. induction (N.lt_wf_0 x) as [x _ IH]. intros c s Hc.
  destruct (N.eq_dec x 0%N) as [-> | Hx].
  - rewrite pretty_N_go_0. eauto.
  - rewrite pretty_N_go_step by lia.
    apply IH; [apply N.div_lt; lia |].
    rewrite digit_of_pretty_N_char by (apply N.mod_lt; lia). discriminate.
Qed.

Lemma int_pretty (n : nat) : Py.int (pretty n) = Some (Z.of_nat n).
Proof.
  unfold pretty, pretty_nat, pretty, pretty_N.
  destruct (decide (N.of_nat n = 0%N)) as [Hz | Hnz].
  - replace n with 0%nat by lia. reflexivity.
  - assert (Hval : digits_val (pretty_N_go (N.of_nat n) "") 0 = Some (Z.of_nat n)).
    { rewrite digits_val_pretty_N_go. cbn. f_equal. lia. }
    revert Hval. rewrite pretty_N_go_step by lia.
    destruct (pretty_N_go_head (N.of_nat n `div` 10)
                (pretty_N_char (N.of_nat n `mod` 10)) "") as (c & s & -> & Hc).
    { rewrite digit_of_pretty_N_char by (apply N.mod_lt; lia). discriminate. }
    destruct (digit_of c) as [d|] eqn:Hd; [| contradiction].
    apply (int_of_digits c s d). exact Hd.
Qed.

(** *** What an upload and a folder creation leave in the store *)

Lemma view_champs_liste (f : File) :
  view champs_liste f
  = <["id" := file_id f]>
      (<["name" := file_name f]>
         (<["mimeType" := file_mimeType f]>
            (<["createdTime" := file_createdTime f]>
               (match file_size f with
                | Some n => <["size" := n]> ∅
                | None => ∅
                end)))).
Proof. unfold view. destruct (file_size f); reflexivity. Qed.

Lemma view_champs_liste_printable (f : File) :
  (forall size, file_size f = Some size -> is_Some (Py.int size)) ->
  printable (view champs_liste f) = true.
Proof.
  intros Hsize. unfold printable. rewrite view_champs_liste.
  rewrite !andb_true_iff. repeat split.
  - rewrite !lookup_insert_ne by discriminate.
    destruct (file_size f) as [n|].
    + rewrite lookup_insert_eq. apply orb_true_iff. right.
      apply bool_decide_eq_true_2. apply Hsize. reflexivity.
    + rewrite lookup_empty. reflexivity.
  - apply bool_decide_eq_true_2. rewrite lookup_insert_ne, lookup_insert_eq by discriminate.
    eauto.
  - apply bool_decide_eq_true_2. rewrite lookup_insert_eq. eauto.
  - apply bool_decide_eq_true_2.
    rewrite lookup_insert_ne, lookup_insert_ne, lookup_insert_eq by discriminate. eauto.
Qed.

Lemma uploader_fichier_created (guess_type : string -> option string)
    (chemin : string) (dossier_id : option string) (w w1 : World state) (id : string) :
  uploader_fichier guess_type chemin dossier_id None w = (Ok (Some id), w1) ->
  exists content f,
    disk w !! chemin = Some content
    /\ files (remote w1) = f :: files (remote w)
    /\ file_id f = id /\ id <> ""
    /\ file_name f = basename chemin
    /\ file_mimeType f = default "application/octet-stream" (guess_type chemin)
    /\ file_size f = Some (pretty (length content))
    /\ file_parents f = (if truthy dossier_id then [the dossier_id] else [])
    /\ file_trashed f = false
    /\ file_content f = content.
Proof.
  unfold uploader_fichier, try_except.
  unfold bind at 1. unfold path_exists.
  destruct (disk w !! chemin) as [content|] eqn:Hdisk.
  2:{ rewrite bool_decide_eq_false_2 by (intros [? ?]; discriminate). discriminate. }
  rewrite bool_decide_eq_true_2 by eauto.
  change (truthy None) with false. cbn [negb andb].
  unfold bind at 1. unfold MediaFileUpload, bind at 1, read_file. rewrite Hdisk.
  unfold ret at 1. unfold bind at 1. unfold print at 1.
  unfold bind at 1. unfold execute_create.
  cbn [files_create service remote add_stdout]. unfold sim_create.
  destruct (next_fault (remote w)) as [[e|] st1] eqn:Hnf; [discriminate |].
  apply SimFacts.next_fault_files in Hnf.
  cbn [body_parents body_mimeType body_name].
  match goal with
  | |- context [if forallb ?p ?l then _ else _] => destruct (forallb p l)
  end; [| discriminate].
  unfold bind, print, ret. rewrite SimFacts.view_id by reflexivity.
  intros [= <- <-].
  exists content. eexists. split; [reflexivity |].
  cbn [remote set_remote add_stdout add_call files set_files file_id file_name file_mimeType
       file_size file_parents file_trashed file_content media_mimetype media_content].
  rewrite Hnf. split; [reflexivity |]. split; [reflexivity |]. split; [discriminate |].
  repeat split. destruct (truthy dossier_id); reflexivity.
Qed.

Lemma creer_dossier_created (nom : string) (parent : option string)
    (w w1 : World state) (id : string) :
  creer_dossier nom parent w = (Ok (Some id), w1) ->
  exists f,
    files (remote w1) = f :: files (remote w)
    /\ file_id f = id
    /\ file_name f = nom
    /\ file_mimeType f = "application/vnd.google-apps.folder"
    /\ file_trashed f = false.
Proof.
  unfold creer_dossier, try_except.
  unfold bind at 1. unfold execute_create.
  cbn [files_create service]. unfold sim_create.
  destruct (next_fault (remote w)) as [[e|] st1] eqn:Hnf; [discriminate |].
  apply SimFacts.next_fault_files in Hnf.
  cbn [body_parents body_mimeType body_name].
  match goal with
  | |- context [if forallb ?p ?l then _ else _] => destruct (forallb p l)
  end; [| discriminate].
  unfold bind, print, ret. rewrite SimFacts.view_id by reflexivity.
  intros [= <- <-].
  eexists. split.
  { cbn [remote set_remote add_stdout add_call files set_files]. rewrite Hnf. reflexivity. }
  repeat split. cbn [file_id]. rewrite Hnf. reflexivity.
Qed.

(** What the store answers to a list request when no fault is
    planned. *)
Lemma sim_list_calm (q fields : string) (ts : list term) (st : state) :
  calm st ->
  parse_query q = Some ts ->
  exists st',
    sim_list q fields st
    = (inr (mkListResponse (Some (view fields <$> List.filter (selected ts) (files st)))), st').
Proof.
  intros Hcalm Hparse. unfold sim_list.
  destruct (SimReports.next_fault_calm st Hcalm) as (st' & -> & _ & Hfiles & _).
  rewrite Hparse, Hfiles. eexists. reflexivity.
Qed.

(** X13.  In the reference store, which lists the newest record first,
    a folder that [creer_dossier] has just created under a plain name
    is the one a lookup of that name returns. *)
Theorem created_folder_is_found
    (nom : string) (parent : option string) (w : World state) (id : string) :
  let made := creer_dossier nom parent w in
  made.1 = Ok (Some id) ->
  plain nom = true ->
  calm (remote made.2) ->
  (trouver_dossier_par_nom nom made.2).1 = Ok (Some id).
Proof.
  intros made Hmade Hplain Hcalm.
  assert (Hrun : creer_dossier nom parent w = (Ok (Some id), made.2)).
  { rewrite <- Hmade. apply surjective_pairing. }
  destruct (creer_dossier_created _ _ _ _ _ Hrun) as (f & Hfiles & Hid & Hname & Hmime & Htrash).
  destruct (sim_list_calm _ "files(id, name)" _ _ Hcalm (SimFacts.parse_requete_dossier nom Hplain))
    as (st' & Hlist).
  unfold trouver_dossier_par_nom, try_except, bind, execute_list.
  cbn [files_list service]. rewrite Hlist. cbn [resp_files default from_option Datatypes.id].
  rewrite Hfiles. cbn [List.filter].
  assert (Hsel : selected [NameIs nom; MimeTypeIs "application/vnd.google-apps.folder";
                           Trashed false] f = true).
  { unfold selected. cbn [forallb satisfies]. rewrite Hname, Hmime, Htrash.
    rewrite String.eqb_refl. reflexivity. }
  rewrite Hsel, fmap_cons. unfold getitem.
  rewrite SimFacts.view_id by reflexivity. rewrite Hid. reflexivity.
Qed.

Section UploadThenRead.

Variable guess_type : string -> option string.

(** X14.  In the reference store, a file uploaded into a folder is
    listed in that folder: when the upload has returned an identifier,
    the listing of the folder that follows holds a record with that
    identifier and the base name of the local path (the sizes of the
    store being integer literals and no request failing). *)
Theorem uploaded_file_is_listed
    (chemin f : string) (w : World state) (id : string) :
  let up := uploader_fichier guess_type chemin (Some f) None w in
  valid_id f ->
  up.1 = Ok (Some id) ->
  calm (remote up.2) ->
  sizes_readable (remote w) ->
  exists items it,
    (lister_fichiers (Some f) None up.2).1 = Ok items
    /\ it ∈ items
    /\ it !! "id" = Some id
    /\ it !! "name" = Some (basename chemin).
Proof.
  intros up [Hne Hplain] Hup Hcalm Hsizes.
  assert (Hrun : uploader_fichier guess_type chemin (Some f) None w = (Ok (Some id), up.2)).
  { rewrite <- Hup. apply surjective_pairing. }
  destruct (uploader_fichier_created _ _ _ _ _ _ Hrun)
    as (content & rec & Hdisk & Hfiles & Hid & _ & Hname & _ & Hsize & Hparents & Htrash & _).
  rewrite (truthy_Some _ Hne) in Hparents. change (the (Some f)) with f in Hparents.
  destruct (sim_list_calm _ champs_liste _ _ Hcalm (SimFacts.parse_requete_parents f Hplain))
    as (st' & Hlist).
  assert (Hsel : selected [InParents f; Trashed false] rec = true).
  { unfold selected. cbn [forallb satisfies existsb]. rewrite Hparents, Htrash.
    cbn [existsb]. rewrite String.eqb_refl. reflexivity. }
  assert (Hall : forallb printable
                   (view champs_liste <$>
                      List.filter (selected [InParents f; Trashed false]) (files (remote up.2)))
                 = true).
  { apply forallb_forall. intros x Hx.
    apply list_elem_of_In, list_elem_of_fmap in Hx as (r & -> & Hr).
    apply SimFacts.selected_filter in Hr as [Hr _].
    apply view_champs_liste_printable. intros size Hs.
    rewrite Hfiles in Hr. apply elem_of_cons in Hr as [-> | Hr].
    - rewrite Hsize in Hs. injection Hs as <-. rewrite int_pretty. eauto.
    - apply (Hsizes r size Hr Hs). }
  assert (Hres : (lister_fichiers (Some f) None up.2).1
                 = Ok (view champs_liste <$>
                         List.filter (selected [InParents f; Trashed false])
                           (files (remote up.2)))).
  { refine (proj1 (lister_fichiers_answer (Some f) up.2 (mkListResponse (Some _)) st' _ _)).
    - rewrite (truthy_Some _ Hne). exact Hlist.
    - exact Hall. }
  eexists. exists (view champs_liste rec). split; [exact Hres |]. split.
  - rewrite Hfiles. cbn [List.filter]. rewrite Hsel, fmap_cons.
    apply elem_of_cons. left. reflexivity.
  - rewrite view_champs_liste. split.
    + rewrite lookup_insert_eq, Hid. reflexivity.
    + rewrite lookup_insert_ne, lookup_insert_eq by discriminate. rewrite Hname. reflexivity.
Qed.

(** [mimetypes] knows no extension for the types of the Docs editors. *)
Hypothesis guess_type_binary :
  forall path t, guess_type path = Some t -> is_editor_type t = false.

(** X15.  In the reference store, a download gives back what an upload
    has sent: when the upload has returned an identifier, no request of
    the download fails and a file can be opened under the local name
    given, the download writes the content of the uploaded file under
    that name. *)
Theorem upload_then_download
    (chemin sortie : string) (dossier_id : option string) (w : World state)
    (id : string) (content : bytes) :
  let up := uploader_fichier guess_type chemin dossier_id None w in
  let down := telecharger_fichier id (Some sortie) None up.2 in
  disk w !! chemin = Some content ->
  up.1 = Ok (Some id) ->
  calm (remote up.2) ->
  can_open up.2 sortie = true ->
  down.1 = Ok true /\ disk down.2 = <[sortie := content]> (disk w).
Proof.
  intros up down Hcontent Hup Hcalm Hsortie.
  assert (Hrun : uploader_fichier guess_type chemin dossier_id None w = (Ok (Some id), up.2)).
  { rewrite <- Hup. apply surjective_pairing. }
  destruct (uploader_fichier_created _ _ _ _ _ _ Hrun)
    as (content' & rec & Hdisk & Hfiles & Hid & _ & _ & Hmime & _ & _ & _ & Hc).
  assert (Some content' = Some content) as [= ->]
    by (rewrite <- Hdisk; exact Hcontent).
  assert (Hfind : find_file id (files (remote up.2)) = Some rec).
  { rewrite Hfiles. unfold find_file. cbn [List.find]. rewrite Hid, String.eqb_refl.
    reflexivity. }
  assert (Hbin : is_editor_type (file_mimeType rec) = false).
  { rewrite Hmime. destruct (guess_type chemin) as [t|] eqn:Hg; [| reflexivity].
    apply (guess_type_binary _ _ Hg). }
  destruct (SimReports.telecharger_fichier_binary id sortie rec up.2 Hcalm Hfind Hbin
              (can_open_nonempty _ _ Hsortie) (can_open_dir _ _ Hsortie))
    as (w' & Hdown & Hd).
  subst down. rewrite Hdown. cbn [fst snd]. split; [reflexivity |].
  rewrite Hd, Hc.
  f_equal. exact (keeps_disk_uploader_fichier guess_type chemin dossier_id None w).
Qed.

End UploadThenRead.

End SimMore.

(** ** Authentication *)

Section AuthFacts.

Context {R : Type} `{Authorizer R} `{Pickle Credentials}.

(** The last three statements of [authenticate], for credentials in
    hand. *)
#[local] Abbreviation finish self creds :=
  (build_service creds;;
   print "✅ Authentification réussie avec Google Drive";;
   ret (mkManager (SCOPES self) (Some creds))).

Lemma finish_frame (self : Manager) (creds : Credentials) (w : World R) :
  disk (finish self creds w).2 = disk w
  /\ calls (finish self creds w).2 = calls w
  /\ remote (finish self creds w).2 = (build "drive" "v3" creds (remote w)).2
  /\ match (finish self creds w).1 with
     | Ok mgr =>
         mgr = mkManager (SCOPES self) (Some creds)
         /\ stdout (finish self creds w).2
            = stdout w ++ ["✅ Authentification réussie avec Google Drive"]
     | Raise _ => stdout (finish self creds w).2 = stdout w
     end.
Proof.
  unfold bind, build_service, print, ret.
  destruct (build "drive" "v3" creds (remote w)) as [[e|] s]; cbn; auto.
Qed.

(** A token file that loads to valid credentials: nothing but the
    build of the service is left to do. *)
Lemma authenticate_cached (self : Manager) (w : World R) (blob : bytes) (c : Credentials) :
  disk w !! "token.pickle" = Some blob ->
  loads blob = Some c ->
  cred_valid c = true ->
  authenticate self w = finish self c w.
Proof.
  intros Hd Hl Hv. unfold authenticate.
  unfold bind at 1. unfold path_exists. rewrite Hd.
  rewrite bool_decide_true by eauto.
  unfold bind at 1. unfold bind at 1. unfold read_file. rewrite Hd.
  unfold bind at 1. unfold pickle_load. rewrite Hl. unfold ret at 1. unfold ret at 1.
  rewrite Hv. cbn [negb]. unfold bind at 1. unfold ret at 1. reflexivity.
Qed.


(** Lines 34-46 once credentials have to be obtained by [m]: they are
    saved, then the service is built. *)
#[local] Abbreviation login self m :=
  (fun w : World R =>
     match m w with
     | (Ok creds, w1) =>
         finish self creds (set_disk (<["token.pickle" := dumps creds]> (disk w1)) w1)
     | (Raise e, w1) => (Raise e, w1)
     end).

Lemma authenticate_corrupt (self : Manager) (w : World R) (blob : bytes) :
  disk w !! "token.pickle" = Some blob ->
  loads blob = None ->
  authenticate self w = (Raise (UnpicklingError "invalid load key"), w).
Proof.
  intros Hd Hl. unfold authenticate.
  unfold bind at 1. unfold path_exists. rewrite Hd.
  rewrite bool_decide_true by eauto.
  unfold bind at 1. unfold bind at 1. unfold read_file. rewrite Hd.
  unfold bind at 1. unfold pickle_load. rewrite Hl. reflexivity.
Qed.

Lemma authenticate_refreshes (self : Manager) (w : World R) (blob : bytes) (c : Credentials) :
  disk w !! "token.pickle" = Some blob ->
  loads blob = Some c ->
  cred_valid c = false ->
  cred_expired c && truthy (cred_refresh_token c) = true ->
  authenticate self w = login self (refresh c) w.
Proof.
  intros Hd Hl Hv He. unfold authenticate.
  unfold bind at 1. unfold path_exists. rewrite Hd.
  rewrite bool_decide_true by eauto.
  unfold bind at 1. unfold bind at 1. unfold read_file. rewrite Hd.
  unfold bind at 1. unfold pickle_load. rewrite Hl. unfold ret at 1. unfold ret at 1.
  rewrite Hv, He. cbn [negb]. unfold bind at 1. unfold bind at 1.
  destruct (refresh c w) as [[c'|e] w1]; reflexivity.
Qed.

Lemma authenticate_flow (self : Manager) (w : World R) :
  (disk w !! "token.pickle" = None
   \/ exists blob c,
        disk w !! "token.pickle" = Some blob
        /\ loads blob = Some c
        /\ cred_valid c = false
        /\ cred_expired c && truthy (cred_refresh_token c) = false) ->
  authenticate self w = login self (interactive_flow (SCOPES self)) w.
Proof.
  intros [Hd | (blob & c & Hd & Hl & Hv & He)]; unfold authenticate.
  - unfold bind at 1. unfold path_exists. rewrite Hd.
    rewrite bool_decide_false by (intros [x Hx]; discriminate).
    unfold bind at 1. unfold ret at 1. unfold bind at 1. unfold bind at 1.
    destruct (interactive_flow (SCOPES self) w) as [[c'|e] w1]; reflexivity.
  - unfold bind at 1. unfold path_exists. rewrite Hd.
    rewrite bool_decide_true by eauto.
    unfold bind at 1. unfold bind at 1. unfold read_file. rewrite Hd.
    unfold bind at 1. unfold pickle_load. rewrite Hl. unfold ret at 1. unfold ret at 1.
    rewrite Hv, He. cbn [negb]. unfold bind at 1. unfold bind at 1.
    destruct (interactive_flow (SCOPES self) w) as [[c'|e] w1]; reflexivity.
Qed.

(** The four ways through [authenticate]. *)
Lemma authenticate_cases (self : Manager) (w : World R) :
  (exists blob, disk w !! "token.pickle" = Some blob /\ loads blob = None
     /\ authenticate self w = (Raise (UnpicklingError "invalid load key"), w))
  \/ (exists blob c, disk w !! "token.pickle" = Some blob /\ loads blob = Some c
        /\ authenticate self w = finish self c w)
  \/ (exists c, authenticate self w = login self (refresh c) w)
  \/ authenticate self w = login self (interactive_flow (SCOPES self)) w.
Proof.
  destruct (disk w !! "token.pickle") as [blob|] eqn:Hd.
  - destruct (loads blob) as [c|] eqn:Hl.
    + destruct (cred_valid c) eqn:Hv.
      * right; left. exists blob, c.
        split; [reflexivity |]. split; [exact Hl |].
        exact (authenticate_cached self w blob c Hd Hl Hv).
      * destruct (cred_expired c && truthy (cred_refresh_token c)) eqn:He.
        -- right; right; left. exists c.
           exact (authenticate_refreshes self w blob c Hd Hl Hv He).
        -- right; right; right. apply authenticate_flow. right. exists blob, c.
           repeat split; assumption.
    + left. exists blob. split; [reflexivity |]. split; [exact Hl |].
      exact (authenticate_corrupt self w blob Hd Hl).
  - right; right; right. apply authenticate_flow. left. exact Hd.
Qed.


Lemma quiet_refresh (c : Credentials) : quiet (refresh c).
Proof.
  intros w. unfold refresh.
  destruct (creds_refresh c (remote w)) as [[e|c'] s]; repeat split.
Qed.

Lemma quiet_interactive_flow (scopes : list string) : quiet (interactive_flow scopes).
Proof.
  intros w. unfold interactive_flow, bind, read_file.
  destruct (disk w !! "credentials.json") as [secrets|]; [| repeat split].
  destruct (run_local_server secrets scopes (remote w)) as [[e|c'] s]; repeat split.
Qed.

Lemma login_outcome (self : Manager) (m : M R Credentials) (w : World R) :
  quiet m ->
  calls (login self m w).2 = calls w
  /\ match (login self m w).1 with
     | Ok mgr =>
         exists creds,
           (m w).1 = Ok creds
           /\ mgr = mkManager (SCOPES self) (Some creds)
           /\ disk (login self m w).2 = <["token.pickle" := dumps creds]> (disk w)
           /\ stdout (login self m w).2
              = stdout w ++ ["✅ Authentification réussie avec Google Drive"]
     | Raise _ =>
         stdout (login self m w).2 = stdout w
         /\ (disk (login self m w).2 = disk w
             \/ exists creds,
                  (m w).1 = Ok creds
                  /\ disk (login self m w).2 = <["token.pickle" := dumps creds]> (disk w))
     end.
Proof.
  intros Hm. destruct (Hm w) as (Hd & Hc & Hs). cbn beta.
  destruct (m w) as [[creds|e] w1]; cbn [fst snd] in *; [| auto].
  destruct (finish_frame self creds
              (set_disk (<["token.pickle" := dumps creds]> (disk w1)) w1))
    as (Fd & Fc & _ & Fo).
  cbn [disk calls stdout set_disk] in Fd, Fc, Fo.
  match type of Fd with
  | disk (?t).2 = _ => destruct t as [[mgr|e] w2]
  end; cbn [fst snd] in *; rewrite Fc, Fd, Hd; (split; [exact Hc |]).
  - destruct Fo as [-> Fo]. exists creds. rewrite Fo, Hs. auto.
  - rewrite Fo, Hs. split; [reflexivity |]. right. exists creds. auto.
Qed.

Lemma authenticate_saved (self mgr : Manager) (w : World R) :
  (authenticate self w).1 = Ok mgr ->
  exists creds blob,
    mgr = mkManager (SCOPES self) (Some creds)
    /\ disk (authenticate self w).2 !! "token.pickle" = Some blob
    /\ loads blob = Some creds.
Proof.
  intros Hok.
  assert (Hlogin : forall m, quiet m -> authenticate self w = login self m w ->
            exists creds blob,
              mgr = mkManager (SCOPES self) (Some creds)
              /\ disk (authenticate self w).2 !! "token.pickle" = Some blob
              /\ loads blob = Some creds).
  { intros m Hm Hrun. destruct (login_outcome self m w Hm) as [_ Ho].
    rewrite <- Hrun in Ho. rewrite Hok in Ho.
    destruct Ho as (creds & _ & -> & Hdisk & _).
    exists creds, (dumps creds). rewrite Hdisk, lookup_insert_eq.
    auto using loads_dumps. }
  destruct (authenticate_cases self w)
    as [(blob & _ & _ & Hrun) | [(blob & c & Hd & Hl & Hrun) | [(c & Hrun) | Hrun]]].
  - rewrite Hrun in Hok. discriminate.
  - destruct (finish_frame self c w) as (Fd & _ & _ & Fo).
    rewrite <- Hrun in Fd, Fo. rewrite Hok in Fo. destruct Fo as [-> _].
    exists c, blob. rewrite Fd. auto.
  - exact (Hlogin _ (quiet_refresh c) Hrun).
  - exact (Hlogin _ (quiet_interactive_flow _) Hrun).
Qed.

(** X16.  Whenever [authenticate] succeeds, the file [token.pickle]
    holds a serialization of exactly the credentials the service was
    built with, and the scopes of the manager are unchanged. *)
Theorem authenticate_saves_credentials (self mgr : Manager) (w : World R) :
  (authenticate self w).1 = Ok mgr ->
  exists creds blob,
    mgr = mkManager (SCOPES self) (Some creds)
    /\ disk (authenticate self w).2 !! "token.pickle" = Some blob
    /\ loads blob = Some creds.
Proof. apply authenticate_saved. Qed.

(** X17.  [authenticate] sends no request to Drive, writes no local
    file other than [token.pickle], and prints its success line when it
    succeeds and nothing when it raises. *)
Theorem authenticate_frame (self : Manager) (w : World R) :
  calls (authenticate self w).2 = calls w
  /\ (forall path, path <> "token.pickle" ->
        disk (authenticate self w).2 !! path = disk w !! path)
  /\ match (authenticate self w).1 with
     | Ok _ =>
         stdout (authenticate self w).2
         = stdout w ++ ["✅ Authentification réussie avec Google Drive"]
     | Raise _ => stdout (authenticate self w).2 = stdout w
     end.
Proof.
  assert (Hlogin : forall m, quiet m ->
            calls (login self m w).2 = calls w
            /\ (forall path, path <> "token.pickle" ->
                  disk (login self m w).2 !! path = disk w !! path)
            /\ match (login self m w).1 with
               | Ok _ =>
                   stdout (login self m w).2
                   = stdout w ++ ["✅ Authentification réussie avec Google Drive"]
               | Raise _ => stdout (login self m w).2 = stdout w
               end).
  { intros m Hm. destruct (login_outcome self m w Hm) as [Hc Ho].
    cbn beta in *. split; [exact Hc |].
    match type of Hc with
    | calls (?t).2 = _ => clear Hc; revert Ho; generalize t
    end.
    intros [[mgr|e] w2]; cbn [fst snd]; intros Ho.
    - destruct Ho as (creds & _ & _ & Hdisk & Hout). split; [| exact Hout].
      intros path Hp. rewrite Hdisk. apply lookup_insert_ne. congruence.
    - destruct Ho as [Hout [Hdisk | (creds & _ & Hdisk)]]; (split; [| exact Hout]);
        intros path Hp; rewrite Hdisk; [reflexivity |].
      apply lookup_insert_ne. congruence. }
  destruct (authenticate_cases self w)
    as [(blob & _ & _ & ->) | [(blob & c & _ & _ & ->) | [(c & ->) | ->]]].
  - cbn [fst snd]. auto.
  - destruct (finish_frame self c w) as (Fd & Fc & _ & Fo).
    split; [exact Fc |]. split; [intros path _; rewrite Fd; reflexivity |].
    revert Fo. generalize (finish self c w). intros [[mgr|e] w2]; cbn [fst snd]; intros Fo;
      [apply Fo | exact Fo].
  - exact (Hlogin _ (quiet_refresh c)).
  - exact (Hlogin _ (quiet_interactive_flow _)).
Qed.

(** X18.  A token file that holds valid credentials is used as it is:
    the disk is left untouched, the only step taken with the
    authorization library is the build of the service with these
    credentials, and a manager that comes out carries them. *)
Theorem authenticate_reuses_valid_token
    (self : Manager) (w : World R) (blob : bytes) (c : Credentials) :
  disk w !! "token.pickle" = Some blob ->
  loads blob = Some c ->
  cred_valid c = true ->
  disk (authenticate self w).2 = disk w
  /\ remote (authenticate self w).2 = (build "drive" "v3" c (remote w)).2
  /\ forall mgr, (authenticate self w).1 = Ok mgr -> service mgr = Some c.
Proof.
  intros Hd Hl Hv. rewrite (authenticate_cached self w blob c Hd Hl Hv).
  destruct (finish_frame self c w) as (Fd & _ & Fr & Fo).
  split; [exact Fd |]. split; [exact Fr |].
  intros mgr Hok. rewrite Hok in Fo. destruct Fo as [-> _]. reflexivity.
Qed.

(** X19.  After an authentication that succeeded with valid
    credentials, a second one does not ask again: it takes the
    credentials from the token file, leaves the disk as it is, and
    builds the service with the same credentials. *)
Theorem authenticate_again (self mgr : Manager) (w : World R) (c : Credentials) :
  let w' := (authenticate self w).2 in
  (authenticate self w).1 = Ok mgr ->
  service mgr = Some c ->
  cred_valid c = true ->
  disk (authenticate mgr w').2 = disk w'
  /\ remote (authenticate mgr w').2 = (build "drive" "v3" c (remote w')).2
  /\ forall mgr', (authenticate mgr w').1 = Ok mgr' -> mgr' = mgr.
Proof.
  intros w' Hok Hs Hv.
  destruct (authenticate_saved self mgr w Hok) as (creds & blob & -> & Hd & Hl).
  cbn [service] in Hs. injection Hs as ->.
  fold w' in Hd.
  rewrite (authenticate_cached _ w' blob c Hd Hl Hv).
  destruct (finish_frame (mkManager (SCOPES self) (Some c)) c w') as (Fd & _ & Fr & Fo).
  split; [exact Fd |]. split; [exact Fr |].
  intros mgr' Hok'. rewrite Hok' in Fo. destruct Fo as [-> _]. reflexivity.
Qed.

(** X20.  A token file that cannot be loaded is fatal: [authenticate]
    raises with the world as it was; it neither refreshes nor asks the
    user to log in, and the file is not replaced. *)
Theorem authenticate_corrupt_token (self : Manager) (w : World R) (blob : bytes) :
  disk w !! "token.pickle" = Some blob ->
  loads blob = None ->
  exists e, authenticate self w = (Raise e, w).
Proof.
  intros Hd Hl. eexists. exact (authenticate_corrupt self w blob Hd Hl).
Qed.

(** X21.  Credentials of the token file that are not valid, have
    expired and carry a refresh token are refreshed, never sent through
    the log-in flow: when the refresh fails its exception is raised
    with the disk as it was, and when it succeeds the refreshed
    credentials are saved and are those of the manager. *)
Theorem authenticate_refresh
    (self : Manager) (w : World R) (blob : bytes) (c : Credentials) :
  disk w !! "token.pickle" = Some blob ->
  loads blob = Some c ->
  cred_valid c = false ->
  cred_expired c = true ->
  truthy (cred_refresh_token c) = true ->
  match creds_refresh c (remote w) with
  | (inl e, s) => authenticate self w = (Raise e, set_remote s w)
  | (inr c', s) =>
      disk (authenticate self w).2 = <["token.pickle" := dumps c']> (disk w)
      /\ forall mgr, (authenticate self w).1 = Ok mgr -> service mgr = Some c'
  end.
Proof.
  intros Hd Hl Hv He Hr.
  rewrite (authenticate_refreshes self w blob c Hd Hl Hv) by (rewrite He, Hr; reflexivity).
  unfold refresh. destruct (creds_refresh c (remote w)) as [[e|c'] s]; [reflexivity |].
  match goal with
  | |- context [finish self c' ?w1] =>
      destruct (finish_frame self c' w1) as (Fd & _ & _ & Fo)
  end.
  split; [exact Fd |].
  intros mgr Hok. rewrite Hok in Fo. destruct Fo as [-> _]. reflexivity.
Qed.


End AuthFacts.

(** ** The program *)

Section MainFacts.

Context {R : Type} `{Service R} `{Authorizer R} `{Pickle Credentials}.

Lemma bind_run {A B} (m : M R A) (k : A -> M R B) (w : World R) :
  bind m k w
  = match m w with
    | (Ok a, w') => k a w'
    | (Raise e, w') => (Raise e, w')
    end.
Proof. reflexivity. Qed.

(** X23.  When the construction of the manager raises, [main] raises
    the same exception at once, with nothing printed after it and no
    request sent.  When it succeeds, [main] cannot fail any more,
    whatever the service answers: it sends exactly one request, the
    listing of everything that is not in the bin, leaves the local disk
    as the construction left it, and ends on its closing line. *)
Theorem main_runs_one_listing (w : World R) :
  let w0 := (GoogleDriveManager w).2 in
  match (GoogleDriveManager w).1 with
  | Raise e => main w = (Raise e, w0)
  | Ok _ =>
      (main w).1 = Ok tt
      /\ disk (main w).2 = disk w0
      /\ (exists outcome,
            calls (main w).2
            = calls w0 ++ [mkEvent (FilesList "trashed=false" champs_liste) outcome])
      /\ last (stdout (main w).2) = Some (nl +:+ "✨ Terminé!")
  end.
Proof.
  cbv zeta. unfold main. rewrite (bind_run GoogleDriveManager).
  destruct (GoogleDriveManager w) as [[mgr|e] w0]; cbn [fst snd]; [| reflexivity].
  unfold bind, print.
  match goal with
  | |- context [lister_fichiers None None ?w4] =>
      destruct (lister_fichiers_contains None None w4) as (items & _ & _ & Hok & _);
      destruct (lister_fichiers_sends_once None w4) as (outcome & Hc);
      pose proof (keeps_disk_lister_fichiers None None w4) as Hd;
      destruct (lister_fichiers None None w4) as [r w5]
  end.
  cbn [fst snd] in *. subst r. cbn [fst snd disk calls stdout add_stdout] in *.
  split; [reflexivity |]. split; [exact Hd |]. split; [exists outcome; exact Hc |].
  apply last_snoc.
Qed.

End MainFacts.

(** ** Further worked examples *)

Section MoreWorkedExamples.

Import Sim Sample SampleMore.

(** Close an equation between closed terms by evaluating its left
    side. *)
Ltac evaluate :=
  unfold unresolved;
  lazymatch goal with
  | |- _ = ?b => vm_cast_no_check (eq_refl b)
  end.

(** [Sample.guess] knows no type of the Docs editors. *)
Ltac guess_is_binary :=
  intros path t; unfold Sample.guess;
  destruct (endswith path ".txt"); [intros [= <-]; reflexivity |];
  destruct (endswith path ".png"); [intros [= <-]; reflexivity | discriminate].

(** X1 on the sample store: the two live children of F1. *)
Lemma lister_fichiers_complete_witness :
  (lister_fichiers (Some "F1") None Sample.monde).1
  = Ok [view champs_liste Sample.document; view champs_liste Sample.binaire]
  /\ remote (lister_fichiers (Some "F1") None Sample.monde).2 = Sample.store.
Proof.
  apply (lister_fichiers_complete (Some "F1") Sample.monde
           (mkListResponse
              (Some [view champs_liste Sample.document; view champs_liste Sample.binaire]))
           Sample.store).
  - evaluate.
  - evaluate.
Defined.

(** X2 on a store whose only record has the size "12 Ko". *)
Lemma lister_fichiers_unprintable_witness :
  exists e,
    is_item_error e = true
    /\ (lister_fichiers None None (world SampleMore.store_illisible ∅)).1 = Ok []
    /\ last (stdout (lister_fichiers None None (world SampleMore.store_illisible ∅)).2)
       = Some ("❌ Erreur lors de la liste des fichiers: " +:+ str_exn e).
Proof.
  apply (lister_fichiers_unprintable None (world SampleMore.store_illisible ∅)
           (mkListResponse (Some [view champs_liste SampleMore.illisible]))
           SampleMore.store_illisible).
  - evaluate.
  - evaluate.
Defined.

(** X3 on the sample store: "Rapports" resolves to F1. *)
Lemma lister_fichiers_by_name_witness :
  lister_fichiers None (Some "Rapports") Sample.monde
  = lister_fichiers (Some "F1") None (trouver_dossier_par_nom "Rapports" Sample.monde).2.
Proof.
  apply (lister_fichiers_by_name "Rapports" "F1" Sample.monde).
  - discriminate.
  - discriminate.
  - evaluate.
Defined.

(** X7 on the sample store: the local notes sent into F1. *)
Lemma uploader_fichier_sends_file_witness :
  (uploader_fichier Sample.guess "out/notes.txt" (Some "F1") None SampleMore.monde_local).1
  = Ok (Some "id6")
  /\ new_calls SampleMore.monde_local
       (uploader_fichier Sample.guess "out/notes.txt" (Some "F1") None
          SampleMore.monde_local).2
     = [mkEvent
          (FilesCreate (mkBody "notes.txt" None (Some ["F1"]))
             (Some (mkMedia "out/notes.txt" "text/plain" true [x68; x69])) "id")
          None].
Proof.
  destruct (uploader_fichier_sends_file Sample.guess "out/notes.txt" (Some "F1")
              SampleMore.monde_local [x68; x69] {["id" := "id6"]}
              (files_create (mkBody "notes.txt" None (Some ["F1"]))
                 (Some (mkMedia "out/notes.txt" "text/plain" true [x68; x69])) "id"
                 Sample.store).2)
    as (Hres & _ & Hcalls).
  - evaluate.
  - evaluate.
  - split; [exact Hres | exact Hcalls].
Defined.

(** X8 on the sample store: no folder is named "Inconnu". *)
Lemma uploader_fichier_unresolved_name_witness :
  uploader_fichier Sample.guess "out/notes.txt" None (Some "Inconnu") SampleMore.monde_local
  = (Ok None, add_stdout "❌ Dossier 'Inconnu' non trouvé"
                (trouver_dossier_par_nom "Inconnu" SampleMore.monde_local).2)
  /\ exists outcome,
       new_calls SampleMore.monde_local
         (uploader_fichier Sample.guess "out/notes.txt" None (Some "Inconnu")
            SampleMore.monde_local).2
       = [mkEvent (FilesList (requete_dossier "Inconnu") "files(id, name)") outcome].
Proof.
  apply (uploader_fichier_unresolved_name Sample.guess "out/notes.txt" "Inconnu"
           SampleMore.monde_local).
  - exists [x68; x69]. evaluate.
  - discriminate.
  - evaluate.
Defined.

(** X9 on the sample store: the picture arrives in three chunks and is
    written in the directory [out/], also when a PDF export is asked
    for. *)
Lemma telecharger_fichier_binary_chunks_witness :
  (telecharger_fichier "b1" (Some "out/copie") (Some "application/pdf") Sample.monde).1
  = Ok true
  /\ disk (telecharger_fichier "b1" (Some "out/copie") (Some "application/pdf")
             Sample.monde).2
     = <["out/copie" := [x89; x50; x4e; x47; x0a]]> ∅.
Proof.
  destruct (telecharger_fichier_binary_chunks "b1" (Some "out/copie")
              (Some "application/pdf")
              Sample.monde (view default_fields Sample.binaire) Sample.store
              (files_get_media "b1" Sample.store).2 "image/png" "photo.png"
              [mkChunk [x89; x50] 40; mkChunk [x4e; x47] 80; mkChunk [x0a] 100])
    as (Hres & Hdisk & _).
  - evaluate.
  - evaluate.
  - evaluate.
  - evaluate.
  - evaluate.
  - evaluate.
  - split; [exact Hres | exact Hdisk].
Defined.

(** X10 on the sample store: the document asked for as PDF under the
    name "rapport" goes to "rapport.pdf". *)
Lemma telecharger_fichier_export_format_witness :
  can_open Sample.monde "rapport.pdf" = true
  /\ (exists outcome,
        new_calls Sample.monde
          (telecharger_fichier "d1" (Some "rapport") (Some "application/pdf") Sample.monde).2
        = [mkEvent (FilesGet "d1") None;
           mkEvent (FilesExportMedia "d1" "application/pdf") outcome])
  /\ (forall content s',
        files_export_media "d1" "application/pdf" Sample.store = (inr content, s') ->
        can_open Sample.monde "rapport.pdf" = true ->
        (telecharger_fichier "d1" (Some "rapport") (Some "application/pdf") Sample.monde).1
        = Ok true
        /\ disk (telecharger_fichier "d1" (Some "rapport") (Some "application/pdf")
                   Sample.monde).2
           = <["rapport.pdf" := content]> ∅).
Proof.
  split; [reflexivity |].
  refine (telecharger_fichier_export_format "d1" "application/pdf" (Some "rapport")
            Sample.monde (view default_fields Sample.document) Sample.store
            "application/vnd.google-apps.document" "R.DOCX"
            "application/vnd.openxmlformats-officedocument.wordprocessingml.document"
            _ _ _ _ _).
  - evaluate.
  - evaluate.
  - evaluate.
  - evaluate.
  - discriminate.
Defined.

(** X12 for the documents: Word comes first. *)
Lemma default_export_is_first_format_witness :
  exists ext label rest,
    extensions
      !! "application/vnd.openxmlformats-officedocument.wordprocessingml.document"
    = Some ext
    /\ formats_disponibles !! "application/vnd.google-apps.document"
       = Some
           (("application/vnd.openxmlformats-officedocument.wordprocessingml.document", label)
              :: rest)
    /\ String.prefix ext label = true.
Proof.
  apply (default_export_is_first_format "application/vnd.google-apps.document"
           "application/vnd.openxmlformats-officedocument.wordprocessingml.document").
  evaluate.
Defined.

(** X13 on the sample store: the folder "Projets" is created, then
    found. *)
Lemma created_folder_is_found_witness :
  (trouver_dossier_par_nom "Projets" (creer_dossier "Projets" None Sample.monde).2).1
  = Ok (Some "id6").
Proof.
  apply (SimMore.created_folder_is_found "Projets" None Sample.monde "id6").
  - evaluate.
  - reflexivity.
  - vm_compute. constructor.
Defined.

Lemma sizes_readable_store : sizes_readable Sample.store.
Proof.
  intros rec size Hin Hsize.
  repeat (apply elem_of_cons in Hin as [-> | Hin];
          [try discriminate Hsize; injection Hsize as <-; vm_compute; eauto |]).
  inversion Hin.
Qed.

(** X14 on the sample store: the notes sent into F1 are listed there. *)
Lemma uploaded_file_is_listed_witness :
  exists items it,
    (lister_fichiers (Some "F1") None
       (uploader_fichier Sample.guess "out/notes.txt" (Some "F1") None
          SampleMore.monde_local).2).1 = Ok items
    /\ it ∈ items
    /\ it !! "id" = Some "id6"
    /\ it !! "name" = Some (basename "out/notes.txt").
Proof.
  apply (SimMore.uploaded_file_is_listed Sample.guess "out/notes.txt" "F1"
           SampleMore.monde_local "id6").
  - split; [discriminate | reflexivity].
  - evaluate.
  - vm_compute. constructor.
  - exact sizes_readable_store.
Defined.

(** X15 on the sample store: the notes sent, then downloaded as
    "copie.txt". *)
Lemma upload_then_download_witness :
  (telecharger_fichier "id6" (Some "copie.txt") None
     (uploader_fichier Sample.guess "out/notes.txt" (Some "F1") None
        SampleMore.monde_local).2).1 = Ok true
  /\ disk (telecharger_fichier "id6" (Some "copie.txt") None
             (uploader_fichier Sample.guess "out/notes.txt" (Some "F1") None
                SampleMore.monde_local).2).2
     = <["copie.txt" := [x68; x69]]> Sample.disque.
Proof.
  apply (SimMore.upload_then_download Sample.guess ltac:(guess_is_binary)
           "out/notes.txt" "copie.txt" (Some "F1") SampleMore.monde_local "id6" [x68; x69]).
  - evaluate.
  - evaluate.
  - vm_compute. constructor.
  - evaluate.
Defined.

End MoreWorkedExamples.

Section AuthWorkedExamples.

Import Sample SampleMore.

Ltac evaluate :=
  lazymatch goal with
  | |- _ = ?b => vm_cast_no_check (eq_refl b)
  end.

(** X16 on a first run with the secrets of the application: the
    credentials of the log-in are in the token file. *)
Lemma authenticate_saves_credentials_witness :
  exists creds blob,
    mkManager ["https://www.googleapis.com/auth/drive"] (Some SampleMore.valides)
    = mkManager (SCOPES SampleMore.self) (Some creds)
    /\ disk (authenticate SampleMore.self
               (Sim.world Sample.store SampleMore.disque_secrets)).2 !! "token.pickle"
       = Some blob
    /\ loads blob = Some creds.
Proof.
  apply (authenticate_saves_credentials SampleMore.self
           (mkManager ["https://www.googleapis.com/auth/drive"] (Some SampleMore.valides))
           (Sim.world Sample.store SampleMore.disque_secrets)).
  evaluate.
Defined.

(** X18 on a disk whose token file holds valid credentials. *)
Lemma authenticate_reuses_valid_token_witness :
  disk (authenticate SampleMore.self (Sim.world Sample.store SampleMore.disque_valide)).2
  = SampleMore.disque_valide
  /\ remote (authenticate SampleMore.self
               (Sim.world Sample.store SampleMore.disque_valide)).2
     = (build "drive" "v3" SampleMore.valides Sample.store).2
  /\ forall mgr,
       (authenticate SampleMore.self (Sim.world Sample.store SampleMore.disque_valide)).1
       = Ok mgr ->
       service mgr = Some SampleMore.valides.
Proof.
  apply (authenticate_reuses_valid_token SampleMore.self
           (Sim.world Sample.store SampleMore.disque_valide)
           (SampleMore.creds_dumps SampleMore.valides) SampleMore.valides).
  - evaluate.
  - evaluate.
  - reflexivity.
Defined.

(** X19 on a first run with the secrets, followed by a second run. *)
Lemma authenticate_again_witness :
  disk (authenticate
          (mkManager ["https://www.googleapis.com/auth/drive"] (Some SampleMore.valides))
          (authenticate SampleMore.self
             (Sim.world Sample.store SampleMore.disque_secrets)).2).2
  = disk (authenticate SampleMore.self
            (Sim.world Sample.store SampleMore.disque_secrets)).2
  /\ remote (authenticate
               (mkManager ["https://www.googleapis.com/auth/drive"]
                  (Some SampleMore.valides))
               (authenticate SampleMore.self
                  (Sim.world Sample.store SampleMore.disque_secrets)).2).2
     = (build "drive" "v3" SampleMore.valides
          (remote (authenticate SampleMore.self
                     (Sim.world Sample.store SampleMore.disque_secrets)).2)).2
  /\ forall mgr',
       (authenticate
          (mkManager ["https://www.googleapis.com/auth/drive"] (Some SampleMore.valides))
          (authenticate SampleMore.self
             (Sim.world Sample.store SampleMore.disque_secrets)).2).1 = Ok mgr' ->
       mgr' = mkManager ["https://www.googleapis.com/auth/drive"] (Some SampleMore.valides).
Proof.
  apply (authenticate_again SampleMore.self
           (mkManager ["https://www.googleapis.com/auth/drive"] (Some SampleMore.valides))
           (Sim.world Sample.store SampleMore.disque_secrets) SampleMore.valides).
  - evaluate.
  - reflexivity.
  - reflexivity.
Defined.

(** X20 on a disk whose token file is empty. *)
Lemma authenticate_corrupt_token_witness :
  exists e,
    authenticate SampleMore.self (Sim.world Sample.store SampleMore.disque_corrompu)
    = (Raise e, Sim.world Sample.store SampleMore.disque_corrompu).
Proof.
  apply (authenticate_corrupt_token SampleMore.self
           (Sim.world Sample.store SampleMore.disque_corrompu) []).
  - evaluate.
  - reflexivity.
Defined.

(** X21 on a disk whose token file holds expired credentials with a
    refresh token: the sample server refreshes them. *)
Lemma authenticate_refresh_witness :
  disk (authenticate SampleMore.self (Sim.world Sample.store SampleMore.disque_perime)).2
  = <["token.pickle" :=
        dumps (mkCredentials "ya29.old+" (Some "1//04") true false)]>
      SampleMore.disque_perime
  /\ forall mgr,
       (authenticate SampleMore.self (Sim.world Sample.store SampleMore.disque_perime)).1
       = Ok mgr ->
       service mgr = Some (mkCredentials "ya29.old+" (Some "1//04") true false).
Proof.
  refine (authenticate_refresh SampleMore.self
            (Sim.world Sample.store SampleMore.disque_perime)
            (SampleMore.creds_dumps SampleMore.perimes) SampleMore.perimes _ _ _ _ _).
  - evaluate.
  - evaluate.
  - reflexivity.
  - reflexivity.
  - reflexivity.
Defined.


End AuthWorkedExamples.
